(** * Retail billing: invoice, void and return workflows, sales breakdowns

    A shallow embedding of the request handlers of the retail billing
    application:

    - the invoices route        : [GET] (list), [POST] (create an invoice)
    - the invoice-by-id route   : [GET], [PUT] (update status and payment
                                  details), [DELETE] (void an invoice)
    - the returns route         : [GET] (list), [POST] (create a return)
    - the product-by-id route   : [DELETE]
    - the customer-by-id route  : [DELETE]
    - the categories route      : [POST], [DELETE]
    - the sales reports route   : [formatDateByPeriod], [getSalesByTimePeriod],
                                  [getTopSellingProducts], [getTopCustomers],
                                  [getSalesByCategory],
                                  [getSalesByPaymentMethod], [getOverview]
    - the report export route   : [convertToCSV], [getProductsReportData]
    - the demo items route      : [POST], [DELETE]

    together with the part of the Prisma schema these handlers touch.

    Modelling conventions.
    - The database is a record [Store] of tables.  Tables that the code
      addresses by primary key are finite maps from the id; append-only
      ledgers are lists in insertion order.
    - JavaScript numbers and Prisma [Decimal]s are exact rationals ([Q]);
      [Int] columns and line quantities are integers ([Z]).  A request body
      is a typed record: [parseInt]/[parseFloat] of a well-formed field is
      the field itself, and an optional field is an [option].
    - Code running inside [prisma.$transaction] is a computation in the
      state-and-exception monad [Tx]; [transaction] commits the final store
      when the body returns and keeps the initial store when it throws.
    - Values the handlers draw from the outside world (the session, the
      clock, the random invoice number, fresh uuids) come in an [Env]. *)

From stdpp Require Import base strings gmap list sorting pretty.
From Stdlib Require Import QArith Qround.

Local Open Scope Z_scope.

(** ** Schema (prisma/schema.prisma) *)

Record Product := mkProduct {
  p_name : string;
  p_price : Q;
  p_stock : Z;
  p_categoryId : option string }.

Record Customer := mkCustomer {
  c_name : string;
  c_loyaltyPoints : Z;
  c_totalPurchases : Q }.

Record InvoiceItem := mkInvoiceItem {
  ii_productId : string;
  ii_quantity : Z;
  ii_unitPrice : Q;
  ii_taxRate : Q;
  ii_taxAmount : Q;
  ii_discount : Q;
  ii_total : Q }.

Record Invoice := mkInvoice {
  inv_id : string;
  inv_invoiceNumber : string;
  inv_customerId : option string;
  inv_userId : string;
  inv_items : list InvoiceItem;
  inv_subtotal : Q;
  inv_taxAmount : Q;
  inv_discountAmount : Q;
  inv_totalAmount : Q;
  inv_status : string;
  inv_paymentMethod : string;
  inv_paymentReference : option string;
  inv_note : option string;
  inv_createdAt : Z }.

Record ReturnItem := mkReturnItem {
  ri_productId : string;
  ri_quantity : Z;
  ri_unitPrice : Q;
  ri_total : Q;
  ri_reason : option string }.

Record ReturnOrder := mkReturnOrder {
  ro_id : string;
  ro_invoiceId : string;
  ro_returnDate : Z;
  ro_items : list ReturnItem;
  ro_totalAmount : Q;
  ro_reason : option string;
  ro_status : string;
  ro_note : option string }.

Record StockHistory := mkStockHistory {
  sh_productId : string;
  sh_quantity : Z;
  sh_type : string;
  sh_note : string;
  sh_invoiceId : option string }.

Record LoyaltyHistory := mkLoyaltyHistory {
  lh_customerId : string;
  lh_points : Z;
  lh_description : string }.

(** A template literal: its text, with an interpolated number left as the
    number it renders. *)
Inductive Fragment : Type :=
  | Str (text : string)
  | Num (q : Q).

Record ActivityLog := mkActivityLog {
  al_userId : string;
  al_action : string;
  al_details : list Fragment }.

Record Store := mkStore {
  users : gset string;
  products : gmap string Product;
  customers : gmap string Customer;
  invoices : gmap string Invoice;
  returnOrders : list ReturnOrder;
  stockHistory : list StockHistory;
  loyaltyHistory : list LoyaltyHistory;
  activityLog : list ActivityLog }.

Definition set_products (f : gmap string Product → gmap string Product) (s : Store) : Store :=
  mkStore (users s) (f (products s)) (customers s) (invoices s)
          (returnOrders s) (stockHistory s) (loyaltyHistory s) (activityLog s).

Definition set_customers (f : gmap string Customer → gmap string Customer) (s : Store) : Store :=
  mkStore (users s) (products s) (f (customers s)) (invoices s)
          (returnOrders s) (stockHistory s) (loyaltyHistory s) (activityLog s).

Definition set_invoices (f : gmap string Invoice → gmap string Invoice) (s : Store) : Store :=
  mkStore (users s) (products s) (customers s) (f (invoices s))
          (returnOrders s) (stockHistory s) (loyaltyHistory s) (activityLog s).

Definition set_returnOrders (f : list ReturnOrder → list ReturnOrder) (s : Store) : Store :=
  mkStore (users s) (products s) (customers s) (invoices s)
          (f (returnOrders s)) (stockHistory s) (loyaltyHistory s) (activityLog s).

Definition set_stockHistory (f : list StockHistory → list StockHistory) (s : Store) : Store :=
  mkStore (users s) (products s) (customers s) (invoices s)
          (returnOrders s) (f (stockHistory s)) (loyaltyHistory s) (activityLog s).

Definition set_loyaltyHistory (f : list LoyaltyHistory → list LoyaltyHistory) (s : Store) : Store :=
  mkStore (users s) (products s) (customers s) (invoices s)
          (returnOrders s) (stockHistory s) (f (loyaltyHistory s)) (activityLog s).

Definition set_activityLog (f : list ActivityLog → list ActivityLog) (s : Store) : Store :=
  mkStore (users s) (products s) (customers s) (invoices s)
          (returnOrders s) (stockHistory s) (loyaltyHistory s) (f (activityLog s)).

(** ** Transactions: state and exceptions *)

Inductive Result (A : Type) : Type :=
  | Ok (a : A) (s : Store)
  | Throw (msg : string).
Arguments Ok {A} a s.
Arguments Throw {A} msg.

Definition Tx (A : Type) : Type := Store → Result A.

#[global] Instance tx_ret : MRet Tx := λ A a s, Ok a s.

#[global] Instance tx_bind : MBind Tx := λ A B k m s,
  match m s with
  | Ok a s' => k a s'
  | Throw msg => Throw msg
  end.

Definition throw {A} (msg : string) : Tx A := λ _, Throw msg.

Definition gets {A} (f : Store → A) : Tx A := λ s, Ok (f s) s.

Definition when (b : bool) (m : Tx unit) : Tx unit := if b then m else mret tt.

(** [for (const x of xs) { await body(x) }] *)
Fixpoint for_of {A} (xs : list A) (body : A → Tx unit) : Tx unit :=
  match xs with
  | [] => mret tt
  | x :: xs' => body x ;; for_of xs' body
  end.

(** [prisma.$transaction(body)]: all of the body's writes, or none. *)
Definition transaction {A} (body : Tx A) (s : Store) : (string + A) * Store :=
  match body s with
  | Ok a s' => (inr a, s')
  | Throw msg => (inl msg, s)
  end.

(** ** JavaScript truthiness of optional strings and numbers *)

(** [x || d] for a string-valued [x]: the empty string is falsy. *)
Definition or_str (x : option string) (d : string) : string :=
  match x with
  | Some v => if decide (v = EmptyString) then d else v
  | None => d
  end.

(** [x || null], and the test [if (x)], for a string-valued [x]. *)
Definition truthy (x : option string) : option string :=
  match x with
  | Some v => if decide (v = EmptyString) then None else Some v
  | None => None
  end.

(** [x ? parseFloat(x) : 0]: absent and zero both give zero. *)
Definition or_zero (x : option Q) : Q := default 0%Q x.

(** [Math.floor(x / 10)] *)
Definition floor_div10 (x : Q) : Z := Qfloor (x / 10).

(** ** Client operations of the ORM used by the handlers

    Constraints come from the schema: [@id] and [@unique] columns reject
    duplicates, a [@relation] column must reference an existing row, and
    [update] of a missing row throws.  The text of a thrown message stands
    for the client's; no handler lets it reach a response. *)

Definition invoiceNumber_taken (n : string) (s : Store) : bool :=
  bool_decide (map_Exists (λ _ inv, inv_invoiceNumber inv = n) (invoices s)).

Definition customer_ref_ok (cid : option string) (s : Store) : bool :=
  match cid with
  | Some c => bool_decide (is_Some (customers s !! c))
  | None => true
  end.

Definition product_refs_ok (items : list InvoiceItem) (s : Store) : bool :=
  forallb (λ it, bool_decide (is_Some (products s !! ii_productId it))) items.

(** [tx.invoice.create], with the nested [items: { create: ... }]. *)
Definition tx_invoice_create (inv : Invoice) : Tx Invoice :=
  λ s,
    if bool_decide (is_Some (invoices s !! inv_id inv)) then
      Throw "Unique constraint failed on the fields: (id)"
    else if invoiceNumber_taken (inv_invoiceNumber inv) s then
      Throw "Unique constraint failed on the fields: (invoiceNumber)"
    else if bool_decide (inv_userId inv ∈ users s)
            && customer_ref_ok (inv_customerId inv) s
            && product_refs_ok (inv_items inv) s then
      Ok inv (set_invoices <[inv_id inv := inv]> s)
    else Throw "Foreign key constraint failed".

(** [data: { status }] on one row. *)
Definition with_status (status : string) (inv : Invoice) : Invoice :=
  mkInvoice (inv_id inv) (inv_invoiceNumber inv) (inv_customerId inv)
    (inv_userId inv) (inv_items inv) (inv_subtotal inv)
    (inv_taxAmount inv) (inv_discountAmount inv)
    (inv_totalAmount inv) status (inv_paymentMethod inv)
    (inv_paymentReference inv) (inv_note inv) (inv_createdAt inv).

(** [tx.invoice.update({ where: { id }, data: { status } })] *)
Definition tx_invoice_update_status (id status : string) : Tx unit :=
  λ s,
    match invoices s !! id with
    | Some inv => Ok tt (set_invoices <[id := with_status status inv]> s)
    | None => Throw "Record to update not found."
    end.

(** [tx.product.findUnique({ where: { id } })] *)
Definition tx_product_findUnique (id : string) : Tx (option Product) :=
  gets (λ s, products s !! id).

(** [stock: { increment: n }] on one row; [decrement: n] is [increment: -n]. *)
Definition add_stock (n : Z) (p : Product) : Product :=
  mkProduct (p_name p) (p_price p) (p_stock p + n) (p_categoryId p).

(** [tx.product.update({ where: { id }, data: { stock: { increment: n } } })] *)
Definition tx_product_update_stock (id : string) (n : Z) : Tx unit :=
  λ s,
    match products s !! id with
    | Some p => Ok tt (set_products <[id := add_stock n p]> s)
    | None => Throw "Record to update not found."
    end.

(** [tx.stockHistory.create] *)
Definition tx_stockHistory_create (e : StockHistory) : Tx unit :=
  λ s,
    if bool_decide (is_Some (products s !! sh_productId e)) then
      Ok tt (set_stockHistory (λ l, l ++ [e]) s)
    else Throw "Foreign key constraint failed".

(** [tx.customer.findUnique({ where: { id } })] *)
Definition tx_customer_findUnique (id : string) : Tx (option Customer) :=
  gets (λ s, customers s !! id).

(** [totalPurchases: { increment: amount }, loyaltyPoints: { increment: points }]
    on one row; [decrement: x] is [increment: -x]. *)
Definition add_purchase (amount : Q) (points : Z) (c : Customer) : Customer :=
  mkCustomer (c_name c) (c_loyaltyPoints c + points) (c_totalPurchases c + amount)%Q.

(** [tx.customer.update({ where: { id }, data: { totalPurchases, loyaltyPoints } })] *)
Definition tx_customer_update (id : string) (amount : Q) (points : Z) : Tx unit :=
  λ s,
    match customers s !! id with
    | Some c => Ok tt (set_customers <[id := add_purchase amount points c]> s)
    | None => Throw "Record to update not found."
    end.

(** [tx.loyaltyHistory.create] *)
Definition tx_loyaltyHistory_create (e : LoyaltyHistory) : Tx unit :=
  λ s,
    if bool_decide (is_Some (customers s !! lh_customerId e)) then
      Ok tt (set_loyaltyHistory (λ l, l ++ [e]) s)
    else Throw "Foreign key constraint failed".

(** [tx.activityLog.create] *)
Definition tx_activityLog_create (e : ActivityLog) : Tx unit :=
  λ s,
    if bool_decide (al_userId e ∈ users s) then
      Ok tt (set_activityLog (λ l, l ++ [e]) s)
    else Throw "Foreign key constraint failed".

(** [tx.returnOrder.create], with the nested [items: { create: ... }];
    [ReturnItem.productId] is a plain column, not a relation. *)
Definition tx_returnOrder_create (r : ReturnOrder) : Tx ReturnOrder :=
  λ s,
    if bool_decide (is_Some (invoices s !! ro_invoiceId r)) then
      Ok r (set_returnOrders (λ l, l ++ [r]) s)
    else Throw "Foreign key constraint failed".

(** ** Sessions, requests and responses *)

Record Session := mkSession {
  user_id : string;
  user_role : string }.

(** Modelled from the spec: the role predicates of the authentication
    module are imported by the handlers but are not among the sources; the
    specification gives the three-tier order ADMIN > MANAGER > CASHIER. *)
Definition isAdmin (role : string) : bool := bool_decide (role = "ADMIN").

(** Modelled from the spec: MANAGER and every role above it. *)
Definition isManager (role : string) : bool :=
  bool_decide (role = "MANAGER") || isAdmin role.

(** Modelled from the spec: CASHIER and every role above it. *)
Definition isCashier (role : string) : bool :=
  bool_decide (role = "CASHIER") || isManager role.

(** [!session || !allowed(session.user.role)] passes: the session's user. *)
Definition authorized (allowed : string → bool) (session : option Session) : option Session :=
  match session with
  | Some u => if allowed (user_role u) then Some u else None
  | None => None
  end.

Record Env := mkEnv {
  session : option Session;
  now : Z;
  dateStr : string;
  randomPart : string;
  uuid : string }.

Inductive Body : Type :=
  | JsonError (msg : string)
  | JsonMessage (msg : string)
  | JsonInvoice (inv : Invoice)
  | JsonReturn (r : ReturnOrder).

Record Response := mkResponse {
  res_body : Body;
  res_status : Z }.

(** [NextResponse.json(body, { status })] *)
Definition json (body : Body) (status : Z) : Response := mkResponse body status.

(** ** POST /invoices *)

Record ItemData := mkItemData {
  it_productId : string;
  it_quantity : Z;
  it_unitPrice : Q;
  it_taxRate : option Q;
  it_taxAmount : option Q;
  it_discount : option Q;
  it_total : Q }.

Record InvoiceData := mkInvoiceData {
  d_customerId : option string;
  d_items : list ItemData;
  d_subtotal : Q;
  d_taxAmount : Q;
  d_discountAmount : option Q;
  d_totalAmount : Q;
  d_status : option string;
  d_paymentMethod : string;
  d_paymentReference : option string;
  d_note : option string }.

Definition item_of_data (item : ItemData) : InvoiceItem :=
  mkInvoiceItem (it_productId item) (it_quantity item) (it_unitPrice item)
    (or_zero (it_taxRate item)) (or_zero (it_taxAmount item))
    (or_zero (it_discount item)) (it_total item).

Definition invoice_of_data (env : Env) (user : Session) (invoiceNumber : string)
    (data : InvoiceData) : Invoice :=
  mkInvoice (uuid env) invoiceNumber (truthy (d_customerId data)) (user_id user)
    (map item_of_data (d_items data))
    (d_subtotal data) (d_taxAmount data) (or_zero (d_discountAmount data))
    (d_totalAmount data) (or_str (d_status data) "PAID") (d_paymentMethod data)
    (d_paymentReference data) (d_note data) (now env).

(** Step 2 of the transaction: one line's stock update and ledger entry. *)
Definition sell_item (invoiceNumber : string) (invoice : Invoice) (item : ItemData) : Tx unit :=
  product ← tx_product_findUnique (it_productId item);
  match product with
  | None => throw ("Product with ID " +:+ it_productId item +:+ " not found")
  | Some _ =>
      tx_product_update_stock (it_productId item) (- it_quantity item);;
      tx_stockHistory_create
        (mkStockHistory (it_productId item) (it_quantity item) "sale"
           ("Invoice #" +:+ invoiceNumber) (Some (inv_id invoice)))
  end.

(** Step 3 of the transaction: the customer's running totals. *)
Definition credit_customer (invoiceNumber : string) (data : InvoiceData) : Tx unit :=
  match truthy (d_customerId data) with
  | Some cid =>
      customer ← tx_customer_findUnique cid;
      match customer with
      | Some _ =>
          let pointsEarned := floor_div10 (d_totalAmount data) in
          tx_customer_update cid (d_totalAmount data) pointsEarned;;
          when (bool_decide (0 < pointsEarned))
            (tx_loyaltyHistory_create
               (mkLoyaltyHistory cid pointsEarned
                  ("Points earned from invoice #" +:+ invoiceNumber)))
      | None => mret tt
      end
  | None => mret tt
  end.

Definition create_invoice (env : Env) (user : Session) (invoiceNumber : string)
    (data : InvoiceData) : Tx Invoice :=
  invoice ← tx_invoice_create (invoice_of_data env user invoiceNumber data);
  for_of (d_items data) (sell_item invoiceNumber invoice);;
  credit_customer invoiceNumber data;;
  tx_activityLog_create
    (mkActivityLog (user_id user) "CREATE_INVOICE"
       [Str ("Created invoice #" +:+ invoiceNumber +:+ " with total amount ");
        Num (d_totalAmount data)]);;
  mret invoice.

(** [`INV-${dateStr}-${randomPart}`] *)
Definition invoiceNumber_of (env : Env) : string :=
  "INV-" +:+ dateStr env +:+ "-" +:+ randomPart env.

Definition POST_invoices (env : Env) (data : InvoiceData) (s : Store) : Response * Store :=
  match authorized isCashier (session env) with
  | None => (json (JsonError "Not authorized") 403, s)
  | Some user =>
      if bool_decide (d_items data = []) then
        (json (JsonError "Invoice must have at least one item") 400, s)
      else
        let invoiceNumber := invoiceNumber_of env in
        match transaction (create_invoice env user invoiceNumber data) s with
        | (inr result, s') => (json (JsonInvoice result) 201, s')
        | (inl _, s') => (json (JsonError "Internal Server Error") 500, s')
        end
  end.

(** ** DELETE /invoices/{id} *)

(** Step 1 of the transaction: one line's stock goes back to inventory. *)
Definition restock_item (invoiceId : string) (existingInvoice : Invoice)
    (item : InvoiceItem) : Tx unit :=
  tx_product_update_stock (ii_productId item) (ii_quantity item);;
  tx_stockHistory_create
    (mkStockHistory (ii_productId item) (ii_quantity item) "adjustment"
       ("Voided invoice #" +:+ inv_invoiceNumber existingInvoice) (Some invoiceId)).

(** Step 3 of the transaction: the customer's running totals. *)
Definition debit_customer (existingInvoice : Invoice) : Tx unit :=
  match truthy (inv_customerId existingInvoice) with
  | Some cid =>
      let pointsEarned := floor_div10 (inv_totalAmount existingInvoice) in
      when (bool_decide (0 < pointsEarned))
        (tx_customer_update cid (- inv_totalAmount existingInvoice)%Q (- pointsEarned);;
         tx_loyaltyHistory_create
           (mkLoyaltyHistory cid (- pointsEarned)
              ("Points reversed from voided invoice #"
                 +:+ inv_invoiceNumber existingInvoice)))
  | None => mret tt
  end.

Definition void_invoice (user : Session) (invoiceId : string)
    (existingInvoice : Invoice) : Tx unit :=
  for_of (inv_items existingInvoice) (restock_item invoiceId existingInvoice);;
  tx_invoice_update_status invoiceId "VOIDED";;
  debit_customer existingInvoice;;
  tx_activityLog_create
    (mkActivityLog (user_id user) "VOID_INVOICE"
       [Str ("Voided invoice #" +:+ inv_invoiceNumber existingInvoice)]).

(** [prisma.returnOrder.findFirst({ where: { invoiceId } })] *)
Definition returnOrder_findFirst (invoiceId : string) (s : Store) : option ReturnOrder :=
  find (λ r, bool_decide (ro_invoiceId r = invoiceId)) (returnOrders s).

Definition DELETE_invoice (env : Env) (invoiceId : string) (s : Store) : Response * Store :=
  match authorized isAdmin (session env) with
  | None => (json (JsonError "Not authorized") 403, s)
  | Some user =>
      match invoices s !! invoiceId with
      | None => (json (JsonError "Invoice not found") 404, s)
      | Some existingInvoice =>
          if bool_decide (inv_status existingInvoice = "VOIDED") then
            (json (JsonError "Invoice is already voided") 400, s)
          else
            match returnOrder_findFirst invoiceId s with
            | Some _ => (json (JsonError "Cannot void invoice with returns") 400, s)
            | None =>
                match transaction (void_invoice user invoiceId existingInvoice) s with
                | (inr _, s') => (json (JsonMessage "Invoice voided successfully") 200, s')
                | (inl _, s') => (json (JsonError "Internal Server Error") 500, s')
                end
            end
      end
  end.

(** ** POST /returns *)

Record ReturnItemData := mkReturnItemData {
  rit_productId : string;
  rit_quantity : Z;
  rit_unitPrice : Q;
  rit_total : Q;
  rit_reason : option string }.

Record ReturnData := mkReturnData {
  rd_invoiceId : option string;
  rd_items : list ReturnItemData;
  rd_totalAmount : Q;
  rd_reason : option string;
  rd_status : option string;
  rd_note : option string }.

(** [invoice.items.find(i => i.productId === productId)] *)
Definition find_invoice_item (productId : string) (items : list InvoiceItem) : option InvoiceItem :=
  find (λ i, bool_decide (ii_productId i = productId)) items.

(** [data.items.find(item => item.productId === productId)] *)
Definition find_return_item (productId : string) (items : list ReturnItemData) : option ReturnItemData :=
  find (λ item, bool_decide (rit_productId item = productId)) items.

(** The validation loop before the transaction: the first offending line
    decides the response; [None] when every line passes. *)
Fixpoint check_return_items (invoice : Invoice) (items : list ReturnItemData) : option Response :=
  match items with
  | [] => None
  | item :: rest =>
      match find_invoice_item (rit_productId item) (inv_items invoice) with
      | None =>
          Some (json (JsonError ("Product ID " +:+ rit_productId item
                                   +:+ " not found in the invoice")) 400)
      | Some invoiceItem =>
          if bool_decide (ii_quantity invoiceItem < rit_quantity item) then
            Some (json (JsonError ("Cannot return more than purchased quantity for product "
                                     +:+ rit_productId item)) 400)
          else check_return_items invoice rest
      end
  end.

Definition return_item_of_data (item : ReturnItemData) : ReturnItem :=
  mkReturnItem (rit_productId item) (rit_quantity item) (rit_unitPrice item)
    (rit_total item) (rit_reason item).

Definition return_of_data (env : Env) (invoiceId : string) (data : ReturnData) : ReturnOrder :=
  mkReturnOrder (uuid env) invoiceId (now env)
    (map return_item_of_data (rd_items data)) (rd_totalAmount data)
    (rd_reason data) (or_str (rd_status data) "COMPLETED") (rd_note data).

(** Step 2 of the transaction: one returned line goes back to inventory. *)
Definition return_item (invoiceId : string) (invoice : Invoice) (item : ReturnItemData) : Tx unit :=
  tx_product_update_stock (rit_productId item) (rit_quantity item);;
  tx_stockHistory_create
    (mkStockHistory (rit_productId item) (rit_quantity item) "return"
       ("Return from invoice #" +:+ inv_invoiceNumber invoice) (Some invoiceId)).

(** Step 3: [invoice.items.every(...)] *)
Definition allItemsReturned (invoice : Invoice) (items : list ReturnItemData) : bool :=
  forallb (λ invoiceItem,
             match find_return_item (ii_productId invoiceItem) items with
             | Some returnedItem =>
                 bool_decide (ii_quantity invoiceItem ≤ rit_quantity returnedItem)
             | None => false
             end)
          (inv_items invoice).

(** Step 4: the customer's running totals. *)
Definition deduct_customer (invoice : Invoice) (data : ReturnData) : Tx unit :=
  match truthy (inv_customerId invoice) with
  | Some cid =>
      let pointsToDeduct := floor_div10 (rd_totalAmount data) in
      when (bool_decide (0 < pointsToDeduct))
        (tx_customer_update cid (- rd_totalAmount data)%Q (- pointsToDeduct);;
         tx_loyaltyHistory_create
           (mkLoyaltyHistory cid (- pointsToDeduct)
              ("Points deducted for return from invoice #"
                 +:+ inv_invoiceNumber invoice)))
  | None => mret tt
  end.

Definition create_return (env : Env) (user : Session) (invoiceId : string)
    (invoice : Invoice) (data : ReturnData) : Tx ReturnOrder :=
  returnOrder ← tx_returnOrder_create (return_of_data env invoiceId data);
  when (bool_decide (ro_status returnOrder = "COMPLETED"))
    (for_of (rd_items data) (return_item invoiceId invoice);;
     when (allItemsReturned invoice (rd_items data))
       (tx_invoice_update_status invoiceId "REFUNDED");;
     deduct_customer invoice data);;
  tx_activityLog_create
    (mkActivityLog (user_id user) "CREATE_RETURN"
       [Str ("Created return for invoice #" +:+ inv_invoiceNumber invoice
               +:+ " with total amount ");
        Num (rd_totalAmount data)]);;
  mret returnOrder.

Definition POST_returns (env : Env) (data : ReturnData) (s : Store) : Response * Store :=
  match authorized isManager (session env) with
  | None => (json (JsonError "Not authorized") 403, s)
  | Some user =>
      match truthy (rd_invoiceId data) with
      | None => (json (JsonError "Invoice ID is required") 400, s)
      | Some invoiceId =>
          if bool_decide (rd_items data = []) then
            (json (JsonError "Return must have at least one item") 400, s)
          else
            match invoices s !! invoiceId with
            | None => (json (JsonError "Invoice not found") 404, s)
            | Some invoice =>
                match check_return_items invoice (rd_items data) with
                | Some rejection => (rejection, s)
                | None =>
                    match transaction (create_return env user invoiceId invoice data) s with
                    | (inr result, s') => (json (JsonReturn result) 201, s')
                    | (inl _, s') => (json (JsonError "Internal Server Error") 500, s')
                    end
                end
            end
      end
  end.

(** ** Sales breakdowns (reports)

    The two report functions take the rows their [findMany] query returned.
    A JavaScript object used as a map is an association list in insertion
    order, which is the order [Object.entries] lists string keys in. *)

Definition Qltb (x y : Q) : bool :=
  match (x ?= y)%Q with
  | Lt => true
  | _ => false
  end.

(** [if (!m[k]) { m[k] = init }; m[k] = f(m[k])] *)
Fixpoint upsert {V} (k : string) (init : V) (f : V → V) (m : list (string * V)) : list (string * V) :=
  match m with
  | [] => [(k, f init)]
  | (k', v) :: m' =>
      if decide (k' = k) then (k', f v) :: m' else (k', v) :: upsert k init f m'
  end.

(** [Array.prototype.sort] with a comparator [(a, b) => key(b) - key(a)]:
    descending by key, equal keys keep their order. *)
Fixpoint insert_desc {A} (key : A → Q) (x : A) (l : list A) : list A :=
  match l with
  | [] => [x]
  | y :: l' => if Qltb (key x) (key y) then y :: insert_desc key x l' else x :: y :: l'
  end.

Definition sort_desc {A} (key : A → Q) (l : list A) : list A :=
  foldr (insert_desc key) [] l.

(** [xs.reduce((sum, x) => sum + key(x), 0)] *)
Definition reduce_sum {A} (key : A → Q) (xs : list A) : Q :=
  fold_left (λ sum x, (sum + key x)%Q) xs 0%Q.

(** [total > 0 ? (part / total) * 100 : 0] *)
Definition percentage_of (part total : Q) : Q :=
  if Qltb 0 total then (part / total * 100)%Q else 0%Q.

Record CategorySale := mkCategorySale {
  cs_total : Q;
  cs_categoryId : option string;
  cs_categoryName : option string }.

Record CategoryTotal := mkCategoryTotal {
  ct_name : string;
  ct_total : Q }.

Record CategoryItem := mkCategoryItem {
  ci_id : string;
  ci_name : string;
  ci_total : Q }.

Record CategoryRow := mkCategoryRow {
  cr_item : CategoryItem;
  cr_percentage : Q }.

Record CategoryReport := mkCategoryReport {
  cat_data : list CategoryRow;
  cat_totalCategories : nat;
  cat_totalSales : Q }.

Definition group_by_category (categorySales : list CategorySale) : list (string * CategoryTotal) :=
  fold_left
    (λ categoryMap item,
       upsert (or_str (cs_categoryId item) "uncategorized")
         (mkCategoryTotal (or_str (cs_categoryName item) "Uncategorized") 0)
         (λ e, mkCategoryTotal (ct_name e) (ct_total e + cs_total item))
         categoryMap)
    categorySales
    [("uncategorized", mkCategoryTotal "Uncategorized" 0)].

Definition getSalesByCategory (categorySales : list CategorySale) : CategoryReport :=
  let categoryMap := group_by_category categorySales in
  let result :=
    sort_desc ci_total
      (map (λ '(id, data), mkCategoryItem id (ct_name data) (ct_total data)) categoryMap) in
  let totalSales := reduce_sum ci_total result in
  let resultWithPercentage :=
    map (λ item, mkCategoryRow item (percentage_of (ci_total item) totalSales)) result in
  mkCategoryReport resultWithPercentage (length result) totalSales.








(** ** Vocabulary of the statements *)

Definition stock_of (s : Store) (productId : string) : option Z :=
  p_stock <$> products s !! productId.

Definition status_of (s : Store) (invoiceId : string) : option string :=
  inv_status <$> invoices s !! invoiceId.

(** The quantity a list of (product, quantity) lines moves for one product. *)
Definition moved (productId : string) (lines : list (string * Z)) : Z :=
  foldr (λ '(k, n) acc, if decide (k = productId) then n + acc else acc) 0 lines.

(** The product table after every line's [increment] has been applied. *)
Definition apply_lines (lines : list (string * Z)) (m : gmap string Product) : gmap string Product :=
  fold_left (λ m '(k, n), alter (add_stock n) k m) lines m.

Definition lines_exist (lines : list (string * Z)) (s : Store) : bool :=
  forallb (λ '(k, _), bool_decide (is_Some (products s !! k))) lines.

Definition sale_lines (data : InvoiceData) : list (string * Z) :=
  map (λ item, (it_productId item, - it_quantity item)) (d_items data).

Definition invoice_lines (inv : Invoice) : list (string * Z) :=
  map (λ item, (ii_productId item, ii_quantity item)) (inv_items inv).

Definition return_lines (data : ReturnData) : list (string * Z) :=
  map (λ item, (rit_productId item, rit_quantity item)) (rd_items data).

(** *** Invoice creation, declaratively *)

Definition sale_entry (invoiceNumber : string) (invoice : Invoice) (item : ItemData) : StockHistory :=
  mkStockHistory (it_productId item) (it_quantity item) "sale"
    ("Invoice #" +:+ invoiceNumber) (Some (inv_id invoice)).

(** The checks [tx.invoice.create] makes on the row it is given. *)
Definition create_accepts (inv : Invoice) (s : Store) : bool :=
  negb (bool_decide (is_Some (invoices s !! inv_id inv)))
  && negb (invoiceNumber_taken (inv_invoiceNumber inv) s)
  && bool_decide (inv_userId inv ∈ users s)
  && customer_ref_ok (inv_customerId inv) s
  && product_refs_ok (inv_items inv) s.

Definition credited (data : InvoiceData) (m : gmap string Customer) : gmap string Customer :=
  match truthy (d_customerId data) with
  | Some cid => alter (add_purchase (d_totalAmount data) (floor_div10 (d_totalAmount data))) cid m
  | None => m
  end.

Definition points_entries (invoiceNumber : string) (data : InvoiceData) : list LoyaltyHistory :=
  match truthy (d_customerId data) with
  | Some cid =>
      if bool_decide (0 < floor_div10 (d_totalAmount data)) then
        [mkLoyaltyHistory cid (floor_div10 (d_totalAmount data))
           ("Points earned from invoice #" +:+ invoiceNumber)]
      else []
  | None => []
  end.

(** The store a committed invoice creation leaves behind. *)
Definition after_create (env : Env) (user : Session) (invoiceNumber : string)
    (data : InvoiceData) (s : Store) : Store :=
  let invoice := invoice_of_data env user invoiceNumber data in
  mkStore (users s)
    (apply_lines (sale_lines data) (products s))
    (credited data (customers s))
    (<[uuid env := invoice]> (invoices s))
    (returnOrders s)
    (stockHistory s ++ map (sale_entry invoiceNumber invoice) (d_items data))
    (loyaltyHistory s ++ points_entries invoiceNumber data)
    (activityLog s
       ++ [mkActivityLog (user_id user) "CREATE_INVOICE"
             [Str ("Created invoice #" +:+ invoiceNumber +:+ " with total amount ");
              Num (d_totalAmount data)]]).

(** The quantities a request orders, per product. *)
Definition order_lines (data : InvoiceData) : list (string * Z) :=
  map (λ item, (it_productId item, it_quantity item)) (d_items data).

(** An error response: a JSON [{ error }] body with a 4xx or 5xx status. *)
Definition is_error (r : Response) : Prop :=
  ∃ msg, res_body r = JsonError msg ∧ 400 ≤ res_status r.

(** [sum(item.total) + taxAmount - discountAmount] of a stored invoice. *)
Definition recomputed_total (inv : Invoice) : Q :=
  (reduce_sum ii_total (inv_items inv) + inv_taxAmount inv - inv_discountAmount inv)%Q.

(** The same expression on the submitted data. *)
Definition submitted_total (data : InvoiceData) : Q :=
  (reduce_sum it_total (d_items data) + d_taxAmount data - or_zero (d_discountAmount data))%Q.

(** *** A small shop *)

Definition shop : Store :=
  mkStore {["u1"; "u2"]}
    {["p1" := mkProduct "Pen" 2 1 None]}
    {["c1" := mkCustomer "Ann" 0 0]}
    ∅ [] [] [] [].

Definition till (uuid randomPart : string) : Env :=
  mkEnv (Some (mkSession "u1" "ADMIN")) 0 "20240101" randomPart uuid.

(** Five pens ordered while one is in stock. *)
Definition oversell : InvoiceData :=
  mkInvoiceData None [mkItemData "p1" 5 2 None None None 10]
    10 0 None 10 None "CASH" None None.

(** A line for a product the shop does not carry. *)
Definition ghost_line : InvoiceData :=
  mkInvoiceData None
    [mkItemData "p1" 1 2 None None None 2; mkItemData "p9" 1 2 None None None 2]
    4 0 None 4 None "CASH" None None.

(** One pen at 2, submitted with a total of 999. *)
Definition inflated : InvoiceData :=
  mkInvoiceData None [mkItemData "p1" 1 2 None None None 2]
    2 0 None 999 None "CASH" None None.

(** *** Reversal of a customer's running totals, declaratively

    The void and the return workflows take points and purchases back in the
    same way, from an amount and a ledger description. *)

Definition reverse_points (customerId : option string) (amount : Q) (description : string) : Tx unit :=
  match truthy customerId with
  | Some cid =>
      when (bool_decide (0 < floor_div10 amount))
        (tx_customer_update cid (- amount)%Q (- floor_div10 amount);;
         tx_loyaltyHistory_create (mkLoyaltyHistory cid (- floor_div10 amount) description))
  | None => mret tt
  end.

Definition reversal_accepts (customerId : option string) (amount : Q) (s : Store) : bool :=
  match truthy customerId with
  | Some cid =>
      if bool_decide (0 < floor_div10 amount)
      then bool_decide (is_Some (customers s !! cid)) else true
  | None => true
  end.

Definition reversed (customerId : option string) (amount : Q)
    (m : gmap string Customer) : gmap string Customer :=
  match truthy customerId with
  | Some cid =>
      if bool_decide (0 < floor_div10 amount)
      then alter (add_purchase (- amount) (- floor_div10 amount)) cid m else m
  | None => m
  end.

Definition reversal_entries (customerId : option string) (amount : Q)
    (description : string) : list LoyaltyHistory :=
  match truthy customerId with
  | Some cid =>
      if bool_decide (0 < floor_div10 amount)
      then [mkLoyaltyHistory cid (- floor_div10 amount) description] else []
  | None => []
  end.

(** *** Invoice void, declaratively *)

Definition restock_entry (invoiceId : string) (existingInvoice : Invoice)
    (item : InvoiceItem) : StockHistory :=
  mkStockHistory (ii_productId item) (ii_quantity item) "adjustment"
    ("Voided invoice #" +:+ inv_invoiceNumber existingInvoice) (Some invoiceId).

(** What the void transaction needs from the store to go through. *)
Definition void_accepts (user : Session) (invoiceId : string)
    (existingInvoice : Invoice) (s : Store) : bool :=
  lines_exist (invoice_lines existingInvoice) s
  && bool_decide (is_Some (invoices s !! invoiceId))
  && reversal_accepts (inv_customerId existingInvoice) (inv_totalAmount existingInvoice) s
  && bool_decide (user_id user ∈ users s).

(** The store a committed void leaves behind. *)
Definition after_void (user : Session) (invoiceId : string)
    (existingInvoice : Invoice) (s : Store) : Store :=
  mkStore (users s)
    (apply_lines (invoice_lines existingInvoice) (products s))
    (reversed (inv_customerId existingInvoice) (inv_totalAmount existingInvoice) (customers s))
    (alter (with_status "VOIDED") invoiceId (invoices s))
    (returnOrders s)
    (stockHistory s ++ map (restock_entry invoiceId existingInvoice) (inv_items existingInvoice))
    (loyaltyHistory s
       ++ reversal_entries (inv_customerId existingInvoice) (inv_totalAmount existingInvoice)
            ("Points reversed from voided invoice #" +:+ inv_invoiceNumber existingInvoice))
    (activityLog s
       ++ [mkActivityLog (user_id user) "VOID_INVOICE"
             [Str ("Voided invoice #" +:+ inv_invoiceNumber existingInvoice)]]).

(** *** Return creation, declaratively *)

Definition return_entry (invoiceId : string) (invoice : Invoice)
    (item : ReturnItemData) : StockHistory :=
  mkStockHistory (rit_productId item) (rit_quantity item) "return"
    ("Return from invoice #" +:+ inv_invoiceNumber invoice) (Some invoiceId).

(** [returnOrder.status === 'COMPLETED'] for the order a request creates. *)
Definition completed (data : ReturnData) : bool :=
  bool_decide (or_str (rd_status data) "COMPLETED" = "COMPLETED").

(** What the return transaction needs from the store to go through. *)
Definition return_accepts (user : Session) (invoiceId : string)
    (invoice : Invoice) (data : ReturnData) (s : Store) : bool :=
  bool_decide (is_Some (invoices s !! invoiceId))
  && (if completed data then
        lines_exist (return_lines data) s
        && reversal_accepts (inv_customerId invoice) (rd_totalAmount data) s
      else true)
  && bool_decide (user_id user ∈ users s).

Definition return_log (user : Session) (invoice : Invoice) (data : ReturnData) : ActivityLog :=
  mkActivityLog (user_id user) "CREATE_RETURN"
    [Str ("Created return for invoice #" +:+ inv_invoiceNumber invoice
            +:+ " with total amount ");
     Num (rd_totalAmount data)].

(** The store a committed return creation leaves behind. *)
Definition after_return (env : Env) (user : Session) (invoiceId : string)
    (invoice : Invoice) (data : ReturnData) (s : Store) : Store :=
  if completed data then
    mkStore (users s)
      (apply_lines (return_lines data) (products s))
      (reversed (inv_customerId invoice) (rd_totalAmount data) (customers s))
      (if allItemsReturned invoice (rd_items data)
       then alter (with_status "REFUNDED") invoiceId (invoices s) else invoices s)
      (returnOrders s ++ [return_of_data env invoiceId data])
      (stockHistory s ++ map (return_entry invoiceId invoice) (rd_items data))
      (loyaltyHistory s
         ++ reversal_entries (inv_customerId invoice) (rd_totalAmount data)
              ("Points deducted for return from invoice #" +:+ inv_invoiceNumber invoice))
      (activityLog s ++ [return_log user invoice data])
  else
    mkStore (users s) (products s) (customers s) (invoices s)
      (returnOrders s ++ [return_of_data env invoiceId data])
      (stockHistory s) (loyaltyHistory s)
      (activityLog s ++ [return_log user invoice data]).

(** A store that differs from [s] in stock levels only. *)
Definition with_stock_levels (level : string → Z → Z) (s : Store) : Store :=
  set_products
    (map_imap (λ k p, Some (mkProduct (p_name p) (p_price p) (level k (p_stock p))
                               (p_categoryId p))))
    s.

(** An admin's request to void, or a manager's to return, in the small shop. *)
Definition back_office : Env :=
  mkEnv (Some (mkSession "u2" "ADMIN")) 1 "20240102" "0000" "r1".

(** One pen, attached to customer Ann, for a total of 5. *)
Definition small_sale : InvoiceData :=
  mkInvoiceData (Some "c1") [mkItemData "p1" 1 2 None None None 2]
    2 3 None 5 None "CASH" None None.

(** The shop after the small sale has been invoiced as "i1". *)
Definition shop_after_sale : Store :=
  (POST_invoices (till "i1" "1234") small_sale shop).2.

(** A return of the pen of invoice "i1", left pending. *)
Definition pending_return : ReturnData :=
  mkReturnData (Some "i1") [mkReturnItemData "p1" 1 2 2 None] 2 None (Some "PENDING") None.

(** A return of three pens against invoice "i1", which sold one. *)
Definition excess_return : ReturnData :=
  mkReturnData (Some "i1") [mkReturnItemData "p1" 3 2 6 None] 6 None None None.

(** *** Two requests against one store *)

(** Two requests answered one after the other, the second on the store the
    first one left: an order in which a store that serialises transactions
    may run two concurrent requests. *)
Definition serially (first second : Store → Response * Store) (s : Store)
    : Response * Response * Store :=
  let '(r1, s1) := first s in
  let '(r2, s2) := second s1 in
  (r1, r2, s2).

(** One pen. *)
Definition one_pen : InvoiceData :=
  mkInvoiceData None [mkItemData "p1" 1 2 None None None 2]
    2 0 None 2 None "CASH" None None.

(** *** An invoice with two lines for one product *)





(** The pen of invoice "i1" of the small shop returned. *)
Definition pen_back : ReturnData :=
  mkReturnData (Some "i1") [mkReturnItemData "p1" 1 2 2 None] 2 None None None.

(** *** A day's sales *)

Definition day_by_category : list CategorySale :=
  [mkCategorySale 30 (Some "cat-a") (Some "Stationery");
   mkCategorySale 50 None None;
   mkCategorySale 20 (Some "cat-a") (Some "Stationery")].


(** A store with a dangling reference: invoice "i1" has a line for pen "p1"
    and a line for a product "p9" that is not in the product table. *)
Definition derelict : Store :=
  mkStore {["u1"; "u2"]}
    {["p1" := mkProduct "Pen" 2 1 None]}
    ∅
    {["i1" := mkInvoice "i1" "INV-20240101-1234" None "u1"
                [mkInvoiceItem "p1" 1 2 0 0 0 2; mkInvoiceItem "p9" 1 2 0 0 0 2]
                4 0 0 4 "PAID" "CASH" None None 0]}
    [] [] [] [].

(** ** Further reports: sales by period, top sellers, top customers

    As for the breakdowns, each function takes the rows its query returned. *)

(** The calendar fields of a [Date] in the server's time zone. *)
Record JsDate := mkJsDate {
  getFullYear : Z;
  getMonth : Z;
  getDate : Z;
  getDay : Z }.

(** [s.padStart(n, '0')] *)
Fixpoint zeros (n : nat) : string :=
  match n with
  | O => EmptyString
  | S n' => "0" +:+ zeros n'
  end.

Definition padStart0 (n : nat) (s : string) : string :=
  zeros (n - String.length s) +:+ s.

(** [n.toString()] of an integer. *)
Definition toString (n : Z) : string := pretty n.

Section by_period.
(** [d.setDate(n)] on a copy of [d]: the runtime's calendar arithmetic. *)
Variable setDate : JsDate → Z → JsDate.

Definition year_month (date : JsDate) : string :=
  toString (getFullYear date) +:+ "-" +:+ padStart0 2 (toString (getMonth date + 1)).

Definition year_month_day (date : JsDate) : string :=
  year_month date +:+ "-" +:+ padStart0 2 (toString (getDate date)).

Definition formatDateByPeriod (date : JsDate) (period : string) : string :=
  if decide (period = "month") then year_month date
  else if decide (period = "year") then toString (getFullYear date)
  else if decide (period = "week") then
    let startOfWeek := setDate date (getDate date - getDay date) in
    year_month_day startOfWeek
  else year_month_day date.

Record TimedSale := mkTimedSale {
  tsl_totalAmount : Q;
  tsl_createdAt : JsDate }.

Record PeriodTotal := mkPeriodTotal {
  pd_total : Q;
  pd_count : Z }.

Record PeriodItem := mkPeriodItem {
  pe_period : string;
  pe_total : Q;
  pe_count : Z;
  pe_average : Q }.

Record TimeReport := mkTimeReport {
  time_period : string;
  time_data : list PeriodItem;
  time_totalSales : Q;
  time_totalInvoices : Z;
  time_averageSale : Q }.

Definition group_by_period (period : string) (invoices : list TimedSale)
    : list (string * PeriodTotal) :=
  fold_left
    (λ salesByPeriod invoice,
       upsert (formatDateByPeriod (tsl_createdAt invoice) period) (mkPeriodTotal 0 0)
         (λ e, mkPeriodTotal (pd_total e + tsl_totalAmount invoice) (pd_count e + 1))
         salesByPeriod)
    invoices
    [].

(** [xs.reduce((sum, x) => sum + key(x), 0)] on integers. *)
Definition reduce_count {A} (key : A → Z) (xs : list A) : Z :=
  fold_left (λ sum x, sum + key x) xs 0.

(** [a / b || 0], for a sum [a] and a count [b]: no rows give [0 / 0],
    which [|| 0] turns into [0]. *)
Definition quotient_or_zero (a : Q) (b : Z) : Q :=
  if bool_decide (b = 0) then 0%Q else (a / inject_Z b)%Q.

Definition getSalesByTimePeriod (period : string) (invoices : list TimedSale) : TimeReport :=
  let salesByPeriod := group_by_period period invoices in
  let result :=
    map (λ '(period, data),
           mkPeriodItem period (pd_total data) (pd_count data)
             (pd_total data / inject_Z (pd_count data)))
        salesByPeriod in
  mkTimeReport period result
    (reduce_sum pe_total result)
    (reduce_count pe_count result)
    (quotient_or_zero (reduce_sum pe_total result) (reduce_count pe_count result)).
End by_period.

(** A quotient that can be without a finite value: [None] stands for the
    [NaN] or the infinity a zero divisor gives. *)
Definition js_div (x : Q) (n : Z) : option Q :=
  if bool_decide (n = 0) then None else Some (x / inject_Z n)%Q.

Record ProductSale := mkProductSale {
  psl_productId : string;
  psl_name : string;
  psl_categoryName : option string;
  psl_quantity : Z;
  psl_total : Q }.

Record ProductTotal := mkProductTotal {
  prt_name : string;
  prt_category : option string;
  prt_totalQuantity : Z;
  prt_totalSales : Q }.

Record ProductItem := mkProductItem {
  pit_id : string;
  pit_name : string;
  pit_category : option string;
  pit_totalQuantity : Z;
  pit_totalSales : Q;
  pit_averagePrice : option Q }.

Record TopProducts := mkTopProducts {
  top_data : list ProductItem;
  top_totalProducts : nat;
  top_totalQuantitySold : Z;
  top_totalSales : Q }.

Definition group_by_product (productSales : list ProductSale) : list (string * ProductTotal) :=
  fold_left
    (λ productMap item,
       upsert (psl_productId item)
         (mkProductTotal (psl_name item) (truthy (psl_categoryName item)) 0 0)
         (λ e, mkProductTotal (prt_name e) (prt_category e)
                 (prt_totalQuantity e + psl_quantity item)
                 (prt_totalSales e + psl_total item))
         productMap)
    productSales
    [].

Definition product_items (productSales : list ProductSale) : list ProductItem :=
  map (λ '(id, data),
         mkProductItem id (prt_name data) (prt_category data)
           (prt_totalQuantity data) (prt_totalSales data)
           (js_div (prt_totalSales data) (prt_totalQuantity data)))
      (group_by_product productSales).

Definition getTopSellingProducts (productSales : list ProductSale) : TopProducts :=
  let result := take 10 (sort_desc pit_totalSales (product_items productSales)) in
  mkTopProducts result (length result)
    (reduce_count pit_totalQuantity result)
    (reduce_sum pit_totalSales result).

Record CustomerInfo := mkCustomerInfo {
  cinf_name : string;
  cinf_email : option string;
  cinf_phone : option string;
  cinf_loyaltyPoints : Z }.

Record CustomerPurchase := mkCustomerPurchase {
  cp_customerId : option string;
  cp_customer : option CustomerInfo;
  cp_totalAmount : Q }.

Record CustomerTotal := mkCustomerTotal {
  cut_info : CustomerInfo;
  cut_totalPurchases : Q;
  cut_invoiceCount : Z }.

Record CustomerItem := mkCustomerItem {
  cit_id : string;
  cit_info : CustomerInfo;
  cit_totalPurchases : Q;
  cit_invoiceCount : Z;
  cit_averagePurchase : Q }.

Record TopCustomers := mkTopCustomers {
  topc_data : list CustomerItem;
  topc_totalCustomers : nat;
  topc_totalRevenue : Q;
  topc_totalInvoices : Z }.

Definition group_by_customer (customerPurchases : list CustomerPurchase)
    : list (string * CustomerTotal) :=
  fold_left
    (λ customerMap invoice,
       match truthy (cp_customerId invoice), cp_customer invoice with
       | Some customerId, Some customer =>
           upsert customerId (mkCustomerTotal customer 0 0)
             (λ e, mkCustomerTotal (cut_info e)
                     (cut_totalPurchases e + cp_totalAmount invoice)
                     (cut_invoiceCount e + 1))
             customerMap
       | _, _ => customerMap
       end)
    customerPurchases
    [].

Definition customer_items (customerPurchases : list CustomerPurchase) : list CustomerItem :=
  map (λ '(id, data),
         mkCustomerItem id (cut_info data) (cut_totalPurchases data) (cut_invoiceCount data)
           (cut_totalPurchases data / inject_Z (cut_invoiceCount data)))
      (group_by_customer customerPurchases).

Definition getTopCustomers (customerPurchases : list CustomerPurchase) : TopCustomers :=
  let result := take 10 (sort_desc cit_totalPurchases (customer_items customerPurchases)) in
  mkTopCustomers result (length result)
    (reduce_sum cit_totalPurchases result)
    (reduce_count cit_invoiceCount result).

(** *** Grouping, declaratively

    Every report groups its rows the same way: a row finds the entry of its
    key, creating it when it is not there, and adds itself to it. *)
Definition group_rows {R V} (key : R → string) (init : R → V) (add : R → V → V)
    (rows : list R) (m : list (string * V)) : list (string * V) :=
  fold_left (λ m r, upsert (key r) (init r) (add r) m) rows m.

(** Customer rows that the top-customer grouping looks at. *)
Definition customer_of (invoice : CustomerPurchase) : option (string * CustomerInfo) :=
  match truthy (cp_customerId invoice), cp_customer invoice with
  | Some customerId, Some customer => Some (customerId, customer)
  | _, _ => None
  end.

(** The purchases the top-customer grouping counts: customer id, customer
    and amount of every row that has both a customer id and a customer. *)
Definition counted_purchases (customerPurchases : list CustomerPurchase)
    : list (string * CustomerInfo * Q) :=
  omap (λ invoice, (λ c, (c, cp_totalAmount invoice)) <$> customer_of invoice)
       customerPurchases.

(** ** The other handlers of the invoice, return, product and customer routes *)

(** A client call outside [prisma.$transaction] commits on its own: it is a
    transaction of one step. *)
Definition call {A} (op : Tx A) (s : Store) : (string + A) * Store := transaction op s.

(** *** PUT /invoices/{id} *)

(** The four fields the update passes on.  An absent field ([undefined])
    leaves the column as it is; for the two nullable columns a present field
    may be [null]. *)
Record InvoiceUpdate := mkInvoiceUpdate {
  up_status : option string;
  up_paymentMethod : option string;
  up_paymentReference : option (option string);
  up_note : option (option string) }.

(** [data: { status, paymentMethod, paymentReference, note }] on one row. *)
Definition with_update (data : InvoiceUpdate) (inv : Invoice) : Invoice :=
  mkInvoice (inv_id inv) (inv_invoiceNumber inv) (inv_customerId inv)
    (inv_userId inv) (inv_items inv) (inv_subtotal inv)
    (inv_taxAmount inv) (inv_discountAmount inv) (inv_totalAmount inv)
    (default (inv_status inv) (up_status data))
    (default (inv_paymentMethod inv) (up_paymentMethod data))
    (default (inv_paymentReference inv) (up_paymentReference data))
    (default (inv_note inv) (up_note data))
    (inv_createdAt inv).

(** [prisma.invoice.update({ where: { id }, data })] *)
Definition prisma_invoice_update (id : string) (data : InvoiceUpdate) : Tx Invoice :=
  λ s,
    match invoices s !! id with
    | Some inv => Ok (with_update data inv) (set_invoices <[id := with_update data inv]> s)
    | None => Throw "Record to update not found."
    end.

Definition PUT_invoice (env : Env) (invoiceId : string) (data : InvoiceUpdate) (s : Store)
    : Response * Store :=
  match authorized isAdmin (session env) with
  | None => (json (JsonError "Not authorized") 403, s)
  | Some user =>
      match invoices s !! invoiceId with
      | None => (json (JsonError "Invoice not found") 404, s)
      | Some existingInvoice =>
          match call (prisma_invoice_update invoiceId data) s with
          | (inl _, s1) => (json (JsonError "Internal Server Error") 500, s1)
          | (inr updatedInvoice, s1) =>
              match call (tx_activityLog_create
                            (mkActivityLog (user_id user) "UPDATE_INVOICE"
                               [Str ("Updated invoice #"
                                       +:+ inv_invoiceNumber existingInvoice)])) s1 with
              | (inl _, s2) => (json (JsonError "Internal Server Error") 500, s2)
              | (inr _, s2) => (json (JsonInvoice updatedInvoice) 200, s2)
              end
          end
      end
  end.

(** *** GET /invoices and GET /returns

    The answer is the list of rows; the relations a row is sent with
    ([include]) are not rendered.  Rows with equal sort keys come in the
    order the store lists them. *)

Record InvoiceQuery := mkInvoiceQuery {
  q_startDate : option Z;
  q_endDate : option Z;
  q_customerId : option string;
  q_status : option string;
  q_limit : option Z }.

(** [gte: startDate] and [lte: endDate], each when given. *)
Definition in_range (startDate endDate : option Z) (t : Z) : bool :=
  match startDate with Some a => bool_decide (a ≤ t) | None => true end
  && match endDate with Some b => bool_decide (t ≤ b) | None => true end.

(** [where.field = value], when the parameter is given and not empty. *)
Definition matches (param : option string) (value : option string) : bool :=
  match truthy param with
  | Some v => bool_decide (value = Some v)
  | None => true
  end.

Definition invoice_where (q : InvoiceQuery) (inv : Invoice) : bool :=
  in_range (q_startDate q) (q_endDate q) (inv_createdAt inv)
  && matches (q_customerId q) (inv_customerId inv)
  && matches (q_status q) (Some (inv_status inv)).

(** [take: n]: the first [n] rows, or the last [-n] for a negative [n]. *)
Definition take_rows {A} (n : Z) (rows : list A) : list A :=
  if bool_decide (0 ≤ n) then take (Z.to_nat n) rows
  else drop (length rows - Z.to_nat (- n)) rows.

(** [prisma.invoice.findMany({ where, orderBy: { createdAt: 'desc' }, take })] *)
Definition invoice_findMany (q : InvoiceQuery) (s : Store) : list Invoice :=
  take_rows (default 50 (q_limit q))
    (sort_desc (λ inv, inject_Z (inv_createdAt inv))
       (filter (λ inv, invoice_where q inv = true) (map_to_list (invoices s)).*2)).

Inductive ListBody : Type :=
  | ListError (msg : string)
  | ListInvoices (rows : list Invoice)
  | ListReturns (rows : list ReturnOrder).

Definition GET_invoices (env : Env) (q : InvoiceQuery) (s : Store) : ListBody * Z :=
  match authorized isCashier (session env) with
  | None => (ListError "Not authorized", 403)
  | Some _ => (ListInvoices (invoice_findMany q s), 200)
  end.

Record ReturnQuery := mkReturnQuery {
  rq_startDate : option Z;
  rq_endDate : option Z;
  rq_status : option string;
  rq_invoiceId : option string }.

Definition return_where (q : ReturnQuery) (r : ReturnOrder) : bool :=
  in_range (rq_startDate q) (rq_endDate q) (ro_returnDate r)
  && matches (rq_status q) (Some (ro_status r))
  && matches (rq_invoiceId q) (Some (ro_invoiceId r)).

(** [prisma.returnOrder.findMany({ where, orderBy: { createdAt: 'desc' } })];
    a return order is created at its return date. *)
Definition returnOrder_findMany (q : ReturnQuery) (s : Store) : list ReturnOrder :=
  sort_desc (λ r, inject_Z (ro_returnDate r))
    (filter (λ r, return_where q r = true) (returnOrders s)).

Definition GET_returns (env : Env) (q : ReturnQuery) (s : Store) : ListBody * Z :=
  match authorized isCashier (session env) with
  | None => (ListError "Not authorized", 403)
  | Some _ => (ListReturns (returnOrder_findMany q s), 200)
  end.

(** *** DELETE /products/{id} and DELETE /customers/{id} *)

Inductive DeleteBody : Type :=
  | Deleted (message : string)
  | Refused (error : string) (suggestion : option string).

(** [prisma.invoiceItem.findFirst({ where: { productId } })] finds a row. *)
Definition product_invoiced (productId : string) (s : Store) : bool :=
  bool_decide (map_Exists (λ _ inv, productId ∈ map ii_productId (inv_items inv))
                 (invoices s)).

(** [prisma.product.delete({ where: { id } })]: invoice lines restrict the
    delete, stock history rows go with the product. *)
Definition prisma_product_delete (id : string) : Tx unit :=
  λ s,
    match products s !! id with
    | None => Throw "Record to delete does not exist."
    | Some _ =>
        if product_invoiced id s then Throw "Foreign key constraint failed"
        else Ok tt (set_stockHistory
                      (filter (λ e, sh_productId e ≠ id))
                      (set_products (delete id) s))
    end.

Definition DELETE_product (env : Env) (productId : string) (s : Store)
    : (DeleteBody * Z) * Store :=
  match authorized isAdmin (session env) with
  | None => ((Refused "Not authorized" None, 403), s)
  | Some user =>
      match products s !! productId with
      | None => ((Refused "Product not found" None, 404), s)
      | Some existingProduct =>
          if product_invoiced productId s then
            ((Refused "Cannot delete product that has been used in invoices"
                (Some "Consider setting stock to 0 instead"), 400), s)
          else
            match call (prisma_product_delete productId) s with
            | (inl _, s1) => ((Refused "Internal Server Error" None, 500), s1)
            | (inr _, s1) =>
                match call (tx_activityLog_create
                              (mkActivityLog (user_id user) "DELETE_PRODUCT"
                                 [Str ("Deleted product: " +:+ p_name existingProduct)]))
                           s1 with
                | (inl _, s2) => ((Refused "Internal Server Error" None, 500), s2)
                | (inr _, s2) => ((Deleted "Product deleted successfully", 200), s2)
                end
            end
      end
  end.

(** [prisma.invoice.findFirst({ where: { customerId } })] finds a row. *)
Definition customer_invoiced (customerId : string) (s : Store) : bool :=
  bool_decide (map_Exists (λ _ inv, inv_customerId inv = Some customerId) (invoices s)).

(** [prisma.customer.delete({ where: { id } })]: invoices restrict the
    delete, loyalty history rows go with the customer. *)
Definition prisma_customer_delete (id : string) : Tx unit :=
  λ s,
    match customers s !! id with
    | None => Throw "Record to delete does not exist."
    | Some _ =>
        if customer_invoiced id s then Throw "Foreign key constraint failed"
        else Ok tt (set_loyaltyHistory
                      (filter (λ e, lh_customerId e ≠ id))
                      (set_customers (delete id) s))
    end.

Definition DELETE_customer (env : Env) (customerId : string) (s : Store)
    : (DeleteBody * Z) * Store :=
  match authorized isAdmin (session env) with
  | None => ((Refused "Not authorized" None, 403), s)
  | Some user =>
      match customers s !! customerId with
      | None => ((Refused "Customer not found" None, 404), s)
      | Some existingCustomer =>
          if customer_invoiced customerId s then
            ((Refused "Cannot delete customer with purchase history"
                (Some "Consider anonymizing their personal data instead"), 400), s)
          else
            match call (prisma_customer_delete customerId) s with
            | (inl _, s1) => ((Refused "Internal Server Error" None, 500), s1)
            | (inr _, s1) =>
                match call (tx_activityLog_create
                              (mkActivityLog (user_id user) "DELETE_CUSTOMER"
                                 [Str ("Deleted customer: " +:+ c_name existingCustomer)]))
                           s1 with
                | (inl _, s2) => ((Refused "Internal Server Error" None, 500), s2)
                | (inr _, s2) => ((Deleted "Customer deleted successfully", 200), s2)
                end
            end
      end
  end.

(** *** Stores the handlers reach *)

(** One request to one of the handlers that write. *)
Inductive step : Store → Store → Prop :=
  | step_POST_invoices env data s : step s (POST_invoices env data s).2
  | step_DELETE_invoice env invoiceId s : step s (DELETE_invoice env invoiceId s).2
  | step_POST_returns env data s : step s (POST_returns env data s).2
  | step_PUT_invoice env invoiceId data s : step s (PUT_invoice env invoiceId data s).2
  | step_DELETE_product env productId s : step s (DELETE_product env productId s).2
  | step_DELETE_customer env customerId s : step s (DELETE_customer env customerId s).2.

(** The references of the schema: rows are stored under their id, invoice
    numbers are unique, and every reference points at a row. *)
Record consistent (s : Store) : Prop := mkConsistent {
  invoice_keyed :
    ∀ i inv, invoices s !! i = Some inv → inv_id inv = i;
  invoice_numbers :
    ∀ i j inv inv', invoices s !! i = Some inv → invoices s !! j = Some inv' →
                    inv_invoiceNumber inv = inv_invoiceNumber inv' → i = j;
  invoice_products :
    ∀ i inv, invoices s !! i = Some inv → product_refs_ok (inv_items inv) s = true;
  invoice_customer :
    ∀ i inv, invoices s !! i = Some inv → customer_ref_ok (inv_customerId inv) s = true;
  return_invoice :
    ∀ r, r ∈ returnOrders s → is_Some (invoices s !! ro_invoiceId r);
  stock_entry_product :
    ∀ e, e ∈ stockHistory s → is_Some (products s !! sh_productId e);
  loyalty_entry_customer :
    ∀ e, e ∈ loyaltyHistory s → is_Some (customers s !! lh_customerId e) }.

(** The stock a ledger accounts for: sales take stock out, every other
    entry the three workflows write puts stock in. *)
Definition ledger_delta (e : StockHistory) : Z :=
  if decide (sh_type e = "sale") then - sh_quantity e else sh_quantity e.

Definition ledger_stock (productId : string) (entries : list StockHistory) : Z :=
  foldr (λ e acc, if decide (sh_productId e = productId) then ledger_delta e + acc else acc)
        0 entries.

(** The points a loyalty ledger accounts for. *)
Definition ledger_points (customerId : string) (entries : list LoyaltyHistory) : Z :=
  foldr (λ e acc, if decide (lh_customerId e = customerId) then lh_points e + acc else acc)
        0 entries.

(** Two invoices that differ in status at most. *)
Definition same_but_status (inv inv' : Invoice) : Prop :=
  inv' = with_status (inv_status inv') inv.

(** A store with no invoice yet. *)
Definition opening (s : Store) : Prop :=
  invoices s = ∅ ∧ returnOrders s = [] ∧ stockHistory s = [] ∧ loyaltyHistory s = [].

(** The stores a number of requests lead to. *)
Definition reaches : Store → Store → Prop := rtc step.

(** The points of a customer that the loyalty ledger does not account for. *)
Definition unledgered_points (s : Store) (customerId : string) : option Z :=
  (λ c, c_loyaltyPoints c - ledger_points customerId (loyaltyHistory s))
    <$> customers s !! customerId.

(** One pen for customer Ann, submitted with a total of -25. *)
Definition negative_sale : InvoiceData :=
  mkInvoiceData (Some "c1") [mkItemData "p1" 1 2 None None None 2]
    2 0 None (-25) None "CASH" None None.

(** What an invoice records of the sale: every column but the status and the
    payment details. *)
Definition sale_of (inv : Invoice) :=
  (inv_id inv, inv_invoiceNumber inv, inv_customerId inv, inv_userId inv,
   inv_items inv, inv_subtotal inv, inv_taxAmount inv, inv_discountAmount inv,
   inv_totalAmount inv, inv_createdAt inv).

(** An update that sets the status only. *)
Definition status_only (status : string) : InvoiceUpdate :=
  mkInvoiceUpdate (Some status) None None None.

(** A session whose user is not in the user table any more. *)
Definition stale_session : Env :=
  mkEnv (Some (mkSession "u7" "ADMIN")) 3 "20240104" "0000" "x1".

(** ** Overview (reports)

    The aggregates are taken over the invoices and the return orders of the
    store.  The number of new customers, the number of low-stock products
    and the rows of the top-sellers query are given: they read columns the
    store does not carry here.  Dates are instants. *)

Record SalesStats := mkSalesStats {
  ss_totalSales : Q;
  ss_invoiceCount : Z;
  ss_averageSale : Q;
  ss_totalTax : Q;
  ss_totalDiscounts : Q;
  ss_salesGrowth : Q }.

Record Overview := mkOverview {
  ov_start : Z;
  ov_end : Z;
  ov_salesStats : SalesStats;
  ov_newCustomers : Z;
  ov_returnCount : Z;
  ov_totalReturned : Q;
  ov_lowStockItems : Z;
  ov_topProducts : list ProductItem }.

(** [where: { createdAt: { gte, lte }, status: { not: 'VOIDED' } }] *)
Definition counted_sale (startDate endDate : Z) (inv : Invoice) : bool :=
  in_range (Some startDate) (Some endDate) (inv_createdAt inv)
  && negb (bool_decide (inv_status inv = "VOIDED")).

(** The rows [prisma.invoice.aggregate] sums and counts. *)
Definition sales_in (startDate endDate : Z) (s : Store) : list Invoice :=
  filter (λ inv, counted_sale startDate endDate inv = true) (map_to_list (invoices s)).*2.

(** The rows [prisma.returnOrder.aggregate] sums and counts. *)
Definition returns_in (startDate endDate : Z) (s : Store) : list ReturnOrder :=
  filter (λ r, in_range (Some startDate) (Some endDate) (ro_returnDate r) = true)
    (returnOrders s).

Definition getOverview (startDate endDate : Z) (newCustomers lowStockItems : Z)
    (productSales : list ProductSale) (s : Store) : Overview :=
  let salesStats := sales_in startDate endDate s in
  let dateRange := endDate - startDate in
  let previousEndDate := startDate in
  let previousStartDate := previousEndDate - dateRange in
  let previousSalesStats := sales_in previousStartDate previousEndDate s in
  let returnStats := returns_in startDate endDate s in
  let topProducts := getTopSellingProducts productSales in
  let previousTotal := reduce_sum inv_totalAmount previousSalesStats in
  let currentTotal := reduce_sum inv_totalAmount salesStats in
  let salesGrowth :=
    if Qltb 0 previousTotal
    then ((currentTotal - previousTotal) / previousTotal * 100)%Q else 0%Q in
  let count := Z.of_nat (length salesStats) in
  mkOverview startDate endDate
    (mkSalesStats currentTotal count
       (if bool_decide (0 < count) then (currentTotal / inject_Z count)%Q else 0%Q)
       (reduce_sum inv_taxAmount salesStats)
       (reduce_sum inv_discountAmount salesStats)
       salesGrowth)
    newCustomers
    (Z.of_nat (length returnStats))
    (reduce_sum ro_totalAmount returnStats)
    lowStockItems
    (take 5 (top_data topProducts)).

(** A day's lines by product. *)
Definition day_by_product : list ProductSale :=
  [mkProductSale "p1" "Pen" None 3 6; mkProductSale "p2" "Ink" (Some "Stationery") 1 9;
   mkProductSale "p1" "Pen" None 2 4].

(** The ranges the calendar fields of a [Date] lie in. *)
Definition calendar (d : JsDate) : Prop :=
  0 ≤ getMonth d ≤ 11 ∧ 1 ≤ getDate d ≤ 31.

(** The number a string of two digits stands for. *)
Definition two_digits (s : string) : option Z :=
  match s with
  | String a (String b EmptyString) =>
      Some (10 * (Z.of_nat (Ascii.nat_of_ascii a) - 48) + (Z.of_nat (Ascii.nat_of_ascii b) - 48))
  | _ => None
  end.

(** A [Date] whose day of the month is set, the other fields as they are. *)
Definition same_month (d : JsDate) (n : Z) : JsDate :=
  mkJsDate (getFullYear d) (getMonth d) n (getDay d).

(** A day's invoices by customer. *)
Definition day_by_customer : list CustomerPurchase :=
  [mkCustomerPurchase (Some "c1") (Some (mkCustomerInfo "Ann" None None 0)) 30;
   mkCustomerPurchase None None 50;
   mkCustomerPurchase (Some "c1") (Some (mkCustomerInfo "Ann" None None 0)) 20].

(** *** GET /invoices/{id}

    The answer is the invoice row with its lines; the other relations it is
    sent with ([include]) are not rendered. *)
Definition GET_invoice (env : Env) (invoiceId : string) (s : Store) : Response :=
  match authorized isCashier (session env) with
  | None => json (JsonError "Not authorized") 403
  | Some _ =>
      match invoices s !! invoiceId with
      | None => json (JsonError "Invoice not found") 404
      | Some invoice => json (JsonInvoice invoice) 200
      end
  end.

(** ** Categories

    The category table sits beside the store; a product refers to its
    category by [categoryId]. *)

Record Category := mkCategory {
  cg_id : string;
  cg_name : string;
  cg_description : option string }.

Record Catalog := mkCatalog {
  base : Store;
  categories : gmap string Category }.

Record CategoryData := mkCategoryData {
  cd_name : option string;
  cd_description : option string }.

Inductive CategoryBody : Type :=
  | CategoryError (error : string)
  | CategoryInUse (error : string) (productCount : nat) (message : string)
  | CategoryCreated (category : Category)
  | CategoryMessage (message : string).

(** [prisma.category.findFirst({ where: { name } })] finds a row. *)
Definition category_named (name : string) (c : Catalog) : bool :=
  bool_decide (map_Exists (λ _ cat, cg_name cat = name) (categories c)).

(** [prisma.category.create]: [None] when the client throws, on an id or a
    name that is taken. *)
Definition prisma_category_create (cat : Category) (c : Catalog) : option Catalog :=
  if bool_decide (is_Some (categories c !! cg_id cat)) then None
  else if category_named (cg_name cat) c then None
  else Some (mkCatalog (base c) (<[cg_id cat := cat]> (categories c))).

(** [_count: { products: true }] of a category. *)
Definition product_count (id : string) (c : Catalog) : nat :=
  size (filter (λ kp, p_categoryId kp.2 = Some id) (products (base c))).

(** [categoryId: null] on a product of the category. *)
Definition uncategorized (id : string) (p : Product) : Product :=
  if decide (p_categoryId p = Some id)
  then mkProduct (p_name p) (p_price p) (p_stock p) None else p.

(** [prisma.product.updateMany({ where: { categoryId: id }, data: { categoryId: null } })] *)
Definition prisma_product_uncategorize (id : string) (c : Catalog) : Catalog :=
  mkCatalog (set_products (fmap (uncategorized id)) (base c)) (categories c).

(** [prisma.category.delete({ where: { id } })]; the optional relation of a
    product to its category sets [categoryId] to null when the category
    goes. *)
Definition prisma_category_delete (id : string) (c : Catalog) : option Catalog :=
  match categories c !! id with
  | None => None
  | Some _ =>
      Some (mkCatalog (set_products (fmap (uncategorized id)) (base c))
              (delete id (categories c)))
  end.

(** [prisma.activityLog.create] outside a transaction. *)
Definition log_activity (e : ActivityLog) (c : Catalog) : option Catalog :=
  match call (tx_activityLog_create e) (base c) with
  | (inr _, s') => Some (mkCatalog s' (categories c))
  | (inl _, _) => None
  end.

(** *** POST /categories *)
Definition POST_categories (env : Env) (data : CategoryData) (c : Catalog)
    : (CategoryBody * Z) * Catalog :=
  match authorized isManager (session env) with
  | None => ((CategoryError "Not authorized", 403), c)
  | Some user =>
      match truthy (cd_name data) with
      | None => ((CategoryError "Category name is required", 400), c)
      | Some name =>
          if category_named name c then
            ((CategoryError "Category with this name already exists", 409), c)
          else
            match prisma_category_create
                    (mkCategory (uuid env) name (cd_description data)) c with
            | None => ((CategoryError "Internal Server Error", 500), c)
            | Some c1 =>
                match log_activity
                        (mkActivityLog (user_id user) "CREATE_CATEGORY"
                           [Str ("Created category: " +:+ name)]) c1 with
                | None => ((CategoryError "Internal Server Error", 500), c1)
                | Some c2 =>
                    ((CategoryCreated (mkCategory (uuid env) name (cd_description data)),
                      201), c2)
                end
            end
      end
  end.

(** *** DELETE /categories?id=...&force=... *)
Definition DELETE_categories (env : Env) (id force : option string) (c : Catalog)
    : (CategoryBody * Z) * Catalog :=
  match authorized isAdmin (session env) with
  | None => ((CategoryError "Not authorized", 403), c)
  | Some user =>
      let force := bool_decide (force = Some "true") in
      match truthy id with
      | None => ((CategoryError "Category ID is required", 400), c)
      | Some id =>
          match categories c !! id with
          | None => ((CategoryError "Category not found", 404), c)
          | Some category =>
              let count := product_count id c in
              if bool_decide (0 < count)%nat && negb force then
                ((CategoryInUse "Category has products associated with it" count
                    "Set force=true to remove anyway - products will be uncategorized",
                  400), c)
              else
                let c1 :=
                  if bool_decide (0 < count)%nat && force
                  then prisma_product_uncategorize id c else c in
                match prisma_category_delete id c1 with
                | None => ((CategoryError "Internal Server Error", 500), c1)
                | Some c2 =>
                    match log_activity
                            (mkActivityLog (user_id user) "DELETE_CATEGORY"
                               [Str ("Deleted category: " +:+ cg_name category
                                       +:+ (if force then " (forced)" else EmptyString))])
                            c2 with
                    | None => ((CategoryError "Internal Server Error", 500), c2)
                    | Some c3 => ((CategoryMessage "Category deleted successfully", 200), c3)
                    end
                end
          end
      end
  end.

(** The references of the schema on the category table: rows are stored
    under their id, names are unique, and the category of a product is a
    row of the table. *)
Record catalog_ok (c : Catalog) : Prop := mkCatalogOk {
  category_keyed :
    ∀ i cat, categories c !! i = Some cat → cg_id cat = i;
  category_names :
    ∀ i j a b, categories c !! i = Some a → categories c !! j = Some b →
               cg_name a = cg_name b → i = j;
  product_category :
    ∀ k p cid, products (base c) !! k = Some p → p_categoryId p = Some cid →
               is_Some (categories c !! cid) }.

(** A stationery shop: the pen is in category "g1". *)
Definition stationer : Catalog :=
  mkCatalog
    (mkStore {["u1"; "u2"]}
       {["p1" := mkProduct "Pen" 2 1 (Some "g1"); "p2" := mkProduct "Ink" 9 4 None]}
       ∅ ∅ [] [] [] [])
    {["g1" := mkCategory "g1" "Stationery" None]}.

(** ** Export: CSV *)

(** The double quote, the comma and the line feed. *)
Definition dquote : Ascii.ascii := Ascii.Ascii false true false false false true false false.
Definition comma : Ascii.ascii := Ascii.Ascii false false true true false true false false.
Definition linefeed : Ascii.ascii := Ascii.Ascii false true false true false false false false.

(** The values of a report row, by the case [convertToCSV] makes of them. *)
Inductive CsvValue : Type :=
  | Absent                    (* null or undefined *)
  | Text (value : string)     (* a string *)
  | Instant (iso : string)    (* a Date, as [toISOString()] gives it *)
  | Json (text : string)      (* another object, as [JSON.stringify] gives it *)
  | Plain (text : string).    (* a number or a boolean, as [String] gives it *)

(** [value.replace] of every quote by two quotes. *)
Fixpoint double_quotes (s : string) : string :=
  match s with
  | EmptyString => EmptyString
  | String c s' =>
      if decide (c = dquote) then String dquote (String dquote (double_quotes s'))
      else String c (double_quotes s')
  end.

(** The test for a quote, a comma or a line feed in [value]. *)
Fixpoint needs_quotes (s : string) : bool :=
  match s with
  | EmptyString => false
  | String c s' =>
      bool_decide (c = dquote) || bool_decide (c = comma) || bool_decide (c = linefeed)
      || needs_quotes s'
  end.

(** The template that wraps [s] in quotes. *)
Definition quoted (s : string) : string :=
  String dquote (s +:+ String dquote EmptyString).

(** One cell of a data row; [None] is a row without the header's key. *)
Definition csv_field (value : option CsvValue) : string :=
  match value with
  | None | Some Absent => EmptyString
  | Some (Text value) =>
      let escapedValue := double_quotes value in
      if needs_quotes value then quoted escapedValue else escapedValue
  | Some (Instant iso) => iso
  | Some (Json text) => quoted (double_quotes text)
  | Some (Plain text) => text
  end.

(** [xs.join(sep)] *)
Fixpoint join (sep : string) (xs : list string) : string :=
  match xs with
  | [] => EmptyString
  | [x] => x
  | x :: xs' => x +:+ sep +:+ join sep xs'
  end.

(** [row[header]] of an object given by its entries. *)
Definition row_get (row : list (string * CsvValue)) (header : string) : option CsvValue :=
  snd <$> find (λ entry, bool_decide (entry.1 = header)) row.

(** One data row under the headers. *)
Definition csv_line (headers : list string) (row : list (string * CsvValue)) : string :=
  join (String comma EmptyString) (map (λ header, csv_field (row_get row header)) headers).

Definition convertToCSV (data : list (list (string * CsvValue))) : string :=
  match data with
  | [] => EmptyString
  | first :: _ =>
      let headers := map fst first in
      let headerRow := join (String comma EmptyString) headers in
      let dataRows := map (csv_line headers) data in
      join (String linefeed EmptyString) (headerRow :: dataRows)
  end.

(** *** Reading a record back

    A reader of comma-separated records: fields are separated by commas, a
    field that starts with a quote runs to its closing quote, and a doubled
    quote inside it stands for one quote. *)

Inductive Reading : Type := FieldStart | Unquoted | Quoted | Closing.

(** A character in front of the field being read. *)
Definition push (c : Ascii.ascii) (fields : list string) : list string :=
  match fields with
  | field :: rest => String c field :: rest
  | [] => []
  end.

Fixpoint read_record (state : Reading) (s : string) : option (list string) :=
  match s with
  | EmptyString =>
      match state with
      | Quoted => None
      | _ => Some [EmptyString]
      end
  | String c s' =>
      match state with
      | FieldStart =>
          if decide (c = dquote) then read_record Quoted s'
          else if decide (c = comma) then cons EmptyString <$> read_record FieldStart s'
          else push c <$> read_record Unquoted s'
      | Unquoted =>
          if decide (c = comma) then cons EmptyString <$> read_record FieldStart s'
          else if decide (c = dquote) then None
          else push c <$> read_record Unquoted s'
      | Quoted =>
          if decide (c = dquote) then read_record Closing s'
          else push c <$> read_record Quoted s'
      | Closing =>
          if decide (c = dquote) then push dquote <$> read_record Quoted s'
          else if decide (c = comma) then cons EmptyString <$> read_record FieldStart s'
          else None
      end
  end.

(** A string in front of the field being read. *)
Definition prepend (v : string) (fields : list string) : list string :=
  match fields with
  | field :: rest => (v +:+ field) :: rest
  | [] => []
  end.

(** What follows a field: the end of the record, or a comma. *)
Definition field_end (rest : string) : Prop :=
  rest = EmptyString ∨ ∃ more, rest = String comma more.

(** What a cell says. *)
Definition cell_text (value : option CsvValue) : string :=
  match value with
  | None | Some Absent => EmptyString
  | Some (Text value) => value
  | Some (Instant iso) => iso
  | Some (Json text) => text
  | Some (Plain text) => text
  end.

(** Dates and numbers are written as they are: their text has no quote, comma
    or line feed. *)
Definition plain_cell (value : option CsvValue) : Prop :=
  match value with
  | Some (Instant text) | Some (Plain text) => needs_quotes text = false
  | _ => True
  end.

(** A row of an export of sales. *)
Definition sales_row : list (string * CsvValue) :=
  [("invoiceNumber", Text "INV-20240101-1234");
   ("customerName", Text "Ann, Lee");
   ("total", Plain "5");
   ("status", Text "PAID")].

(** ** Export: products report

    The function takes the rows of its two queries: the products with the
    name of their category, and the invoice lines of the period. *)

Record ReportProduct := mkReportProduct {
  rp_id : string;
  rp_sku : option string;
  rp_barcode : option string;
  rp_name : string;
  rp_categoryName : option string;
  rp_price : Q;
  rp_cost : Q;
  rp_stock : Z }.

Record SoldItem := mkSoldItem {
  si_productId : string;
  si_quantity : Z;
  si_total : Q }.

Record ProductSales := mkProductSales {
  sl_quantity : Z;
  sl_revenue : Q;
  sl_averagePrice : Q }.

Record ProductReportRow := mkProductReportRow {
  prr_sku : string;
  prr_barcode : string;
  prr_name : string;
  prr_category : string;
  prr_currentPrice : Q;
  prr_currentCost : Q;
  prr_currentStock : Z;
  prr_quantitySold : Z;
  prr_revenue : Q;
  prr_costOfSold : Q;
  prr_profit : Q;
  prr_profitMargin : Q;
  prr_averageSellPrice : Q }.

(** [m[k]] of an object given by its entries. *)
Definition entry_get {V} (m : list (string * V)) (k : string) : option V :=
  snd <$> find (λ entry, bool_decide (entry.1 = k)) m.

(** The first loop: quantities and revenue by product. *)
Definition sold_by_product (invoiceItems : list SoldItem) : list (string * ProductSales) :=
  fold_left
    (λ salesByProduct item,
       upsert (si_productId item) (mkProductSales 0 0 0)
         (λ e, mkProductSales (sl_quantity e + si_quantity item)
                 (sl_revenue e + si_total item) (sl_averagePrice e))
         salesByProduct)
    invoiceItems [].

(** The second loop: the average price of each entry. *)
Definition with_average (salesByProduct : list (string * ProductSales))
    : list (string * ProductSales) :=
  map (λ '(productId, sales),
         (productId,
          mkProductSales (sl_quantity sales) (sl_revenue sales)
            (if bool_decide (0 < sl_quantity sales)
             then (sl_revenue sales / inject_Z (sl_quantity sales))%Q else 0%Q)))
      salesByProduct.

Definition getProductsReportData (products : list ReportProduct)
    (invoiceItems : list SoldItem) : list ProductReportRow :=
  let salesByProduct := with_average (sold_by_product invoiceItems) in
  map (λ product,
         let sales :=
           default (mkProductSales 0 0 0) (entry_get salesByProduct (rp_id product)) in
         let costOfSold := (rp_cost product * inject_Z (sl_quantity sales))%Q in
         let profit := (sl_revenue sales - costOfSold)%Q in
         let profitMargin :=
           if Qltb 0 (sl_revenue sales) then (profit / sl_revenue sales * 100)%Q else 0%Q in
         mkProductReportRow
           (or_str (rp_sku product) EmptyString)
           (or_str (rp_barcode product) EmptyString)
           (rp_name product)
           (or_str (rp_categoryName product) "Uncategorized")
           (rp_price product) (rp_cost product) (rp_stock product)
           (sl_quantity sales) (sl_revenue sales)
           costOfSold profit profitMargin (sl_averagePrice sales))
      products.

(** The lines of one product. *)
Definition lines_of (productId : string) (invoiceItems : list SoldItem) : list SoldItem :=
  filter (λ item, si_productId item = productId) invoiceItems.

(** Two products and the lines of a period. *)
Definition stock_list : list ReportProduct :=
  [mkReportProduct "p1" None None "Pen" None 2 1 7;
   mkReportProduct "p2" (Some "INK-1") None "Ink" (Some "Stationery") 9 4 3].

Definition period_lines : list SoldItem :=
  [mkSoldItem "p1" 3 6; mkSoldItem "p1" 2 4].

(** ** The in-memory item list (demo endpoint)

    The module keeps its items in a variable; a request is given the list and
    leaves the new one.  A body is taken to have the fields of an item, its
    id a number when it has one. *)

Record DemoItem := mkDemoItem {
  dm_id : Z;
  dm_name : string;
  dm_price : Q;
  dm_quantity : Z }.

Record NewItem := mkNewItem {
  ni_id : option Z;
  ni_name : string;
  ni_price : Q;
  ni_quantity : Z }.

(** [if (!newItem.id) { newItem.id = Date.now() }]: a missing id and the id
    0 give the time of the request. *)
Definition item_of_body (now : Z) (newItem : NewItem) : DemoItem :=
  mkDemoItem
    (match ni_id newItem with
     | Some n => if decide (n = 0) then now else n
     | None => now
     end)
    (ni_name newItem) (ni_price newItem) (ni_quantity newItem).

(** POST /items: the new list is the answer, with status 201. *)
Definition items_POST (now : Z) (newItem : NewItem) (items : list DemoItem)
    : (list DemoItem * Z) * list DemoItem :=
  let items' := items ++ [item_of_body now newItem] in
  ((items', 201), items').

(** DELETE /items?id=...: [parseInt] is the runtime's, [None] its NaN, which
    no id is equal to.  Without an id the answer is an error, [None] here. *)
Definition items_DELETE (parseInt : string → option Z) (id : option string)
    (items : list DemoItem) : (option (list DemoItem) * Z) * list DemoItem :=
  match truthy id with
  | None => ((None, 400), items)
  | Some id =>
      let items' := filter (λ item, Some (dm_id item) ≠ parseInt id) items in
      ((Some items', 200), items')
  end.

(** The two items the module starts with. *)
Definition first_items : list DemoItem :=
  [mkDemoItem 1 "Item 1" 100 10; mkDemoItem 2 "Item 2" 200 5].

(** A [parseInt] that knows the text of 7. *)
Definition parse_seven (s : string) : option Z :=
  if decide (s = "7") then Some 7 else None.

(** * Properties *)

Ltac store_simpl :=
  unfold set_products, set_customers, set_invoices, set_returnOrders,
    set_stockHistory, set_loyaltyHistory, set_activityLog in *;
  simpl in *.

(** ** The transaction monad *)

Lemma bind_ok {A B} (m : Tx A) (k : A → Tx B) s a s' :
  m s = Ok a s' → (m ≫= k) s = k a s'.
Proof. intros H. unfold mbind, tx_bind. by rewrite H. Qed.

Lemma bind_throw {A B} (m : Tx A) (k : A → Tx B) s msg :
  m s = Throw msg → (m ≫= k) s = Throw msg.
Proof. intros H. unfold mbind, tx_bind. by rewrite H. Qed.

Lemma transaction_ok {A} (body : Tx A) s a s' :
  body s = Ok a s' → transaction body s = (inr a, s').
Proof. intros H. unfold transaction. by rewrite H. Qed.

Lemma transaction_throw {A} (body : Tx A) s msg :
  body s = Throw msg → transaction body s = (inl msg, s).
Proof. intros H. unfold transaction. by rewrite H. Qed.

(** A transaction that does not commit leaves the store as it found it. *)
Lemma transaction_rollback {A} (body : Tx A) s msg s' :
  transaction body s = (inl msg, s') → s' = s.
Proof. unfold transaction. destruct (body s); congruence. Qed.

(** ** Stock arithmetic on the product table *)

Lemma add_stock_add a b p : add_stock a (add_stock b p) = add_stock (b + a) p.
Proof. unfold add_stock; simpl. f_equal. lia. Qed.

Lemma add_stock_0 p : add_stock 0 p = p.
Proof. destruct p; unfold add_stock; simpl. f_equal. lia. Qed.

Lemma apply_lines_lookup lines (m : gmap string Product) k :
  apply_lines lines m !! k = add_stock (moved k lines) <$> m !! k.
Proof.
  revert m. induction lines as [|[k' n] lines IH]; intros m; simpl.
  - destruct (m !! k) as [p|]; simpl; [by rewrite add_stock_0 | done].
  - unfold apply_lines in *. simpl. rewrite IH.
    destruct (decide (k' = k)) as [->|Hne].
    + rewrite lookup_alter_eq. destruct (m !! k) as [p|]; simpl; [|done].
      by rewrite add_stock_add.
    + by rewrite lookup_alter_ne.
Qed.

Lemma apply_lines_is_Some lines (m : gmap string Product) k :
  is_Some (apply_lines lines m !! k) ↔ is_Some (m !! k).
Proof. rewrite apply_lines_lookup. by rewrite fmap_is_Some. Qed.

Lemma moved_app k l1 l2 : moved k (l1 ++ l2) = moved k l1 + moved k l2.
Proof.
  induction l1 as [|[k' n] l1 IH]; simpl; [lia|].
  destruct (decide (k' = k)); lia.
Qed.

Lemma insert_as_alter {V} (f : V → V) (m : gmap string V) k v :
  m !! k = Some v → <[k := f v]> m = alter f k m.
Proof.
  intros H. apply map_eq. intros j. destruct (decide (k = j)) as [->|Hne].
  - by rewrite lookup_insert_eq, lookup_alter_eq, H.
  - by rewrite lookup_insert_ne, lookup_alter_ne.
Qed.

Lemma lines_exist_products lines s s' :
  (∀ k, is_Some (products s' !! k) ↔ is_Some (products s !! k)) →
  lines_exist lines s' = lines_exist lines s.
Proof.
  intros H. unfold lines_exist. induction lines as [|[k n] lines IH]; simpl; [done|].
  rewrite IH. f_equal. apply bool_decide_ext, H.
Qed.

Lemma lines_exist_Forall lines s :
  lines_exist lines s = true ↔ Forall (λ l, is_Some (products s !! l.1)) lines.
Proof.
  unfold lines_exist. induction lines as [|[k n] lines IH]; simpl.
  - split; [constructor | done].
  - rewrite andb_true_iff, bool_decide_eq_true, IH, Forall_cons. done.
Qed.

Lemma lines_exist_false lines s :
  lines_exist lines s = false ↔ Exists (λ l, products s !! l.1 = None) lines.
Proof.
  unfold lines_exist. induction lines as [|[k n] lines IH]; simpl.
  - rewrite Exists_nil. done.
  - rewrite andb_false_iff, bool_decide_eq_false, IH, Exists_cons.
    rewrite <- eq_None_not_Some. done.
Qed.

Lemma update_stock_ok k n s :
  is_Some (products s !! k) →
  tx_product_update_stock k n s = Ok tt (set_products (alter (add_stock n) k) s).
Proof.
  intros [p Hp]. unfold tx_product_update_stock. rewrite Hp.
  unfold set_products. by rewrite (insert_as_alter _ _ _ _ Hp).
Qed.

Lemma update_stock_throw k n s :
  products s !! k = None →
  tx_product_update_stock k n s = Throw "Record to update not found.".
Proof. intros H. unfold tx_product_update_stock. by rewrite H. Qed.

(** One pass of a loop whose body moves one line's stock and appends one
    ledger entry: it goes through exactly when every line's product exists. *)
Section stock_loop.
Context {A : Type} (line : A → string * Z) (entry : A → StockHistory).
Context (body : A → Tx unit).
Hypothesis body_ok : ∀ x s,
  is_Some (products s !! (line x).1) →
  body x s = Ok tt (set_stockHistory (λ l, l ++ [entry x])
                      (set_products (alter (add_stock (line x).2) (line x).1) s)).
Hypothesis body_throw : ∀ x s,
  products s !! (line x).1 = None → ∃ msg, body x s = Throw msg.

Lemma stock_loop_ok xs s :
  lines_exist (map line xs) s = true →
  for_of xs body s
  = Ok tt (set_stockHistory (λ l, l ++ map entry xs)
             (set_products (apply_lines (map line xs)) s)).
Proof.
  revert s. induction xs as [|x xs IH]; intros s Hall.
  - simpl. destruct s; unfold set_stockHistory, set_products, apply_lines; simpl.
    by rewrite app_nil_r.
  - simpl in Hall. destruct (line x) as [k n] eqn:Hl. simpl in Hall.
    apply andb_true_iff in Hall as [Hk Hrest]. apply bool_decide_eq_true in Hk.
    simpl. erewrite bind_ok; [|apply body_ok; by rewrite Hl].
    rewrite IH.
    + rewrite Hl. destruct s; unfold set_stockHistory, set_products, apply_lines; simpl.
      by rewrite <- app_assoc.
    + rewrite <- Hrest. apply lines_exist_products. intros j; simpl.
      rewrite Hl; simpl. destruct (decide (k = j)) as [->|Hne].
      * rewrite lookup_alter_eq. by rewrite fmap_is_Some.
      * by rewrite lookup_alter_ne.
Qed.

Lemma stock_loop_throw xs s :
  lines_exist (map line xs) s = false → ∃ msg, for_of xs body s = Throw msg.
Proof.
  revert s. induction xs as [|x xs IH]; intros s Hall; [done|].
  simpl in Hall. destruct (line x) as [k n] eqn:Hl. simpl in Hall.
  destruct (products s !! k) as [p|] eqn:Hp.
  - rewrite bool_decide_eq_true_2 in Hall by eauto. simpl in Hall.
    simpl. erewrite bind_ok; [|apply body_ok; rewrite Hl; simpl; eauto].
    apply IH. rewrite <- Hall. apply lines_exist_products. intros j; simpl.
    rewrite Hl; simpl. destruct (decide (k = j)) as [->|Hne].
    + rewrite lookup_alter_eq. by rewrite fmap_is_Some.
    + by rewrite lookup_alter_ne.
  - destruct (body_throw x s) as [msg Hmsg]; [by rewrite Hl|].
    exists msg. simpl. by apply bind_throw.
Qed.
End stock_loop.

(** ** Invoice creation *)

Lemma sell_item_ok invoiceNumber invoice item s :
  is_Some (products s !! it_productId item) →
  sell_item invoiceNumber invoice item s
  = Ok tt (set_stockHistory (λ l, l ++ [sale_entry invoiceNumber invoice item])
             (set_products (alter (add_stock (- it_quantity item)) (it_productId item)) s)).
Proof.
  intros Hp. unfold sell_item.
  erewrite bind_ok; [|reflexivity]. destruct Hp as [p Hp]. rewrite Hp.
  erewrite bind_ok; [|apply update_stock_ok; eauto].
  unfold tx_stockHistory_create; simpl.
  rewrite lookup_alter_eq, Hp; simpl. done.
Qed.

Lemma sell_item_throw invoiceNumber invoice item s :
  products s !! it_productId item = None →
  ∃ msg, sell_item invoiceNumber invoice item s = Throw msg.
Proof.
  intros Hp. unfold sell_item. erewrite bind_ok; [|reflexivity].
  rewrite Hp. by eexists.
Qed.

Lemma product_refs_lines data s :
  product_refs_ok (map item_of_data (d_items data)) s = lines_exist (sale_lines data) s.
Proof.
  unfold product_refs_ok, lines_exist, sale_lines.
  induction (d_items data) as [|item items IH]; simpl; [done|]. by rewrite IH.
Qed.

Lemma credited_is_Some data (m : gmap string Customer) k :
  is_Some (credited data m !! k) ↔ is_Some (m !! k).
Proof.
  unfold credited. destruct (truthy (d_customerId data)) as [cid|]; [|done].
  destruct (decide (cid = k)) as [->|Hne].
  - rewrite lookup_alter_eq. by rewrite fmap_is_Some.
  - by rewrite lookup_alter_ne.
Qed.

Lemma product_refs_ok_products items s s' :
  (∀ k, is_Some (products s' !! k) ↔ is_Some (products s !! k)) →
  product_refs_ok items s' = product_refs_ok items s.
Proof.
  intros H. unfold product_refs_ok. induction items as [|it items IH]; [done|].
  cbn [forallb]. rewrite IH. f_equal. apply bool_decide_ext, H.
Qed.

Lemma invoice_create_ok inv s :
  create_accepts inv s = true →
  tx_invoice_create inv s = Ok inv (set_invoices <[inv_id inv := inv]> s).
Proof.
  unfold create_accepts, tx_invoice_create. intros H.
  repeat (apply andb_true_iff in H as [H ?]).
  apply negb_true_iff in H. rewrite H.
  match goal with Hn : negb _ = true |- _ => apply negb_true_iff in Hn; rewrite Hn end.
  match goal with Hu : bool_decide (_ ∈ _) = true |- _ => rewrite Hu end.
  match goal with Hc : customer_ref_ok _ _ = true |- _ => rewrite Hc end.
  match goal with Hp : product_refs_ok _ _ = true |- _ => rewrite Hp end.
  done.
Qed.

Lemma invoice_create_throw inv s :
  create_accepts inv s = false → ∃ msg, tx_invoice_create inv s = Throw msg.
Proof.
  unfold create_accepts, tx_invoice_create. intros H.
  destruct (bool_decide (is_Some (invoices s !! inv_id inv))); [by eexists|].
  destruct (invoiceNumber_taken (inv_invoiceNumber inv) s); [by eexists|].
  simpl in H. rewrite H. by eexists.
Qed.

Lemma customer_update_ok k amount points s :
  is_Some (customers s !! k) →
  tx_customer_update k amount points s
  = Ok tt (set_customers (alter (add_purchase amount points) k) s).
Proof.
  intros [c Hc]. unfold tx_customer_update. rewrite Hc.
  unfold set_customers. by rewrite (insert_as_alter _ _ _ _ Hc).
Qed.

Lemma loyaltyHistory_create_ok e s :
  is_Some (customers s !! lh_customerId e) →
  tx_loyaltyHistory_create e s = Ok tt (set_loyaltyHistory (λ l, l ++ [e]) s).
Proof.
  intros H. unfold tx_loyaltyHistory_create. by rewrite bool_decide_eq_true_2.
Qed.

Lemma credit_customer_ok invoiceNumber data s :
  customer_ref_ok (truthy (d_customerId data)) s = true →
  credit_customer invoiceNumber data s
  = Ok tt (set_loyaltyHistory (λ l, l ++ points_entries invoiceNumber data)
             (set_customers (credited data) s)).
Proof.
  unfold credit_customer, credited, points_entries, customer_ref_ok.
  destruct (truthy (d_customerId data)) as [cid|]; intros Hc.
  - apply bool_decide_eq_true in Hc as [c Hc].
    erewrite bind_ok; [|reflexivity]. rewrite Hc.
    erewrite bind_ok; [|apply customer_update_ok; eauto].
    destruct (bool_decide (0 < floor_div10 (d_totalAmount data))); simpl.
    + rewrite loyaltyHistory_create_ok; [done|].
      simpl. rewrite lookup_alter_eq, Hc. simpl. eauto.
    + destruct s; unfold set_loyaltyHistory, set_customers; simpl.
      by rewrite app_nil_r.
  - destruct s; unfold set_loyaltyHistory, set_customers; simpl.
    by rewrite app_nil_r.
Qed.

(** Invoice creation commits exactly when [tx.invoice.create] accepts the
    row, and then leaves the store [after_create] describes. *)
Lemma create_invoice_ok env user invoiceNumber data s :
  create_accepts (invoice_of_data env user invoiceNumber data) s = true →
  create_invoice env user invoiceNumber data s
  = Ok (invoice_of_data env user invoiceNumber data)
       (after_create env user invoiceNumber data s).
Proof.
  intros Hacc. unfold create_invoice.
  erewrite bind_ok; [|by apply invoice_create_ok].
  unfold create_accepts in Hacc.
  repeat (apply andb_true_iff in Hacc as [Hacc ?]).
  erewrite bind_ok; cycle 1.
  { apply (stock_loop_ok (λ item, (it_productId item, - it_quantity item))
             (sale_entry invoiceNumber (invoice_of_data env user invoiceNumber data))).
    - intros x s0. apply sell_item_ok.
    - fold (sale_lines data). rewrite <- product_refs_lines. done. }
  erewrite bind_ok; [|by apply credit_customer_ok].
  erewrite bind_ok; cycle 1.
  { unfold tx_activityLog_create. store_simpl.
    match goal with Hu : bool_decide (_ ∈ _) = true |- _ => rewrite Hu end.
    reflexivity. }
  reflexivity.
Qed.

Lemma create_invoice_throw env user invoiceNumber data s :
  create_accepts (invoice_of_data env user invoiceNumber data) s = false →
  ∃ msg, create_invoice env user invoiceNumber data s = Throw msg.
Proof.
  intros Hacc. unfold create_invoice.
  destruct (invoice_create_throw _ _ Hacc) as [msg Hmsg].
  exists msg. by apply bind_throw.
Qed.

Lemma POST_invoices_created env data s user :
  authorized isCashier (session env) = Some user →
  d_items data ≠ [] →
  create_accepts (invoice_of_data env user (invoiceNumber_of env) data) s = true →
  POST_invoices env data s
  = (json (JsonInvoice (invoice_of_data env user (invoiceNumber_of env) data)) 201,
     after_create env user (invoiceNumber_of env) data s).
Proof.
  intros Hauth Hne Hacc. unfold POST_invoices. rewrite Hauth.
  rewrite bool_decide_eq_false_2 by done.
  by rewrite (transaction_ok _ _ _ _ (create_invoice_ok _ _ _ _ _ Hacc)).
Qed.

Lemma POST_invoices_refused env data s user :
  authorized isCashier (session env) = Some user →
  d_items data ≠ [] →
  create_accepts (invoice_of_data env user (invoiceNumber_of env) data) s = false →
  POST_invoices env data s = (json (JsonError "Internal Server Error") 500, s).
Proof.
  intros Hauth Hne Hacc. unfold POST_invoices. rewrite Hauth.
  rewrite bool_decide_eq_false_2 by done.
  destruct (create_invoice_throw _ _ _ _ _ Hacc) as [msg Hmsg].
  by rewrite (transaction_throw _ _ _ Hmsg).
Qed.

(** Every way [POST /invoices] can end. *)
Lemma POST_invoices_cases env data s :
  (∃ user,
      authorized isCashier (session env) = Some user ∧ d_items data ≠ [] ∧
      create_accepts (invoice_of_data env user (invoiceNumber_of env) data) s = true ∧
      POST_invoices env data s
      = (json (JsonInvoice (invoice_of_data env user (invoiceNumber_of env) data)) 201,
         after_create env user (invoiceNumber_of env) data s))
  ∨ (∃ msg code, POST_invoices env data s = (json (JsonError msg) code, s) ∧ 400 ≤ code).
Proof.
  destruct (authorized isCashier (session env)) as [user|] eqn:Hauth.
  - destruct (decide (d_items data = [])) as [Hnil|Hne].
    + right. exists "Invoice must have at least one item", 400.
      unfold POST_invoices. rewrite Hauth. by rewrite bool_decide_eq_true_2.
    + destruct (create_accepts (invoice_of_data env user (invoiceNumber_of env) data) s)
        eqn:Hacc.
      * left. exists user. by rewrite (POST_invoices_created _ _ _ _ Hauth Hne Hacc).
      * right. exists "Internal Server Error", 500.
        by rewrite (POST_invoices_refused _ _ _ _ Hauth Hne Hacc).
  - right. exists "Not authorized", 403. unfold POST_invoices. by rewrite Hauth.
Qed.

Lemma POST_invoices_atomic env data s :
  res_status (POST_invoices env data s).1 ≠ 201 → (POST_invoices env data s).2 = s.
Proof.
  destruct (POST_invoices_cases env data s) as [(user & _ & _ & _ & ->)|(msg & code & -> & _)];
    simpl; done.
Qed.

Lemma missing_product_refused env user invoiceNumber data s item :
  item ∈ d_items data →
  products s !! it_productId item = None →
  create_accepts (invoice_of_data env user invoiceNumber data) s = false.
Proof.
  intros Hin Hnone. unfold create_accepts. simpl.
  rewrite product_refs_lines.
  assert (lines_exist (sale_lines data) s = false) as ->; [|by rewrite andb_false_r].
  apply lines_exist_false. apply Exists_exists.
  exists (it_productId item, - it_quantity item). split; [|done].
  unfold sale_lines. apply list_elem_of_fmap. eauto.
Qed.

Lemma POST_invoices_missing_product env data s item :
  item ∈ d_items data →
  products s !! it_productId item = None →
  (POST_invoices env data s).2 = s ∧ is_error (POST_invoices env data s).1.
Proof.
  intros Hin Hnone.
  destruct (POST_invoices_cases env data s) as [(user & _ & _ & Hacc & _)|(msg & code & -> & ?)].
  - by rewrite (missing_product_refused _ _ _ _ _ _ Hin Hnone) in Hacc.
  - split; [done|]. by exists msg.
Qed.

Lemma moved_sale_lines k data : moved k (sale_lines data) = - moved k (order_lines data).
Proof.
  unfold sale_lines, order_lines. induction (d_items data) as [|item items IH]; simpl; [done|].
  destruct (decide (it_productId item = k)); lia.
Qed.

Lemma after_create_stock env user invoiceNumber data s k :
  stock_of (after_create env user invoiceNumber data s) k
  = (λ n, n - moved k (order_lines data)) <$> stock_of s k.
Proof.
  unfold stock_of, after_create; simpl. rewrite apply_lines_lookup, moved_sale_lines.
  destruct (products s !! k) as [p|]; simpl; [|done]. f_equal; lia.
Qed.

(** ** Reversal of points and purchases *)

Lemma reverse_points_ok customerId amount description s :
  reversal_accepts customerId amount s = true →
  reverse_points customerId amount description s
  = Ok tt (set_loyaltyHistory (λ l, l ++ reversal_entries customerId amount description)
             (set_customers (reversed customerId amount) s)).
Proof.
  unfold reverse_points, reversal_accepts, reversed, reversal_entries.
  destruct (truthy customerId) as [cid|];
    [destruct (bool_decide (0 < floor_div10 amount))|]; intros Hc; simpl.
  - apply bool_decide_eq_true in Hc as [c Hc].
    erewrite bind_ok; [|apply customer_update_ok; eauto].
    rewrite loyaltyHistory_create_ok; [done|].
    simpl. rewrite lookup_alter_eq, Hc. simpl. eauto.
  - destruct s; store_simpl. by rewrite app_nil_r.
  - destruct s; store_simpl. by rewrite app_nil_r.
Qed.

Lemma reverse_points_throw customerId amount description s :
  reversal_accepts customerId amount s = false →
  ∃ msg, reverse_points customerId amount description s = Throw msg.
Proof.
  unfold reverse_points, reversal_accepts.
  destruct (truthy customerId) as [cid|];
    [destruct (bool_decide (0 < floor_div10 amount))|]; intros Hc; simpl; try done.
  apply bool_decide_eq_false in Hc. apply eq_None_not_Some in Hc.
  eexists. apply bind_throw. unfold tx_customer_update. by rewrite Hc.
Qed.

(** ** Invoice void *)

Lemma restock_item_ok invoiceId existingInvoice item s :
  is_Some (products s !! ii_productId item) →
  restock_item invoiceId existingInvoice item s
  = Ok tt (set_stockHistory (λ l, l ++ [restock_entry invoiceId existingInvoice item])
             (set_products (alter (add_stock (ii_quantity item)) (ii_productId item)) s)).
Proof.
  intros [p Hp]. unfold restock_item.
  erewrite bind_ok; [|apply update_stock_ok; eauto].
  unfold tx_stockHistory_create; simpl.
  rewrite lookup_alter_eq, Hp; simpl. done.
Qed.

Lemma restock_item_throw invoiceId existingInvoice item s :
  products s !! ii_productId item = None →
  ∃ msg, restock_item invoiceId existingInvoice item s = Throw msg.
Proof.
  intros Hp. unfold restock_item. eexists.
  apply bind_throw. by apply update_stock_throw.
Qed.

Lemma invoice_update_status_ok id status s :
  is_Some (invoices s !! id) →
  tx_invoice_update_status id status s
  = Ok tt (set_invoices (alter (with_status status) id) s).
Proof.
  intros [inv Hinv]. unfold tx_invoice_update_status. rewrite Hinv.
  unfold set_invoices. by rewrite (insert_as_alter _ _ _ _ Hinv).
Qed.

Lemma activityLog_create_ok e s :
  al_userId e ∈ users s →
  tx_activityLog_create e s = Ok tt (set_activityLog (λ l, l ++ [e]) s).
Proof. intros H. unfold tx_activityLog_create. by rewrite bool_decide_eq_true_2. Qed.

Lemma activityLog_create_throw e s :
  al_userId e ∉ users s → ∃ msg, tx_activityLog_create e s = Throw msg.
Proof.
  intros H. unfold tx_activityLog_create. rewrite bool_decide_eq_false_2 by done.
  by eexists.
Qed.

Lemma void_invoice_ok user invoiceId existingInvoice s :
  void_accepts user invoiceId existingInvoice s = true →
  void_invoice user invoiceId existingInvoice s
  = Ok tt (after_void user invoiceId existingInvoice s).
Proof.
  intros Hacc. unfold void_accepts in Hacc.
  apply andb_true_iff in Hacc as [Hacc Huser].
  apply andb_true_iff in Hacc as [Hacc Hrev].
  apply andb_true_iff in Hacc as [Hlines Hinv].
  apply bool_decide_eq_true in Huser, Hinv.
  unfold void_invoice.
  erewrite bind_ok; cycle 1.
  { apply (stock_loop_ok (λ item, (ii_productId item, ii_quantity item))
             (restock_entry invoiceId existingInvoice)).
    - intros x s0. apply restock_item_ok.
    - done. }
  erewrite bind_ok; [|by apply invoice_update_status_ok].
  erewrite bind_ok; cycle 1.
  { apply (reverse_points_ok (inv_customerId existingInvoice)). done. }
  by rewrite activityLog_create_ok.
Qed.

Lemma void_invoice_throw user invoiceId existingInvoice s :
  void_accepts user invoiceId existingInvoice s = false →
  ∃ msg, void_invoice user invoiceId existingInvoice s = Throw msg.
Proof.
  intros Hacc. unfold void_accepts in Hacc. unfold void_invoice.
  destruct (lines_exist (invoice_lines existingInvoice) s) eqn:Hlines; cycle 1.
  { destruct (stock_loop_throw (λ item, (ii_productId item, ii_quantity item))
                (restock_entry invoiceId existingInvoice)
                (restock_item invoiceId existingInvoice)
                (λ x s0, restock_item_ok invoiceId existingInvoice x s0)
                (λ x s0, restock_item_throw invoiceId existingInvoice x s0)
                (inv_items existingInvoice) s Hlines) as [msg Hmsg].
    exists msg. by apply bind_throw. }
  erewrite bind_ok; cycle 1.
  { apply (stock_loop_ok (λ item, (ii_productId item, ii_quantity item))
             (restock_entry invoiceId existingInvoice)).
    - intros x s0. apply restock_item_ok.
    - done. }
  destruct (invoices s !! invoiceId) as [inv|] eqn:Hinv; cycle 1.
  { eexists. apply bind_throw. unfold tx_invoice_update_status. store_simpl.
    by rewrite Hinv. }
  erewrite bind_ok; cycle 1.
  { apply invoice_update_status_ok. store_simpl. eauto. }
  rewrite bool_decide_eq_true_2 in Hacc by eauto. simpl in Hacc.
  destruct (reversal_accepts (inv_customerId existingInvoice)
              (inv_totalAmount existingInvoice) s) eqn:Hrev; cycle 1.
  { destruct (reverse_points_throw (inv_customerId existingInvoice)
                (inv_totalAmount existingInvoice)
                ("Points reversed from voided invoice #" +:+ inv_invoiceNumber existingInvoice)
                (set_invoices (alter (with_status "VOIDED") invoiceId)
                   (set_stockHistory
                      (λ l, l ++ map (restock_entry invoiceId existingInvoice)
                                   (inv_items existingInvoice))
                      (set_products (apply_lines (invoice_lines existingInvoice)) s))))
      as [msg Hmsg]; [done|].
    exists msg. by apply bind_throw. }
  erewrite bind_ok; cycle 1.
  { apply (reverse_points_ok (inv_customerId existingInvoice)). done. }
  simpl in Hacc. apply bool_decide_eq_false in Hacc.
  apply activityLog_create_throw. by store_simpl.
Qed.

Lemma DELETE_invoice_voided env invoiceId s user existingInvoice :
  authorized isAdmin (session env) = Some user →
  invoices s !! invoiceId = Some existingInvoice →
  inv_status existingInvoice ≠ "VOIDED" →
  returnOrder_findFirst invoiceId s = None →
  void_accepts user invoiceId existingInvoice s = true →
  DELETE_invoice env invoiceId s
  = (json (JsonMessage "Invoice voided successfully") 200,
     after_void user invoiceId existingInvoice s).
Proof.
  intros Hauth Hinv Hst Hret Hacc. unfold DELETE_invoice.
  rewrite Hauth, Hinv, bool_decide_eq_false_2, Hret by done.
  by rewrite (transaction_ok _ _ _ _ (void_invoice_ok _ _ _ _ Hacc)).
Qed.

Lemma DELETE_invoice_already_voided env invoiceId s user existingInvoice :
  authorized isAdmin (session env) = Some user →
  invoices s !! invoiceId = Some existingInvoice →
  inv_status existingInvoice = "VOIDED" →
  DELETE_invoice env invoiceId s = (json (JsonError "Invoice is already voided") 400, s).
Proof.
  intros Hauth Hinv Hst. unfold DELETE_invoice.
  by rewrite Hauth, Hinv, bool_decide_eq_true_2.
Qed.

Lemma DELETE_invoice_has_returns env invoiceId s user existingInvoice r :
  authorized isAdmin (session env) = Some user →
  invoices s !! invoiceId = Some existingInvoice →
  inv_status existingInvoice ≠ "VOIDED" →
  returnOrder_findFirst invoiceId s = Some r →
  DELETE_invoice env invoiceId s
  = (json (JsonError "Cannot void invoice with returns") 400, s).
Proof.
  intros Hauth Hinv Hst Hret. unfold DELETE_invoice.
  by rewrite Hauth, Hinv, bool_decide_eq_false_2, Hret.
Qed.

(** Every way [DELETE /invoices/{id}] can end. *)
Lemma DELETE_invoice_cases env invoiceId s :
  (∃ user existingInvoice,
      authorized isAdmin (session env) = Some user ∧
      invoices s !! invoiceId = Some existingInvoice ∧
      inv_status existingInvoice ≠ "VOIDED" ∧
      returnOrder_findFirst invoiceId s = None ∧
      void_accepts user invoiceId existingInvoice s = true ∧
      DELETE_invoice env invoiceId s
      = (json (JsonMessage "Invoice voided successfully") 200,
         after_void user invoiceId existingInvoice s))
  ∨ (∃ msg code, DELETE_invoice env invoiceId s = (json (JsonError msg) code, s) ∧ 400 ≤ code).
Proof.
  destruct (authorized isAdmin (session env)) as [user|] eqn:Hauth; cycle 1.
  { right. exists "Not authorized", 403. unfold DELETE_invoice. by rewrite Hauth. }
  destruct (invoices s !! invoiceId) as [inv|] eqn:Hinv; cycle 1.
  { right. exists "Invoice not found", 404. unfold DELETE_invoice. by rewrite Hauth, Hinv. }
  destruct (decide (inv_status inv = "VOIDED")) as [Hst|Hst].
  { right. exists "Invoice is already voided", 400.
    by rewrite (DELETE_invoice_already_voided _ _ _ _ _ Hauth Hinv Hst). }
  destruct (returnOrder_findFirst invoiceId s) as [r|] eqn:Hret.
  { right. exists "Cannot void invoice with returns", 400.
    by rewrite (DELETE_invoice_has_returns _ _ _ _ _ _ Hauth Hinv Hst Hret). }
  destruct (void_accepts user invoiceId inv s) eqn:Hacc.
  - left. exists user, inv.
    by rewrite (DELETE_invoice_voided _ _ _ _ _ Hauth Hinv Hst Hret Hacc).
  - right. exists "Internal Server Error", 500.
    destruct (void_invoice_throw _ _ _ _ Hacc) as [msg Hmsg].
    unfold DELETE_invoice.
    rewrite Hauth, Hinv, bool_decide_eq_false_2, Hret by done.
    by rewrite (transaction_throw _ _ _ Hmsg).
Qed.

Lemma DELETE_invoice_atomic env invoiceId s :
  res_status (DELETE_invoice env invoiceId s).1 ≠ 200 → (DELETE_invoice env invoiceId s).2 = s.
Proof.
  destruct (DELETE_invoice_cases env invoiceId s)
    as [(user & inv & _ & _ & _ & _ & _ & ->)|(msg & code & -> & _)]; simpl; done.
Qed.

(** ** Return creation *)

Lemma return_item_ok invoiceId invoice item s :
  is_Some (products s !! rit_productId item) →
  return_item invoiceId invoice item s
  = Ok tt (set_stockHistory (λ l, l ++ [return_entry invoiceId invoice item])
             (set_products (alter (add_stock (rit_quantity item)) (rit_productId item)) s)).
Proof.
  intros [p Hp]. unfold return_item.
  erewrite bind_ok; [|apply update_stock_ok; eauto].
  unfold tx_stockHistory_create; simpl.
  rewrite lookup_alter_eq, Hp; simpl. done.
Qed.

Lemma return_item_throw invoiceId invoice item s :
  products s !! rit_productId item = None →
  ∃ msg, return_item invoiceId invoice item s = Throw msg.
Proof.
  intros Hp. unfold return_item. eexists.
  apply bind_throw. by apply update_stock_throw.
Qed.

Lemma returnOrder_create_ok r s :
  is_Some (invoices s !! ro_invoiceId r) →
  tx_returnOrder_create r s = Ok r (set_returnOrders (λ l, l ++ [r]) s).
Proof. intros H. unfold tx_returnOrder_create. by rewrite bool_decide_eq_true_2. Qed.

Lemma create_return_ok env user invoiceId invoice data s :
  return_accepts user invoiceId invoice data s = true →
  create_return env user invoiceId invoice data s
  = Ok (return_of_data env invoiceId data) (after_return env user invoiceId invoice data s).
Proof.
  intros Hacc. unfold return_accepts in Hacc.
  apply andb_true_iff in Hacc as [Hacc Huser].
  apply andb_true_iff in Hacc as [Hinv Hcompleted].
  apply bool_decide_eq_true in Huser, Hinv.
  unfold create_return, after_return.
  erewrite bind_ok; [|by apply returnOrder_create_ok].
  change (bool_decide (ro_status (return_of_data env invoiceId data) = "COMPLETED"))
    with (completed data).
  destruct (completed data); simpl.
  - apply andb_true_iff in Hcompleted as [Hlines Hrev].
    destruct (allItemsReturned invoice (rd_items data)); simpl.
    + erewrite bind_ok; cycle 1.
      { erewrite bind_ok; cycle 1.
        { apply (stock_loop_ok (λ item, (rit_productId item, rit_quantity item))
                   (return_entry invoiceId invoice)).
          - intros x s0. apply return_item_ok.
          - done. }
        erewrite bind_ok; [|by apply invoice_update_status_ok].
        by apply (reverse_points_ok (inv_customerId invoice)). }
      erewrite bind_ok; [|by apply activityLog_create_ok].
      done.
    + erewrite bind_ok; cycle 1.
      { erewrite bind_ok; cycle 1.
        { apply (stock_loop_ok (λ item, (rit_productId item, rit_quantity item))
                   (return_entry invoiceId invoice)).
          - intros x s0. apply return_item_ok.
          - done. }
        erewrite bind_ok; [|reflexivity].
        by apply (reverse_points_ok (inv_customerId invoice)). }
      erewrite bind_ok; [|by apply activityLog_create_ok].
      done.
  - erewrite bind_ok; [|reflexivity].
    erewrite bind_ok; [|by apply activityLog_create_ok].
    done.
Qed.

Lemma create_return_throw env user invoiceId invoice data s :
  return_accepts user invoiceId invoice data s = false →
  ∃ msg, create_return env user invoiceId invoice data s = Throw msg.
Proof.
  intros Hacc. unfold return_accepts in Hacc. unfold create_return.
  destruct (invoices s !! invoiceId) as [inv|] eqn:Hinv; cycle 1.
  { eexists. apply bind_throw. unfold tx_returnOrder_create. simpl.
    rewrite bool_decide_eq_false_2; [done|]. rewrite Hinv. by intros [? ?]. }
  erewrite bind_ok; [|apply returnOrder_create_ok; simpl; eauto].
  rewrite bool_decide_eq_true_2 in Hacc by eauto. simpl in Hacc.
  change (bool_decide (ro_status (return_of_data env invoiceId data) = "COMPLETED"))
    with (completed data).
  set (s1 := set_returnOrders _ s).
  assert (lines_exist (return_lines data) s1 = lines_exist (return_lines data) s) as Hs1
    by (by apply lines_exist_products).
  destruct (completed data); simpl.
  - destruct (lines_exist (return_lines data) s) eqn:Hlines; cycle 1.
    { destruct (stock_loop_throw (λ item, (rit_productId item, rit_quantity item))
                  (return_entry invoiceId invoice)
                  (return_item invoiceId invoice)
                  (λ x s0, return_item_ok invoiceId invoice x s0)
                  (λ x s0, return_item_throw invoiceId invoice x s0)
                  (rd_items data) s1 Hs1) as [msg Hmsg].
      exists msg. apply bind_throw. by apply bind_throw. }
    simpl in Hacc.
    pose proof (stock_loop_ok (λ item, (rit_productId item, rit_quantity item))
                  (return_entry invoiceId invoice)
                  (return_item invoiceId invoice)
                  (λ x s0, return_item_ok invoiceId invoice x s0)
                  (rd_items data) s1 Hs1) as Hloop.
    set (sL := set_stockHistory _ _) in Hloop.
    assert (∃ s2, when (allItemsReturned invoice (rd_items data))
                    (tx_invoice_update_status invoiceId "REFUNDED") sL = Ok tt s2
                  ∧ customers s2 = customers s ∧ users s2 = users s) as (s2 & Hs2 & Hc2 & Hu2).
    { destruct (allItemsReturned invoice (rd_items data)); simpl.
      - eexists. split.
        + apply invoice_update_status_ok. subst sL s1. store_simpl. eauto.
        + done.
      - eexists. split; [reflexivity|done]. }
    destruct (reversal_accepts (inv_customerId invoice) (rd_totalAmount data) s) eqn:Hrev.
    + simpl in Hacc. apply bool_decide_eq_false in Hacc.
      pose proof (reverse_points_ok (inv_customerId invoice) (rd_totalAmount data)
                    ("Points deducted for return from invoice #" +:+ inv_invoiceNumber invoice)
                    s2) as Hok.
      unfold reversal_accepts in Hok, Hrev. rewrite Hc2 in Hok. specialize (Hok Hrev).
      destruct (activityLog_create_throw (return_log user invoice data)
                  (set_loyaltyHistory
                     (λ l, l ++ reversal_entries (inv_customerId invoice) (rd_totalAmount data)
                                  ("Points deducted for return from invoice #"
                                     +:+ inv_invoiceNumber invoice))
                     (set_customers
                        (reversed (inv_customerId invoice) (rd_totalAmount data)) s2)))
        as [msg Hmsg].
      { store_simpl. by rewrite Hu2. }
      exists msg. erewrite bind_ok; cycle 1.
      { erewrite bind_ok; [|exact Hloop]. erewrite bind_ok; [|exact Hs2]. exact Hok. }
      by apply bind_throw.
    + pose proof (reverse_points_throw (inv_customerId invoice) (rd_totalAmount data)
                    ("Points deducted for return from invoice #" +:+ inv_invoiceNumber invoice)
                    s2) as Hthrow.
      unfold reversal_accepts in Hthrow, Hrev. rewrite Hc2 in Hthrow.
      destruct (Hthrow Hrev) as [msg Hmsg].
      exists msg. apply bind_throw.
      erewrite bind_ok; [|exact Hloop]. erewrite bind_ok; [|exact Hs2]. exact Hmsg.
  - simpl in Hacc. apply bool_decide_eq_false in Hacc.
    erewrite bind_ok; [|reflexivity].
    destruct (activityLog_create_throw (return_log user invoice data) s1) as [msg Hmsg];
      [done|].
    exists msg. by apply bind_throw.
Qed.

Lemma check_return_items_rejection invoice items r :
  check_return_items invoice items = Some r → ∃ msg, r = json (JsonError msg) 400.
Proof.
  induction items as [|item items IH]; simpl; [done|].
  destruct (find_invoice_item (rit_productId item) (inv_items invoice)) as [line|].
  - destruct (bool_decide (ii_quantity line < rit_quantity item)); [|done].
    intros [= <-]. by eexists.
  - intros [= <-]. by eexists.
Qed.

(** The validation loop passes exactly when every submitted line names a
    product of the invoice and asks for no more than the first invoice line
    of that product holds. *)
Lemma check_return_items_None invoice items :
  check_return_items invoice items = None ↔
  Forall (λ item, ∃ line,
            find_invoice_item (rit_productId item) (inv_items invoice) = Some line
            ∧ rit_quantity item ≤ ii_quantity line) items.
Proof.
  induction items as [|item items IH]; simpl.
  - split; [constructor|done].
  - rewrite Forall_cons, <- IH.
    destruct (find_invoice_item (rit_productId item) (inv_items invoice)) as [line|].
    + destruct (bool_decide (ii_quantity line < rit_quantity item)) eqn:Hq.
      * apply bool_decide_eq_true in Hq. split; [done|].
        intros [(line' & [= <-] & Hle) _]. lia.
      * apply bool_decide_eq_false in Hq. split; [|by intros [_ ?]].
        intros Hrest. split; [|done]. exists line. split; [done|lia].
    + split; [done|]. by intros [(line' & ? & _) _].
Qed.

Lemma POST_returns_created env data s user invoiceId invoice :
  authorized isManager (session env) = Some user →
  truthy (rd_invoiceId data) = Some invoiceId →
  rd_items data ≠ [] →
  invoices s !! invoiceId = Some invoice →
  check_return_items invoice (rd_items data) = None →
  return_accepts user invoiceId invoice data s = true →
  POST_returns env data s
  = (json (JsonReturn (return_of_data env invoiceId data)) 201,
     after_return env user invoiceId invoice data s).
Proof.
  intros Hauth Hid Hne Hinv Hcheck Hacc. unfold POST_returns.
  rewrite Hauth, Hid, bool_decide_eq_false_2, Hinv, Hcheck by done.
  by rewrite (transaction_ok _ _ _ _ (create_return_ok _ _ _ _ _ _ Hacc)).
Qed.

(** Every way [POST /returns] can end. *)
Lemma POST_returns_cases env data s :
  (∃ user invoiceId invoice,
      authorized isManager (session env) = Some user ∧
      truthy (rd_invoiceId data) = Some invoiceId ∧
      rd_items data ≠ [] ∧
      invoices s !! invoiceId = Some invoice ∧
      check_return_items invoice (rd_items data) = None ∧
      return_accepts user invoiceId invoice data s = true ∧
      POST_returns env data s
      = (json (JsonReturn (return_of_data env invoiceId data)) 201,
         after_return env user invoiceId invoice data s))
  ∨ (∃ msg code, POST_returns env data s = (json (JsonError msg) code, s) ∧ 400 ≤ code).
Proof.
  destruct (authorized isManager (session env)) as [user|] eqn:Hauth; cycle 1.
  { right. exists "Not authorized", 403. unfold POST_returns. by rewrite Hauth. }
  destruct (truthy (rd_invoiceId data)) as [invoiceId|] eqn:Hid; cycle 1.
  { right. exists "Invoice ID is required", 400. unfold POST_returns. by rewrite Hauth, Hid. }
  destruct (decide (rd_items data = [])) as [Hnil|Hne].
  { right. exists "Return must have at least one item", 400.
    unfold POST_returns. by rewrite Hauth, Hid, bool_decide_eq_true_2. }
  destruct (invoices s !! invoiceId) as [invoice|] eqn:Hinv; cycle 1.
  { right. exists "Invoice not found", 404.
    unfold POST_returns. by rewrite Hauth, Hid, bool_decide_eq_false_2, Hinv. }
  destruct (check_return_items invoice (rd_items data)) as [r|] eqn:Hcheck.
  { right. destruct (check_return_items_rejection _ _ _ Hcheck) as [msg ->].
    exists msg, 400.
    unfold POST_returns. by rewrite Hauth, Hid, bool_decide_eq_false_2, Hinv, Hcheck. }
  destruct (return_accepts user invoiceId invoice data s) eqn:Hacc.
  - left. exists user, invoiceId, invoice.
    by rewrite (POST_returns_created _ _ _ _ _ _ Hauth Hid Hne Hinv Hcheck Hacc).
  - right. exists "Internal Server Error", 500.
    destruct (create_return_throw env _ _ _ _ _ Hacc) as [msg Hmsg].
    unfold POST_returns.
    rewrite Hauth, Hid, bool_decide_eq_false_2, Hinv, Hcheck by done.
    by rewrite (transaction_throw _ _ _ Hmsg).
Qed.

Lemma POST_returns_atomic env data s :
  res_status (POST_returns env data s).1 ≠ 201 → (POST_returns env data s).2 = s.
Proof.
  destruct (POST_returns_cases env data s)
    as [(user & id & inv & _ & _ & _ & _ & _ & _ & ->)|(msg & code & -> & _)]; simpl; done.
Qed.

(** ** Stock levels and invoice creation *)

Lemma with_stock_levels_is_Some level s k :
  is_Some (products (with_stock_levels level s) !! k) ↔ is_Some (products s !! k).
Proof.
  unfold with_stock_levels; store_simpl. rewrite map_lookup_imap.
  destruct (products s !! k); simpl; split; intros [? ?]; eauto; done.
Qed.

Lemma create_accepts_stock_blind inv level s :
  create_accepts inv (with_stock_levels level s) = create_accepts inv s.
Proof.
  assert (product_refs_ok (inv_items inv) (with_stock_levels level s)
          = product_refs_ok (inv_items inv) s) as Hrefs.
  { unfold product_refs_ok. induction (inv_items inv) as [|it items IH]; [done|].
    cbn [forallb]. rewrite IH. f_equal. apply bool_decide_ext, with_stock_levels_is_Some. }
  unfold create_accepts. rewrite Hrefs. reflexivity.
Qed.

Lemma POST_invoices_stock_blind env data level s :
  res_status (POST_invoices env data (with_stock_levels level s)).1
  = res_status (POST_invoices env data s).1.
Proof.
  unfold POST_invoices.
  destruct (authorized isCashier (session env)) as [user|]; [|done].
  destruct (bool_decide (d_items data = [])); [done|].
  destruct (create_accepts (invoice_of_data env user (invoiceNumber_of env) data) s) eqn:Hacc.
  - rewrite (transaction_ok _ _ _ _ (create_invoice_ok _ _ _ _ _ Hacc)).
    rewrite <- (create_accepts_stock_blind _ level) in Hacc.
    by rewrite (transaction_ok _ _ _ _ (create_invoice_ok _ _ _ _ _ Hacc)).
  - destruct (create_invoice_throw _ _ _ _ _ Hacc) as [msg Hmsg].
    rewrite (transaction_throw _ _ _ Hmsg).
    rewrite <- (create_accepts_stock_blind _ level) in Hacc.
    destruct (create_invoice_throw _ _ _ _ _ Hacc) as [msg' Hmsg'].
    by rewrite (transaction_throw _ _ _ Hmsg').
Qed.

(** C1, the claim as stated, fails: five pens are ordered while one is in
    stock, the request is answered with 201, and the stock is left at -4. *)
Lemma C1_oversell_accepted :
  stock_of shop "p1" = Some 1
  ∧ order_lines oversell = [("p1", 5)]
  ∧ res_status (POST_invoices (till "i1" "1234") oversell shop).1 = 201
  ∧ stock_of (POST_invoices (till "i1" "1234") oversell shop).2 "p1" = Some (-4).
Proof. vm_compute. done. Qed.

(** C1, as amended.  Invoice creation checks, inside its transaction, that
    every line names an existing product: a request with a line whose product
    is missing is answered with an error and leaves the store as it was (no
    stock moved, no invoice created).  Quantities are not compared with stock:
    the response status is the same whatever the stock levels are, and a
    request answered with 201 has lowered every product's stock by exactly the
    quantity ordered. *)
Theorem C1_products_checked_stock_not_compared env data s :
  (∀ item, item ∈ d_items data → products s !! it_productId item = None →
     (POST_invoices env data s).2 = s ∧ is_error (POST_invoices env data s).1)
  ∧ (∀ level, res_status (POST_invoices env data (with_stock_levels level s)).1
              = res_status (POST_invoices env data s).1)
  ∧ (res_status (POST_invoices env data s).1 = 201 →
     ∀ k, stock_of (POST_invoices env data s).2 k
          = (λ n, n - moved k (order_lines data)) <$> stock_of s k).
Proof.
  split; [|split].
  - intros item. apply POST_invoices_missing_product.
  - intros level. apply POST_invoices_stock_blind.
  - intros H201 k.
    destruct (POST_invoices_cases env data s)
      as [(user & _ & _ & _ & Heq)|(msg & code & Heq & Hcode)];
      rewrite Heq in H201 |- *; simpl in *.
    + apply after_create_stock.
    + lia.
Qed.

Lemma C1_witness :
  ((POST_invoices (till "i1" "1234") ghost_line shop).2 = shop
   ∧ is_error (POST_invoices (till "i1" "1234") ghost_line shop).1)
  ∧ stock_of (POST_invoices (till "i1" "1234") oversell shop).2 "p1"
    = (λ n, n - moved "p1" (order_lines oversell)) <$> stock_of shop "p1".
Proof.
  split.
  - apply (proj1 (C1_products_checked_stock_not_compared (till "i1" "1234") ghost_line shop)
             (mkItemData "p9" 1 2 None None None 2)).
    + unfold ghost_line; simpl. repeat constructor.
    + reflexivity.
  - apply (proj2 (proj2 (C1_products_checked_stock_not_compared
                           (till "i1" "1234") oversell shop))).
    reflexivity.
Defined.

(** ** Atomicity of the three workflows *)

Lemma POST_invoices_throw env data s user msg :
  authorized isCashier (session env) = Some user →
  d_items data ≠ [] →
  create_invoice env user (invoiceNumber_of env) data s = Throw msg →
  POST_invoices env data s = (json (JsonError "Internal Server Error") 500, s).
Proof.
  intros Hauth Hne Hthrow. unfold POST_invoices. rewrite Hauth.
  rewrite bool_decide_eq_false_2 by done.
  by rewrite (transaction_throw _ _ _ Hthrow).
Qed.

Lemma DELETE_invoice_throw env invoiceId s user existingInvoice msg :
  authorized isAdmin (session env) = Some user →
  invoices s !! invoiceId = Some existingInvoice →
  inv_status existingInvoice ≠ "VOIDED" →
  returnOrder_findFirst invoiceId s = None →
  void_invoice user invoiceId existingInvoice s = Throw msg →
  DELETE_invoice env invoiceId s = (json (JsonError "Internal Server Error") 500, s).
Proof.
  intros Hauth Hinv Hst Hret Hthrow. unfold DELETE_invoice.
  rewrite Hauth, Hinv, bool_decide_eq_false_2, Hret by done.
  by rewrite (transaction_throw _ _ _ Hthrow).
Qed.

Lemma POST_returns_throw env data s user invoiceId invoice msg :
  authorized isManager (session env) = Some user →
  truthy (rd_invoiceId data) = Some invoiceId →
  rd_items data ≠ [] →
  invoices s !! invoiceId = Some invoice →
  check_return_items invoice (rd_items data) = None →
  create_return env user invoiceId invoice data s = Throw msg →
  POST_returns env data s = (json (JsonError "Internal Server Error") 500, s).
Proof.
  intros Hauth Hid Hne Hinv Hcheck Hthrow. unfold POST_returns.
  rewrite Hauth, Hid, bool_decide_eq_false_2, Hinv, Hcheck by done.
  by rewrite (transaction_throw _ _ _ Hthrow).
Qed.

(** C2.  In each workflow every write sits inside the transaction: when the
    transaction body throws, at whatever step, the handler answers
    500 and the store is exactly as it was; more generally a workflow that
    does not answer with its success status (201 for the two creations, 200
    for the void) leaves the store as it found it.  In particular an invoice
    request with a line whose product does not exist changes nothing (stock,
    invoices, ledgers and customers are all fields of the store) and is
    answered with an error. *)
Theorem C2_workflows_atomic :
  (∀ env data s user msg,
      authorized isCashier (session env) = Some user →
      d_items data ≠ [] →
      create_invoice env user (invoiceNumber_of env) data s = Throw msg →
      POST_invoices env data s = (json (JsonError "Internal Server Error") 500, s))
  ∧ (∀ env invoiceId s user existingInvoice msg,
      authorized isAdmin (session env) = Some user →
      invoices s !! invoiceId = Some existingInvoice →
      inv_status existingInvoice ≠ "VOIDED" →
      returnOrder_findFirst invoiceId s = None →
      void_invoice user invoiceId existingInvoice s = Throw msg →
      DELETE_invoice env invoiceId s = (json (JsonError "Internal Server Error") 500, s))
  ∧ (∀ env data s user invoiceId invoice msg,
      authorized isManager (session env) = Some user →
      truthy (rd_invoiceId data) = Some invoiceId →
      rd_items data ≠ [] →
      invoices s !! invoiceId = Some invoice →
      check_return_items invoice (rd_items data) = None →
      create_return env user invoiceId invoice data s = Throw msg →
      POST_returns env data s = (json (JsonError "Internal Server Error") 500, s))
  ∧ (∀ env data s,
      res_status (POST_invoices env data s).1 ≠ 201 → (POST_invoices env data s).2 = s)
  ∧ (∀ env invoiceId s,
      res_status (DELETE_invoice env invoiceId s).1 ≠ 200 →
      (DELETE_invoice env invoiceId s).2 = s)
  ∧ (∀ env data s,
      res_status (POST_returns env data s).1 ≠ 201 → (POST_returns env data s).2 = s)
  ∧ (∀ env data s item,
      item ∈ d_items data → products s !! it_productId item = None →
      (POST_invoices env data s).2 = s ∧ is_error (POST_invoices env data s).1).
Proof.
  repeat split.
  - apply POST_invoices_throw.
  - apply DELETE_invoice_throw.
  - apply POST_returns_throw.
  - apply POST_invoices_atomic.
  - apply DELETE_invoice_atomic.
  - apply POST_returns_atomic.
  - by apply (POST_invoices_missing_product env data s item).
  - by apply (POST_invoices_missing_product env data s item).
Qed.

(** Inside the void of a dangling invoice the first line is restocked and the
    second line throws. *)
Lemma derelict_void_throws_midway :
  restock_item "i1" (mkInvoice "i1" "INV-20240101-1234" None "u1" [] 4 0 0 4
                       "PAID" "CASH" None None 0)
    (mkInvoiceItem "p1" 1 2 0 0 0 2) derelict
  = Ok tt (set_stockHistory
             (λ l, l ++ [mkStockHistory "p1" 1 "adjustment"
                           "Voided invoice #INV-20240101-1234" (Some "i1")])
             (set_products (alter (add_stock 1) "p1") derelict))
  ∧ ∃ existingInvoice,
      invoices derelict !! "i1" = Some existingInvoice
      ∧ void_invoice (mkSession "u2" "ADMIN") "i1" existingInvoice derelict
        = Throw "Record to update not found.".
Proof. split; [reflexivity|]. eexists. split; reflexivity. Qed.

Lemma C2_witness :
  POST_invoices (till "i1" "1234") ghost_line shop
  = (json (JsonError "Internal Server Error") 500, shop)
  ∧ DELETE_invoice back_office "i1" derelict
    = (json (JsonError "Internal Server Error") 500, derelict)
  ∧ (DELETE_invoice back_office "i9" shop).2 = shop
  ∧ (POST_returns back_office excess_return shop_after_sale).2 = shop_after_sale
  ∧ ((POST_invoices (till "i1" "1234") ghost_line shop).2 = shop
     ∧ is_error (POST_invoices (till "i1" "1234") ghost_line shop).1).
Proof.
  destruct C2_workflows_atomic
    as (Hcreate & Hvoid & _ & _ & Hvoided & Hreturn & Hmissing).
  split; [|split; [|split; [|split]]].
  - apply (Hcreate (till "i1" "1234") ghost_line shop (mkSession "u1" "ADMIN")
             "Foreign key constraint failed"); [reflexivity|discriminate|reflexivity].
  - eapply (Hvoid back_office "i1" derelict (mkSession "u2" "ADMIN")).
    + reflexivity.
    + reflexivity.
    + discriminate.
    + reflexivity.
    + reflexivity.
  - apply (Hvoided back_office "i9" shop). vm_compute. discriminate.
  - apply (Hreturn back_office excess_return shop_after_sale). vm_compute. discriminate.
  - apply (Hmissing (till "i1" "1234") ghost_line shop
             (mkItemData "p9" 1 2 None None None 2)).
    + unfold ghost_line; simpl. repeat constructor.
    + reflexivity.
Defined.

(** ** Stored totals *)

Lemma reduce_sum_map {A B} (f : A → B) (key : B → Q) (xs : list A) :
  reduce_sum key (map f xs) = reduce_sum (λ x, key (f x)) xs.
Proof.
  unfold reduce_sum. generalize 0%Q.
  induction xs as [|x xs IH]; intros acc; simpl; [done|]. apply IH.
Qed.

Lemma recomputed_total_of_data env user invoiceNumber data :
  recomputed_total (invoice_of_data env user invoiceNumber data) = submitted_total data.
Proof.
  unfold recomputed_total, submitted_total; simpl. by rewrite reduce_sum_map.
Qed.

(** C3, the claim as stated, fails: one pen at 2 is submitted with a total of
    999; the request is answered with 201 and the invoice is stored with
    total 999, while its lines, tax and discount add up to 2. *)
Lemma C3_inflated_total_stored :
  res_status (POST_invoices (till "i1" "1234") inflated shop).1 = 201
  ∧ ∃ inv, invoices (POST_invoices (till "i1" "1234") inflated shop).2 !! "i1" = Some inv
           ∧ inv_totalAmount inv = 999%Q
           ∧ recomputed_total inv = 2%Q
           ∧ ¬ (recomputed_total inv == inv_totalAmount inv)%Q.
Proof.
  split; [reflexivity|]. eexists. split; [reflexivity|].
  split; [reflexivity|]. split; [reflexivity|]. by vm_compute.
Qed.

(** C3, as amended.  For every successfully created invoice, the stored
    subtotal, taxAmount, discountAmount and totalAmount are the submitted
    values (discountAmount is 0 when none is submitted) and every stored line
    total is the submitted line total; nothing is recomputed, so
    [sum(item.total) + taxAmount - discountAmount] of the stored invoice is
    that of the submitted data and agrees with the stored total exactly when
    the submitted figures agree. *)
Theorem C3_totals_stored_as_submitted env data s :
  res_status (POST_invoices env data s).1 = 201 →
  ∃ inv,
    res_body (POST_invoices env data s).1 = JsonInvoice inv
    ∧ invoices (POST_invoices env data s).2 !! inv_id inv = Some inv
    ∧ inv_subtotal inv = d_subtotal data
    ∧ inv_taxAmount inv = d_taxAmount data
    ∧ inv_discountAmount inv = or_zero (d_discountAmount data)
    ∧ inv_totalAmount inv = d_totalAmount data
    ∧ map ii_total (inv_items inv) = map it_total (d_items data)
    ∧ recomputed_total inv = submitted_total data.
Proof.
  intros H201.
  destruct (POST_invoices_cases env data s)
    as [(user & _ & _ & _ & Heq)|(msg & code & Heq & Hcode)];
    rewrite Heq in H201 |- *; simpl in *; [|lia].
  eexists. split; [reflexivity|]. simpl.
  split; [by rewrite lookup_insert_eq|].
  repeat (split; [reflexivity|]).
  split; [|apply recomputed_total_of_data].
  by rewrite map_map.
Qed.

Lemma C3_witness :
  ∃ inv,
    res_body (POST_invoices (till "i1" "1234") inflated shop).1 = JsonInvoice inv
    ∧ invoices (POST_invoices (till "i1" "1234") inflated shop).2 !! inv_id inv = Some inv
    ∧ inv_subtotal inv = d_subtotal inflated
    ∧ inv_taxAmount inv = d_taxAmount inflated
    ∧ inv_discountAmount inv = or_zero (d_discountAmount inflated)
    ∧ inv_totalAmount inv = d_totalAmount inflated
    ∧ map ii_total (inv_items inv) = map it_total (d_items inflated)
    ∧ recomputed_total inv = submitted_total inflated.
Proof.
  apply (C3_totals_stored_as_submitted (till "i1" "1234") inflated shop). reflexivity.
Defined.

(** ** Void *)

Lemma find_is_None {A} (f : A → bool) (l : list A) :
  find f l = None ↔ ∀ x, x ∈ l → f x = false.
Proof.
  induction l as [|y l IH]; simpl.
  - split; [|done]. intros _ x Hx. by apply elem_of_nil in Hx.
  - destruct (f y) eqn:Hy.
    + split; [done|]. intros H. specialize (H y). rewrite Hy in H.
      discriminate H. by left.
    + rewrite IH. split.
      * intros H x Hx. apply elem_of_cons in Hx as [->|Hx]; auto.
      * intros H x Hx. apply H. by right.
Qed.

Lemma no_returns_iff invoiceId s :
  returnOrder_findFirst invoiceId s = None ↔
  ∀ r, r ∈ returnOrders s → ro_invoiceId r ≠ invoiceId.
Proof.
  unfold returnOrder_findFirst. rewrite find_is_None.
  split; intros H r Hr; specialize (H r Hr).
  - by apply bool_decide_eq_false in H.
  - by apply bool_decide_eq_false.
Qed.

Lemma after_void_stock user invoiceId existingInvoice s k :
  stock_of (after_void user invoiceId existingInvoice s) k
  = (λ n, n + moved k (invoice_lines existingInvoice)) <$> stock_of s k.
Proof.
  unfold stock_of, after_void; simpl. rewrite apply_lines_lookup.
  destruct (products s !! k) as [p|]; simpl; done.
Qed.

Lemma after_void_status user invoiceId existingInvoice s :
  is_Some (invoices s !! invoiceId) →
  status_of (after_void user invoiceId existingInvoice s) invoiceId = Some "VOIDED".
Proof.
  intros [inv Hinv]. unfold status_of, after_void; simpl.
  by rewrite lookup_alter_eq, Hinv.
Qed.

Lemma invoice_lines_of_data env user invoiceNumber data :
  invoice_lines (invoice_of_data env user invoiceNumber data) = order_lines data.
Proof. unfold invoice_lines, order_lines; simpl. by rewrite map_map. Qed.

Lemma truthy_idemp x : truthy (truthy x) = truthy x.
Proof.
  destruct x as [v|]; simpl; [|done].
  destruct (decide (v = EmptyString)) as [->|Hne]; simpl; [done|].
  by destruct (decide (v = EmptyString)).
Qed.

Lemma lines_exist_invoice_lines inv s :
  lines_exist (invoice_lines inv) s = product_refs_ok (inv_items inv) s.
Proof.
  unfold lines_exist, invoice_lines, product_refs_ok.
  induction (inv_items inv) as [|it items IH]; simpl; [done|]. by rewrite IH.
Qed.

(** An invoice that has just been created can be voided: its products and
    its customer are there. *)
Lemma void_accepts_after_create env user invoiceNumber data s user' :
  create_accepts (invoice_of_data env user invoiceNumber data) s = true →
  user_id user' ∈ users s →
  void_accepts user' (uuid env) (invoice_of_data env user invoiceNumber data)
    (after_create env user invoiceNumber data s) = true.
Proof.
  intros Hacc Huser. unfold create_accepts in Hacc.
  apply andb_true_iff in Hacc as [Hacc Hprod].
  apply andb_true_iff in Hacc as [_ Hcust].
  unfold void_accepts. repeat (apply andb_true_iff; split).
  - rewrite lines_exist_invoice_lines, <- Hprod.
    apply product_refs_ok_products. intros k. simpl. apply apply_lines_is_Some.
  - apply bool_decide_eq_true. simpl. rewrite lookup_insert_eq. eauto.
  - unfold reversal_accepts. simpl in *. rewrite truthy_idemp.
    unfold customer_ref_ok in Hcust.
    destruct (truthy (d_customerId data)) as [cid|]; [|done].
    destruct (bool_decide (0 < floor_div10 (d_totalAmount data))); [|done].
    apply bool_decide_eq_true in Hcust. apply bool_decide_eq_true.
    by apply credited_is_Some.
  - by apply bool_decide_eq_true.
Qed.

(** C4.  A void goes through only for an existing invoice that is not VOIDED
    and has no return order.  When those hold (for an admin, on a store whose
    references are intact: [void_accepts]), the response is 200, every
    product's stock has gone up by the quantity of the invoice's lines for it,
    and the status is VOIDED.  A second void is answered
    400 "Invoice is already voided" and an invoice with a return
    400 "Cannot void invoice with returns", both leaving the store as it was.
    An invoice that has just been created can be voided by an admin, and the
    void puts every stock level back to its value before the invoice. *)
Theorem C4_void :
  (∀ env invoiceId s,
      res_status (DELETE_invoice env invoiceId s).1 = 200 →
      ∃ existingInvoice,
        invoices s !! invoiceId = Some existingInvoice
        ∧ inv_status existingInvoice ≠ "VOIDED"
        ∧ ∀ r, r ∈ returnOrders s → ro_invoiceId r ≠ invoiceId)
  ∧ (∀ env invoiceId s user existingInvoice,
      authorized isAdmin (session env) = Some user →
      invoices s !! invoiceId = Some existingInvoice →
      inv_status existingInvoice ≠ "VOIDED" →
      (∀ r, r ∈ returnOrders s → ro_invoiceId r ≠ invoiceId) →
      void_accepts user invoiceId existingInvoice s = true →
      res_status (DELETE_invoice env invoiceId s).1 = 200
      ∧ (∀ k, stock_of (DELETE_invoice env invoiceId s).2 k
              = (λ n, n + moved k (invoice_lines existingInvoice)) <$> stock_of s k)
      ∧ status_of (DELETE_invoice env invoiceId s).2 invoiceId = Some "VOIDED")
  ∧ (∀ env env' invoiceId s user',
      res_status (DELETE_invoice env invoiceId s).1 = 200 →
      authorized isAdmin (session env') = Some user' →
      DELETE_invoice env' invoiceId (DELETE_invoice env invoiceId s).2
      = (json (JsonError "Invoice is already voided") 400,
         (DELETE_invoice env invoiceId s).2))
  ∧ (∀ env invoiceId s user existingInvoice r,
      authorized isAdmin (session env) = Some user →
      invoices s !! invoiceId = Some existingInvoice →
      inv_status existingInvoice ≠ "VOIDED" →
      r ∈ returnOrders s → ro_invoiceId r = invoiceId →
      DELETE_invoice env invoiceId s
      = (json (JsonError "Cannot void invoice with returns") 400, s))
  ∧ (∀ env env' data s user',
      res_status (POST_invoices env data s).1 = 201 →
      authorized isAdmin (session env') = Some user' →
      user_id user' ∈ users s →
      or_str (d_status data) "PAID" ≠ "VOIDED" →
      (∀ r, r ∈ returnOrders s → ro_invoiceId r ≠ uuid env) →
      res_status (DELETE_invoice env' (uuid env) (POST_invoices env data s).2).1 = 200
      ∧ ∀ k, stock_of (DELETE_invoice env' (uuid env) (POST_invoices env data s).2).2 k
             = stock_of s k).
Proof.
  split; [|split; [|split; [|split]]].
  - intros env invoiceId s H200.
    destruct (DELETE_invoice_cases env invoiceId s)
      as [(user & inv & _ & Hinv & Hst & Hret & _ & _)|(msg & code & Heq & Hcode)].
    + exists inv. by rewrite <- no_returns_iff.
    + rewrite Heq in H200. simpl in H200. lia.
  - intros env invoiceId s user inv Hauth Hinv Hst Hret Hacc.
    pose proof (proj2 (no_returns_iff _ _) Hret) as Hnone.
    rewrite (DELETE_invoice_voided _ _ _ _ _ Hauth Hinv Hst Hnone Hacc). simpl.
    split; [done|]. split.
    + intros k. apply after_void_stock.
    + apply after_void_status. eauto.
  - intros env env' invoiceId s user' H200 Hauth'.
    destruct (DELETE_invoice_cases env invoiceId s)
      as [(user & inv & _ & Hinv & _ & _ & _ & Heq)|(msg & code & Heq & Hcode)];
      rewrite Heq in H200 |- *; simpl in *; [|lia].
    apply (DELETE_invoice_already_voided _ _ _ user' (with_status "VOIDED" inv)); [done| |done].
    simpl. by rewrite lookup_alter_eq, Hinv.
  - intros env invoiceId s user inv r Hauth Hinv Hst Hr Hrid.
    destruct (returnOrder_findFirst invoiceId s) as [r'|] eqn:Hret.
    + by apply (DELETE_invoice_has_returns _ _ _ user inv r').
    + pose proof (proj1 (no_returns_iff _ _) Hret r Hr) as Hne. by destruct Hne.
  - intros env env' data s user' H201 Hauth' Huser' Hst Hret.
    destruct (POST_invoices_cases env data s)
      as [(user & _ & _ & Hacc & Heq)|(msg & code & Heq & Hcode)];
      rewrite Heq in H201 |- *; simpl in *; [|lia].
    pose proof (void_accepts_after_create _ _ _ _ _ _ Hacc Huser') as Hvoid.
    rewrite (DELETE_invoice_voided env' (uuid env) _ user'
               (invoice_of_data env user (invoiceNumber_of env) data)); try done.
    + simpl. split; [done|]. intros k.
      rewrite after_void_stock, after_create_stock, invoice_lines_of_data.
      unfold stock_of. destruct (products s !! k) as [p|]; simpl; [|done].
      f_equal. lia.
    + simpl. by rewrite lookup_insert_eq.
    + by apply no_returns_iff.
Qed.

Lemma C4_witness :
  (∃ existingInvoice,
      invoices shop_after_sale !! "i1" = Some existingInvoice
      ∧ inv_status existingInvoice ≠ "VOIDED"
      ∧ ∀ r, r ∈ returnOrders shop_after_sale → ro_invoiceId r ≠ "i1")
  ∧ (res_status (DELETE_invoice back_office "i1" shop_after_sale).1 = 200
     ∧ (∀ k, stock_of (DELETE_invoice back_office "i1" shop_after_sale).2 k
             = (λ n, n + moved k [("p1", 1)]) <$> stock_of shop_after_sale k)
     ∧ status_of (DELETE_invoice back_office "i1" shop_after_sale).2 "i1" = Some "VOIDED")
  ∧ DELETE_invoice back_office "i1" (DELETE_invoice back_office "i1" shop_after_sale).2
    = (json (JsonError "Invoice is already voided") 400,
       (DELETE_invoice back_office "i1" shop_after_sale).2)
  ∧ DELETE_invoice back_office "i1"
      (POST_returns back_office pending_return shop_after_sale).2
    = (json (JsonError "Cannot void invoice with returns") 400,
       (POST_returns back_office pending_return shop_after_sale).2)
  ∧ (res_status (DELETE_invoice back_office "i1"
                   (POST_invoices (till "i1" "1234") small_sale shop).2).1 = 200
     ∧ ∀ k, stock_of (DELETE_invoice back_office "i1"
                        (POST_invoices (till "i1" "1234") small_sale shop).2).2 k
            = stock_of shop k).
Proof.
  destruct C4_void as (Honly & Hallowed & Hsecond & Hreturns & Hrestore).
  split; [|split; [|split; [|split]]].
  - apply (Honly back_office "i1" shop_after_sale). reflexivity.
  - apply (Hallowed back_office "i1" shop_after_sale (mkSession "u2" "ADMIN")
             (invoice_of_data (till "i1" "1234") (mkSession "u1" "ADMIN")
                "INV-20240101-1234" small_sale)).
    + reflexivity.
    + reflexivity.
    + vm_compute. discriminate.
    + intros r Hr. vm_compute in Hr. by apply elem_of_nil in Hr.
    + reflexivity.
  - apply (Hsecond back_office back_office "i1" shop_after_sale (mkSession "u2" "ADMIN")).
    + reflexivity.
    + reflexivity.
  - apply (Hreturns back_office "i1"
             (POST_returns back_office pending_return shop_after_sale).2
             (mkSession "u2" "ADMIN")
             (invoice_of_data (till "i1" "1234") (mkSession "u1" "ADMIN")
                "INV-20240101-1234" small_sale)
             (return_of_data back_office "i1" pending_return)).
    + reflexivity.
    + reflexivity.
    + vm_compute. discriminate.
    + vm_compute. repeat constructor.
    + reflexivity.
  - apply (Hrestore (till "i1" "1234") back_office small_sale shop (mkSession "u2" "ADMIN")).
    + reflexivity.
    + reflexivity.
    + vm_compute. repeat constructor.
    + vm_compute. discriminate.
    + intros r Hr. vm_compute in Hr. by apply elem_of_nil in Hr.
Defined.

(** ** Loyalty points and purchases *)

Lemma loyalty_accrual env data s cid c :
  res_status (POST_invoices env data s).1 = 201 →
  truthy (d_customerId data) = Some cid →
  customers s !! cid = Some c →
  customers (POST_invoices env data s).2 !! cid
  = Some (add_purchase (d_totalAmount data) (floor_div10 (d_totalAmount data)) c).
Proof.
  intros H201 Hcid Hc.
  destruct (POST_invoices_cases env data s)
    as [(user & _ & _ & _ & Heq)|(msg & code & Heq & Hcode)];
    rewrite Heq in H201 |- *; simpl in *; [|lia].
  unfold credited. by rewrite Hcid, lookup_alter_eq, Hc.
Qed.

(** The void takes back points and purchases together, and only when the
    points are positive. *)
Lemma loyalty_reversal env invoiceId s existingInvoice cid c :
  res_status (DELETE_invoice env invoiceId s).1 = 200 →
  invoices s !! invoiceId = Some existingInvoice →
  truthy (inv_customerId existingInvoice) = Some cid →
  customers s !! cid = Some c →
  customers (DELETE_invoice env invoiceId s).2 !! cid
  = Some (if bool_decide (0 < floor_div10 (inv_totalAmount existingInvoice))
          then add_purchase (- inv_totalAmount existingInvoice)
                 (- floor_div10 (inv_totalAmount existingInvoice)) c
          else c).
Proof.
  intros H200 Hinv Hcid Hc.
  destruct (DELETE_invoice_cases env invoiceId s)
    as [(user & inv & _ & Hinv' & _ & _ & _ & Heq)|(msg & code & Heq & Hcode)];
    rewrite Heq in H200 |- *; simpl in *; [|lia].
  rewrite Hinv in Hinv'. injection Hinv' as <-.
  unfold reversed. rewrite Hcid.
  destruct (bool_decide (0 < floor_div10 (inv_totalAmount existingInvoice))); [|done].
  by rewrite lookup_alter_eq, Hc.
Qed.

(** From a total of 10 on, creating an invoice and voiding it takes the
    customer's points and purchases back to where they were. *)
Lemma loyalty_round_trip env env' data s cid c :
  res_status (POST_invoices env data s).1 = 201 →
  res_status (DELETE_invoice env' (uuid env) (POST_invoices env data s).2).1 = 200 →
  truthy (d_customerId data) = Some cid →
  customers s !! cid = Some c →
  0 < floor_div10 (d_totalAmount data) →
  ∃ c', customers (DELETE_invoice env' (uuid env) (POST_invoices env data s).2).2 !! cid
        = Some c'
        ∧ c_loyaltyPoints c' = c_loyaltyPoints c
        ∧ (c_totalPurchases c' == c_totalPurchases c)%Q.
Proof.
  intros H201 H200 Hcid Hc Hpos.
  pose proof (loyalty_accrual _ _ _ _ _ H201 Hcid Hc) as Hc1.
  destruct (POST_invoices_cases env data s)
    as [(user & _ & _ & _ & Heq)|(msg & code & Heq & Hcode)];
    rewrite Heq in H201, H200, Hc1 |- *; simpl in H201, H200, Hc1 |- *; [|lia].
  erewrite (loyalty_reversal env' (uuid env) _
              (invoice_of_data env user (invoiceNumber_of env) data) cid); try done.
  - simpl. rewrite bool_decide_eq_true_2 by done. eexists. split; [done|].
    simpl. split; [lia|ring].
  - simpl. by rewrite lookup_insert_eq.
  - simpl. by rewrite truthy_idemp.
Qed.

(** C5, at a total below 10.  Ann has no points and no purchases.  An invoice
    of total 5 is created for her: her purchases become 5 and her points stay
    0, as floor(5 / 10) = 0.  The invoice is then voided: the response is 200
    and her purchases are still 5, where the claim has them back at 0. *)
Lemma C5_void_keeps_purchases_below_ten :
  customers shop !! "c1" = Some (mkCustomer "Ann" 0 0)
  ∧ d_totalAmount small_sale = 5%Q
  ∧ floor_div10 (d_totalAmount small_sale) = 0
  ∧ res_status (POST_invoices (till "i1" "1234") small_sale shop).1 = 201
  ∧ customers shop_after_sale !! "c1" = Some (mkCustomer "Ann" 0 5)
  ∧ res_status (DELETE_invoice back_office "i1" shop_after_sale).1 = 200
  ∧ customers (DELETE_invoice back_office "i1" shop_after_sale).2 !! "c1"
    = Some (mkCustomer "Ann" 0 5).
Proof. vm_compute. done. Qed.

(** ** Return validation *)

Lemma find_invoice_item_None productId items :
  find_invoice_item productId items = None ↔ productId ∉ map ii_productId items.
Proof.
  unfold find_invoice_item. rewrite find_is_None. split.
  - intros H Hin. apply list_elem_of_fmap in Hin as (line & -> & Hline).
    specialize (H line Hline). by apply bool_decide_eq_false in H.
  - intros H line Hline. apply bool_decide_eq_false. intros Heq. apply H.
    apply list_elem_of_fmap. eauto.
Qed.

(** C6.  A return request against an existing invoice in which some line
    names a product that is not on the invoice, or asks for more than the
    invoice line of that product holds, is answered with an error and leaves
    the store as it was: no return order, no stock or status change, no
    customer change.  For a session that passes the role check the status of
    the answer is 400. *)
Theorem C6_invalid_return_rejected env data s invoiceId invoice item :
  rd_invoiceId data = Some invoiceId →
  invoices s !! invoiceId = Some invoice →
  item ∈ rd_items data →
  (rit_productId item ∉ map ii_productId (inv_items invoice)
   ∨ ∃ line, find_invoice_item (rit_productId item) (inv_items invoice) = Some line
             ∧ ii_quantity line < rit_quantity item) →
  (POST_returns env data s).2 = s
  ∧ is_error (POST_returns env data s).1
  ∧ ∀ user, authorized isManager (session env) = Some user →
            res_status (POST_returns env data s).1 = 400.
Proof.
  intros Hid Hinv Hitem Hbad.
  assert (check_return_items invoice (rd_items data) ≠ None) as Hcheck.
  { intros Hcheck. apply check_return_items_None in Hcheck.
    rewrite Forall_forall in Hcheck. destruct (Hcheck item Hitem) as (line & Hline & Hle).
    destruct Hbad as [Hnot|(line' & Hline' & Hlt)].
    - apply find_invoice_item_None in Hnot. congruence.
    - rewrite Hline in Hline'. injection Hline' as <-. lia. }
  split; [|split].
  - destruct (POST_returns_cases env data s)
      as [(user & id & inv & _ & Hid' & _ & Hinv' & Hnone & _)|(msg & code & -> & _)];
      [|done].
    rewrite Hid in Hid'. simpl in Hid'.
    destruct (decide (invoiceId = EmptyString)); [done|]. injection Hid' as <-.
    rewrite Hinv in Hinv'. injection Hinv' as <-. done.
  - destruct (POST_returns_cases env data s)
      as [(user & id & inv & _ & Hid' & _ & Hinv' & Hnone & _)|(msg & code & -> & ?)];
      [|by exists msg].
    rewrite Hid in Hid'. simpl in Hid'.
    destruct (decide (invoiceId = EmptyString)); [done|]. injection Hid' as <-.
    rewrite Hinv in Hinv'. injection Hinv' as <-. done.
  - intros user Hauth. unfold POST_returns. rewrite Hauth, Hid. simpl.
    destruct (decide (invoiceId = EmptyString)) as [_|_]; [done|].
    rewrite bool_decide_eq_false_2; cycle 1.
    { intros Hnil. rewrite Hnil in Hitem. by apply elem_of_nil in Hitem. }
    rewrite Hinv.
    destruct (check_return_items invoice (rd_items data)) as [r|] eqn:Hr; [|done].
    by destruct (check_return_items_rejection _ _ _ Hr) as [msg ->].
Qed.

Lemma C6_witness :
  (POST_returns back_office excess_return shop_after_sale).2 = shop_after_sale
  ∧ is_error (POST_returns back_office excess_return shop_after_sale).1
  ∧ ∀ user, authorized isManager (session back_office) = Some user →
            res_status (POST_returns back_office excess_return shop_after_sale).1 = 400.
Proof.
  apply (C6_invalid_return_rejected back_office excess_return shop_after_sale "i1"
           (invoice_of_data (till "i1" "1234") (mkSession "u1" "ADMIN")
              "INV-20240101-1234" small_sale)
           (mkReturnItemData "p1" 3 2 6 None)).
  - reflexivity.
  - reflexivity.
  - unfold excess_return; simpl. repeat constructor.
  - right. eexists. split; [reflexivity|]. simpl. lia.
Defined.

(** ** Returns that are not completed *)

(** C10.  A return created with a status other than COMPLETED adds the return
    order (with its items) and one activity-log entry and nothing else:
    products and their stock, the stock ledger, invoices and their status,
    customers and the loyalty ledger are as before.  A request that is
    refused adds nothing at all. *)
Theorem C10_uncompleted_return_frame env data s :
  or_str (rd_status data) "COMPLETED" ≠ "COMPLETED" →
  products (POST_returns env data s).2 = products s
  ∧ stockHistory (POST_returns env data s).2 = stockHistory s
  ∧ invoices (POST_returns env data s).2 = invoices s
  ∧ customers (POST_returns env data s).2 = customers s
  ∧ loyaltyHistory (POST_returns env data s).2 = loyaltyHistory s
  ∧ users (POST_returns env data s).2 = users s
  ∧ (res_status (POST_returns env data s).1 = 201 →
     ∃ r e,
       res_body (POST_returns env data s).1 = JsonReturn r
       ∧ ro_status r = or_str (rd_status data) "COMPLETED"
       ∧ ro_items r = map return_item_of_data (rd_items data)
       ∧ returnOrders (POST_returns env data s).2 = returnOrders s ++ [r]
       ∧ activityLog (POST_returns env data s).2 = activityLog s ++ [e])
  ∧ (res_status (POST_returns env data s).1 ≠ 201 → (POST_returns env data s).2 = s).
Proof.
  intros Hst.
  assert (completed data = false) as Hc by (by apply bool_decide_eq_false).
  destruct (POST_returns_cases env data s)
    as [(user & id & inv & _ & _ & _ & _ & _ & _ & Heq)|(msg & code & Heq & Hcode)];
    rewrite Heq; simpl.
  - unfold after_return. rewrite Hc. simpl.
    repeat (split; [reflexivity|]). split; [|done].
    intros _. eexists _, _. repeat (split; [reflexivity|]). reflexivity.
  - repeat (split; [reflexivity|]). split; [|done]. intros H. lia.
Qed.

Lemma C10_witness :
  products (POST_returns back_office pending_return shop_after_sale).2
  = products shop_after_sale
  ∧ res_status (POST_returns back_office pending_return shop_after_sale).1 = 201.
Proof.
  split; [|reflexivity].
  apply (C10_uncompleted_return_frame back_office pending_return shop_after_sale).
  vm_compute. discriminate.
Defined.

(** ** Two invoice requests for the last item *)

(** A request that the store would accept is still accepted after another
    invoice, with another id and another number, has been created. *)
Lemma create_accepts_after_create inv env user invoiceNumber data s :
  create_accepts inv s = true →
  inv_id inv ≠ uuid env →
  inv_invoiceNumber inv ≠ invoiceNumber →
  create_accepts inv (after_create env user invoiceNumber data s) = true.
Proof.
  intros Hacc Hid Hnum. unfold create_accepts in *.
  apply andb_true_iff in Hacc as [Hacc Hprod].
  apply andb_true_iff in Hacc as [Hacc Hcust].
  apply andb_true_iff in Hacc as [Hacc Huser].
  apply andb_true_iff in Hacc as [Hfresh Hnumber].
  apply negb_true_iff, bool_decide_eq_false in Hfresh.
  apply negb_true_iff, bool_decide_eq_false in Hnumber.
  repeat (apply andb_true_iff; split).
  - apply negb_true_iff, bool_decide_eq_false. simpl.
    by rewrite lookup_insert_ne.
  - apply negb_true_iff, bool_decide_eq_false. simpl.
    intros (i & inv' & Hi & Hn). simpl in Hn.
    destruct (decide (uuid env = i)) as [<-|Hne].
    + rewrite lookup_insert_eq in Hi. injection Hi as <-. simpl in Hn. congruence.
    + rewrite lookup_insert_ne in Hi by done. apply Hnumber. by exists i, inv'.
  - done.
  - unfold customer_ref_ok in *. destruct (inv_customerId inv) as [c|]; [|done].
    apply bool_decide_eq_true in Hcust. apply bool_decide_eq_true. simpl.
    by apply credited_is_Some.
  - rewrite <- Hprod. apply product_refs_ok_products. intros k. simpl.
    apply apply_lines_is_Some.
Qed.

(** C9, the claim as stated, fails already when the store runs the two
    requests one after the other: with one pen in stock, two requests for one
    pen each are both answered with 201, in either order, and the stock is
    left at -1. *)
Lemma C9_both_requests_served :
  stock_of shop "p1" = Some 1
  ∧ order_lines one_pen = [("p1", 1)]
  ∧ (let '(r1, r2, s') :=
       serially (POST_invoices (till "i1" "1234") one_pen)
                (POST_invoices (till "i2" "5678") one_pen) shop in
     res_status r1 = 201 ∧ res_status r2 = 201 ∧ stock_of s' "p1" = Some (-1))
  ∧ (let '(r2, r1, s') :=
       serially (POST_invoices (till "i2" "5678") one_pen)
                (POST_invoices (till "i1" "1234") one_pen) shop in
     res_status r1 = 201 ∧ res_status r2 = 201 ∧ stock_of s' "p1" = Some (-1)).
Proof. vm_compute. done. Qed.

(** C9, as amended.  Invoice creation never refuses a request for lack of
    stock.  Two requests that the store would each accept (existing products,
    customer and user, unused id and number), with different ids and invoice
    numbers, are both answered with 201 when served one after the other, and
    every product's stock goes down by the quantities of both, whatever it
    was; with one item in stock and two requests for one item each, the stock
    ends at -1. *)
Theorem C9_serial_requests_both_served env1 env2 data1 data2 s user1 user2 :
  authorized isCashier (session env1) = Some user1 →
  authorized isCashier (session env2) = Some user2 →
  d_items data1 ≠ [] →
  d_items data2 ≠ [] →
  create_accepts (invoice_of_data env1 user1 (invoiceNumber_of env1) data1) s = true →
  create_accepts (invoice_of_data env2 user2 (invoiceNumber_of env2) data2) s = true →
  uuid env1 ≠ uuid env2 →
  invoiceNumber_of env1 ≠ invoiceNumber_of env2 →
  let '(r1, r2, s') := serially (POST_invoices env1 data1) (POST_invoices env2 data2) s in
  res_status r1 = 201 ∧ res_status r2 = 201
  ∧ ∀ k, stock_of s' k
         = (λ n, n - moved k (order_lines data1) - moved k (order_lines data2)) <$> stock_of s k.
Proof.
  intros Hauth1 Hauth2 Hne1 Hne2 Hacc1 Hacc2 Hid Hnum. unfold serially.
  rewrite (POST_invoices_created _ _ _ _ Hauth1 Hne1 Hacc1).
  rewrite (POST_invoices_created _ _ _ _ Hauth2 Hne2); cycle 1.
  { apply create_accepts_after_create; simpl; [done|congruence|congruence]. }
  simpl. split; [done|]. split; [done|].
  intros k. rewrite !after_create_stock. unfold stock_of.
  destruct (products s !! k) as [p|]; done.
Qed.

Lemma C9_witness :
  let '(r1, r2, s') :=
    serially (POST_invoices (till "i1" "1234") one_pen)
             (POST_invoices (till "i2" "5678") one_pen) shop in
  res_status r1 = 201 ∧ res_status r2 = 201
  ∧ ∀ k, stock_of s' k
         = (λ n, n - moved k (order_lines one_pen) - moved k (order_lines one_pen))
             <$> stock_of shop k.
Proof.
  apply (C9_serial_requests_both_served (till "i1" "1234") (till "i2" "5678")
           one_pen one_pen shop (mkSession "u1" "ADMIN") (mkSession "u1" "ADMIN")).
  - reflexivity.
  - reflexivity.
  - discriminate.
  - discriminate.
  - reflexivity.
  - reflexivity.
  - discriminate.
  - vm_compute. discriminate.
Defined.

(** ** Refunded status *)


Lemma find_is_Some {A} (f : A → bool) (l : list A) x :
  find f l = Some x → x ∈ l ∧ f x = true.
Proof.
  induction l as [|y l IH]; simpl; [done|].
  destruct (f y) eqn:Hy.
  - intros [= <-]. split; [by left|done].
  - intros H. destruct (IH H). split; [by right|done].
Qed.

Lemma find_invoice_item_Some productId items line :
  find_invoice_item productId items = Some line →
  line ∈ items ∧ ii_productId line = productId.
Proof.
  intros H. apply find_is_Some in H as [Hin Heq].
  by apply bool_decide_eq_true in Heq.
Qed.




Lemma elem_of_return_lines data k q :
  (k, q) ∈ return_lines data ↔
  ∃ item, item ∈ rd_items data ∧ rit_productId item = k ∧ rit_quantity item = q.
Proof.
  unfold return_lines. rewrite list_elem_of_fmap. split.
  - intros (item & [= -> ->] & Hin). eauto.
  - intros (item & Hin & <- & <-). eauto.
Qed.







(** ** Percentages of the sales breakdowns *)

Lemma Qltb_true x y : Qltb x y = true ↔ (x < y)%Q.
Proof.
  unfold Qltb. rewrite Qlt_alt. destruct (x ?= y)%Q; split; congruence.
Qed.



Lemma fold_sum_Qeq {A} (f : A → Q) (xs : list A) (a b : Q) :
  (a == b)%Q →
  (fold_left (λ sum x, sum + f x) xs a == fold_left (λ sum x, sum + f x) xs b)%Q.
Proof.
  revert a b. induction xs as [|x xs IH]; intros a b Hab; simpl; [done|].
  apply IH. by rewrite Hab.
Qed.






(** * Further properties *)

(** ** Sums and the descending sort *)

Lemma reduce_sum_cons {A} (key : A → Q) (x : A) (xs : list A) :
  (reduce_sum key (x :: xs) == key x + reduce_sum key xs)%Q.
Proof.
  unfold reduce_sum. simpl.
  assert (∀ a b, (fold_left (λ sum y, sum + key y) xs (a + b)
                  == a + fold_left (λ sum y, sum + key y) xs b)%Q) as Hshift.
  { induction xs as [|y ys IH]; intros a b; simpl; [reflexivity|].
    rewrite <- IH. apply fold_sum_Qeq. ring. }
  rewrite <- Hshift. apply fold_sum_Qeq. ring.
Qed.

Lemma reduce_sum_app {A} (key : A → Q) (xs ys : list A) :
  (reduce_sum key (xs ++ ys) == reduce_sum key xs + reduce_sum key ys)%Q.
Proof.
  induction xs as [|x xs IH]; simpl.
  - unfold reduce_sum at 2. simpl. ring.
  - rewrite !reduce_sum_cons, IH. ring.
Qed.

Lemma reduce_sum_perm {A} (key : A → Q) (xs ys : list A) :
  xs ≡ₚ ys → (reduce_sum key xs == reduce_sum key ys)%Q.
Proof.
  induction 1 as [|x xs ys _ IH|x y xs|xs ys zs _ IH1 _ IH2].
  - reflexivity.
  - by rewrite !reduce_sum_cons, IH.
  - rewrite !reduce_sum_cons. ring.
  - by rewrite IH1.
Qed.

Lemma insert_desc_perm {A} (key : A → Q) (x : A) (l : list A) :
  insert_desc key x l ≡ₚ x :: l.
Proof.
  induction l as [|y l IH]; simpl; [done|].
  destruct (Qltb (key x) (key y)); [|done].
  rewrite IH. apply Permutation_swap.
Qed.

Lemma sort_desc_perm {A} (key : A → Q) (l : list A) : sort_desc key l ≡ₚ l.
Proof.
  induction l as [|x l IH]; simpl; [done|].
  by rewrite insert_desc_perm, IH.
Qed.

Lemma Qltb_false x y : Qltb x y = false ↔ (y <= x)%Q.
Proof.
  rewrite <- not_true_iff_false, Qltb_true. split.
  - apply Qnot_lt_le.
  - apply Qle_not_lt.
Qed.

Lemma insert_desc_sorted {A} (key : A → Q) (x : A) (l : list A) :
  StronglySorted (λ a b, (key b <= key a)%Q) l →
  StronglySorted (λ a b, (key b <= key a)%Q) (insert_desc key x l).
Proof.
  induction 1 as [|y l Hsorted IH Hall]; simpl.
  - repeat constructor.
  - destruct (Qltb (key x) (key y)) eqn:Hlt.
    + constructor; [done|].
      rewrite insert_desc_perm. constructor; [|done].
      apply Qltb_true in Hlt. by apply Qlt_le_weak.
    + apply Qltb_false in Hlt. constructor; [by constructor|].
      constructor; [done|].
      eapply Forall_impl; [exact Hall|]. simpl. intros z Hz.
      by apply Qle_trans with (key y).
Qed.

(** The sort of the breakdowns puts the larger keys first and keeps every
    element. *)
Lemma sort_desc_sorted {A} (key : A → Q) (l : list A) :
  StronglySorted (λ a b, (key b <= key a)%Q) (sort_desc key l).
Proof.
  induction l as [|x l IH]; simpl; [constructor|].
  by apply insert_desc_sorted.
Qed.

Lemma reduce_sum_sort_desc {A} (key key' : A → Q) (l : list A) :
  (reduce_sum key (sort_desc key' l) == reduce_sum key l)%Q.
Proof. apply reduce_sum_perm, sort_desc_perm. Qed.

(** ** Grouping rows by key *)

Lemma reduce_count_cons {A} (key : A → Z) (x : A) (xs : list A) :
  reduce_count key (x :: xs) = key x + reduce_count key xs.
Proof.
  unfold reduce_count. simpl.
  assert (∀ a b, fold_left (λ sum y, sum + key y) xs (a + b)
                 = a + fold_left (λ sum y, sum + key y) xs b) as Hshift.
  { induction xs as [|y ys IH]; intros a b; simpl; [done|].
    rewrite <- IH. f_equal. lia. }
  rewrite <- Hshift. f_equal. lia.
Qed.

Lemma reduce_count_perm {A} (key : A → Z) (xs ys : list A) :
  xs ≡ₚ ys → reduce_count key xs = reduce_count key ys.
Proof.
  induction 1 as [|x xs ys _ IH|x y xs|xs ys zs _ IH1 _ IH2].
  - done.
  - by rewrite !reduce_count_cons, IH.
  - rewrite !reduce_count_cons. lia.
  - by rewrite IH1.
Qed.

Lemma reduce_count_map {A B} (f : A → B) (key : B → Z) (xs : list A) :
  reduce_count key (map f xs) = reduce_count (λ x, key (f x)) xs.
Proof.
  unfold reduce_count. generalize 0.
  induction xs as [|x xs IH]; intros acc; simpl; [done|]. apply IH.
Qed.

Lemma reduce_count_ones {A} (xs : list A) :
  reduce_count (λ _, 1) xs = Z.of_nat (length xs).
Proof.
  induction xs as [|x xs IH]; [done|].
  rewrite reduce_count_cons, IH. simpl length. lia.
Qed.

Lemma upsert_keys {V} k (init : V) f (m : list (string * V)) :
  (upsert k init f m).*1 = if decide (k ∈ m.*1) then m.*1 else m.*1 ++ [k].
Proof.
  induction m as [|[k' v] m IH]; csimpl.
  - destruct (decide (k ∈ [])) as [Hin|_]; [by apply elem_of_nil in Hin|done].
  - destruct (decide (k' = k)) as [->|Hne]; csimpl.
    + rewrite decide_True; [done|]. by left.
    + rewrite IH. destruct (decide (k ∈ m.*1)) as [Hin|Hnin].
      * rewrite decide_True; [done|]. by right.
      * rewrite decide_False; [done|].
        intros Hin. apply elem_of_cons in Hin as [->|Hin]; done.
Qed.

Lemma upsert_NoDup {V} k (init : V) f (m : list (string * V)) :
  NoDup m.*1 → NoDup (upsert k init f m).*1.
Proof.
  intros Hnd. rewrite upsert_keys. destruct (decide (k ∈ m.*1)); [done|].
  apply NoDup_app. split; [done|]. split; [|apply NoDup_singleton].
  intros x Hx Hk. apply list_elem_of_singleton in Hk as ->. done.
Qed.

Lemma upsert_sum {V} (val : V → Q) (x : Q) k (init : V) f (m : list (string * V)) :
  (∀ v, val (f v) == val v + x)%Q →
  (val init == 0)%Q →
  (reduce_sum (λ e, val e.2) (upsert k init f m) == reduce_sum (λ e, val e.2) m + x)%Q.
Proof.
  intros Hf Hinit. induction m as [|[k' v] m IH]; simpl.
  - rewrite reduce_sum_cons. simpl. rewrite Hf, Hinit. ring.
  - destruct (decide (k' = k)) as [->|Hne].
    + rewrite !reduce_sum_cons. simpl. rewrite Hf. ring.
    + rewrite !reduce_sum_cons. simpl. rewrite IH. ring.
Qed.

Lemma upsert_count {V} (val : V → Z) (x : Z) k (init : V) f (m : list (string * V)) :
  (∀ v, val (f v) = val v + x) →
  val init = 0 →
  reduce_count (λ e, val e.2) (upsert k init f m) = reduce_count (λ e, val e.2) m + x.
Proof.
  intros Hf Hinit. induction m as [|[k' v] m IH]; simpl.
  - unfold reduce_count. simpl. rewrite Hf, Hinit. lia.
  - destruct (decide (k' = k)) as [->|Hne].
    + rewrite !reduce_count_cons. simpl. rewrite Hf. lia.
    + rewrite !reduce_count_cons. simpl. rewrite IH. lia.
Qed.

Lemma upsert_Forall {V} (P : V → Prop) k (init : V) f (m : list (string * V)) :
  (∀ v, P v → P (f v)) →
  P (f init) →
  Forall (λ e, P e.2) m → Forall (λ e, P e.2) (upsert k init f m).
Proof.
  intros Hf Hinit. induction 1 as [|[k' v] m Hv Hm IH]; simpl.
  - by repeat constructor.
  - destruct (decide (k' = k)); constructor; simpl in *; auto.
Qed.

Section grouping.
Context {R V : Type} (key : R → string) (init : R → V) (add : R → V → V).

Lemma group_rows_NoDup rows (m : list (string * V)) :
  NoDup m.*1 → NoDup (group_rows key init add rows m).*1.
Proof.
  revert m. induction rows as [|r rows IH]; intros m Hnd; simpl; [done|].
  by apply IH, upsert_NoDup.
Qed.

Lemma group_rows_keys rows (m : list (string * V)) k :
  k ∈ (group_rows key init add rows m).*1 ↔ k ∈ m.*1 ∨ ∃ r, r ∈ rows ∧ key r = k.
Proof.
  revert m. induction rows as [|r rows IH]; intros m; simpl.
  - split; [by left|]. intros [?|(r & Hr & _)]; [done|]. by apply elem_of_nil in Hr.
  - rewrite IH, upsert_keys. destruct (decide (key r ∈ m.*1)) as [Hin|Hnin].
    + split.
      * intros [?|(r' & Hr' & <-)]; [by left|]. right. exists r'. split; [by right|done].
      * intros [?|(r' & Hr' & <-)]; [by left|].
        apply elem_of_cons in Hr' as [->|Hr']; [by left|]. right. eauto.
    + rewrite elem_of_app, list_elem_of_singleton. split.
      * intros [[?| ->]|(r' & Hr' & <-)]; [by left| |].
        -- right. exists r. split; [by left|done].
        -- right. exists r'. split; [by right|done].
      * intros [?|(r' & Hr' & <-)]; [by left; left|].
        apply elem_of_cons in Hr' as [->|Hr']; [by left; right|]. right. eauto.
Qed.

Lemma group_rows_sum (val : V → Q) (amount : R → Q) rows (m : list (string * V)) :
  (∀ r v, val (add r v) == val v + amount r)%Q →
  (∀ r, val (init r) == 0)%Q →
  (reduce_sum (λ e, val e.2) (group_rows key init add rows m)
   == reduce_sum (λ e, val e.2) m + reduce_sum amount rows)%Q.
Proof.
  intros Hadd Hinit. revert m. induction rows as [|r rows IH]; intros m; simpl.
  - unfold reduce_sum at 3. simpl. ring.
  - rewrite IH, (upsert_sum val (amount r)) by auto. rewrite reduce_sum_cons. ring.
Qed.

Lemma group_rows_count (val : V → Z) (amount : R → Z) rows (m : list (string * V)) :
  (∀ r v, val (add r v) = val v + amount r) →
  (∀ r, val (init r) = 0) →
  reduce_count (λ e, val e.2) (group_rows key init add rows m)
  = reduce_count (λ e, val e.2) m + reduce_count amount rows.
Proof.
  intros Hadd Hinit. revert m. induction rows as [|r rows IH]; intros m; simpl.
  - unfold reduce_count at 3. simpl. lia.
  - rewrite IH, (upsert_count val (amount r)) by auto. rewrite reduce_count_cons. lia.
Qed.

Lemma group_rows_Forall (P : V → Prop) rows (m : list (string * V)) :
  (∀ r v, P v → P (add r v)) →
  (∀ r, P (add r (init r))) →
  Forall (λ e, P e.2) m → Forall (λ e, P e.2) (group_rows key init add rows m).
Proof.
  intros Hadd Hinit. revert m. induction rows as [|r rows IH]; intros m Hm; simpl; [done|].
  apply IH, upsert_Forall; auto.
Qed.
End grouping.

(** ** The two breakdowns as a whole *)

Lemma reduce_sum_ext {A} (key key' : A → Q) (xs : list A) :
  (∀ x, key x = key' x) → reduce_sum key xs = reduce_sum key' xs.
Proof.
  intros H. unfold reduce_sum. generalize 0%Q.
  induction xs as [|x xs IH]; intros acc; simpl; [done|]. by rewrite H, IH.
Qed.

Lemma reduce_count_ext {A} (key key' : A → Z) (xs : list A) :
  (∀ x, key x = key' x) → reduce_count key xs = reduce_count key' xs.
Proof.
  intros H. unfold reduce_count. generalize 0.
  induction xs as [|x xs IH]; intros acc; simpl; [done|]. by rewrite H, IH.
Qed.

Lemma group_by_category_rows categorySales :
  group_by_category categorySales
  = group_rows (λ item, or_str (cs_categoryId item) "uncategorized")
      (λ item, mkCategoryTotal (or_str (cs_categoryName item) "Uncategorized") 0)
      (λ item e, mkCategoryTotal (ct_name e) (ct_total e + cs_total item))
      categorySales [("uncategorized", mkCategoryTotal "Uncategorized" 0)].
Proof. reflexivity. Qed.


(** X1.  The sales-by-category report accounts for every fetched line once: its
    overall total is the sum of the lines' totals.  Its rows come largest
    total first, one per category, and the row of uncategorized sales is
    always there, so the report is never empty; the other rows are the
    categories that occur in the lines. *)
Theorem category_breakdown_accounts categorySales :
  let report := getSalesByCategory categorySales in
  let ids := map (λ row, ci_id (cr_item row)) (cat_data report) in
  (cat_totalSales report == reduce_sum cs_total categorySales)%Q
  ∧ StronglySorted (λ a b, (ci_total (cr_item b) <= ci_total (cr_item a))%Q)
      (cat_data report)
  ∧ NoDup ids
  ∧ (∀ id, id ∈ ids ↔
           id = "uncategorized"
           ∨ ∃ item, item ∈ categorySales
                     ∧ or_str (cs_categoryId item) "uncategorized" = id)
  ∧ cat_totalCategories report = length (cat_data report).
Proof.
  unfold getSalesByCategory. simpl.
  set (items := map _ (group_by_category categorySales)).
  assert (map ci_id items = (group_by_category categorySales).*1) as Hids.
  { unfold items. rewrite map_map. apply map_ext. by intros [id data]. }
  assert (map (λ row, ci_id (cr_item row))
              (map (λ item, mkCategoryRow item
                              (percentage_of (ci_total item)
                                 (reduce_sum ci_total (sort_desc ci_total items))))
                   (sort_desc ci_total items))
          ≡ₚ (group_by_category categorySales).*1) as Hperm.
  { rewrite map_map. simpl. rewrite <- Hids. apply fmap_Permutation, sort_desc_perm. }
  split; [|split; [|split; [|split]]].
  - rewrite reduce_sum_sort_desc. unfold items. rewrite reduce_sum_map.
    rewrite group_by_category_rows.
    rewrite (reduce_sum_ext _ (λ e, ct_total e.2)) by (by intros [id data]).
    rewrite (group_rows_sum _ _ _ ct_total cs_total); simpl.
    + unfold reduce_sum at 1. simpl. ring.
    + intros r v. reflexivity.
    + intros r. reflexivity.
  - eapply StronglySorted_fmap; [|apply (sort_desc_sorted ci_total)].
    intros x y Hxy. exact Hxy.
  - rewrite Hperm, group_by_category_rows. apply group_rows_NoDup.
    simpl. apply NoDup_singleton.
  - intros id. rewrite Hperm, group_by_category_rows, group_rows_keys. simpl.
    by rewrite list_elem_of_singleton.
  - by rewrite length_map.
Qed.


(** ** Sales by period *)

Lemma group_by_period_rows setDate period invoices :
  group_by_period setDate period invoices
  = group_rows (λ invoice, formatDateByPeriod setDate (tsl_createdAt invoice) period)
      (λ _, mkPeriodTotal 0 0)
      (λ invoice e, mkPeriodTotal (pd_total e + tsl_totalAmount invoice) (pd_count e + 1))
      invoices [].
Proof. reflexivity. Qed.

(** X3.  The sales-by-period report accounts for every fetched invoice once: the
    bucket totals add up to the overall total, the bucket counts to the
    number of invoices.  There is one bucket per period key that occurs, each
    with at least one invoice, and the average sale times the number of
    invoices gives back the total; with no invoices there are no buckets and
    the average is 0. *)
Theorem sales_by_period_accounts setDate period invoices :
  let report := getSalesByTimePeriod setDate period invoices in
  (time_totalSales report == reduce_sum tsl_totalAmount invoices)%Q
  ∧ time_totalInvoices report = Z.of_nat (length invoices)
  ∧ Forall (λ item, 1 ≤ pe_count item) (time_data report)
  ∧ NoDup (map pe_period (time_data report))
  ∧ (∀ key, key ∈ map pe_period (time_data report) ↔
            ∃ invoice, invoice ∈ invoices
                       ∧ formatDateByPeriod setDate (tsl_createdAt invoice) period = key)
  ∧ (time_averageSale report * inject_Z (time_totalInvoices report)
     == time_totalSales report)%Q
  ∧ (invoices = [] → time_data report = [] ∧ time_averageSale report = 0%Q).
Proof.
  unfold getSalesByTimePeriod. simpl.
  set (grouped := group_by_period setDate period invoices).
  set (result := map _ grouped).
  assert (map pe_period result = grouped.*1) as Hids.
  { unfold result. rewrite map_map. apply map_ext. by intros [id data]. }
  assert (reduce_sum pe_total result == reduce_sum tsl_totalAmount invoices)%Q as Hsum.
  { unfold result. rewrite reduce_sum_map.
    rewrite (reduce_sum_ext _ (λ e, pd_total e.2)) by (by intros [id data]).
    unfold grouped. rewrite group_by_period_rows.
    rewrite (group_rows_sum _ _ _ pd_total tsl_totalAmount); simpl.
    - unfold reduce_sum at 1. simpl. ring.
    - intros r v. reflexivity.
    - intros r. reflexivity. }
  assert (reduce_count pe_count result = Z.of_nat (length invoices)) as Hcount.
  { unfold result. rewrite reduce_count_map.
    rewrite (reduce_count_ext _ (λ e, pd_count e.2)) by (by intros [id data]).
    unfold grouped. rewrite group_by_period_rows.
    rewrite (group_rows_count _ _ _ pd_count (λ _, 1)); simpl; [|done..].
    rewrite reduce_count_ones. unfold reduce_count. simpl. lia. }
  split; [done|]. split; [done|]. split; [|split; [|split; [|split]]].
  - unfold result. apply Forall_fmap. unfold grouped. rewrite group_by_period_rows.
    eapply Forall_impl.
    + apply (group_rows_Forall _ _ _ (λ v, 1 ≤ pd_count v)); simpl.
      * intros r v Hv. lia.
      * intros r. lia.
      * constructor.
    + by intros [id data].
  - rewrite Hids. unfold grouped. rewrite group_by_period_rows.
    apply group_rows_NoDup. constructor.
  - intros key. rewrite Hids. unfold grouped.
    rewrite group_by_period_rows, group_rows_keys. simpl.
    split; [intros [Hin|?]; [by apply elem_of_nil in Hin|done]|by right].
  - unfold quotient_or_zero. rewrite Hcount.
    destruct (bool_decide (Z.of_nat (length invoices) = 0)) eqn:Hzero.
    + apply bool_decide_eq_true in Hzero.
      destruct invoices; [|simpl in Hzero; lia].
      rewrite Hsum. unfold reduce_sum. simpl. ring.
    + apply bool_decide_eq_false in Hzero. field.
      intros H. apply Hzero. unfold Qeq in H. simpl in H. lia.
  - intros ->. split; [done|]. reflexivity.
Qed.

(** ** Top sellers and top customers *)

Lemma take_sorted_best {A} (key : A → Q) (n : nat) (l : list A) x y :
  x ∈ take n (sort_desc key l) → y ∈ l → y ∉ take n (sort_desc key l) →
  (key y <= key x)%Q.
Proof.
  intros Hx Hy Hny.
  assert (y ∈ drop n (sort_desc key l)) as Hdrop.
  { rewrite <- (sort_desc_perm key l), <- (take_drop n (sort_desc key l)) in Hy.
    apply elem_of_app in Hy as [?|?]; done. }
  pose proof (sort_desc_sorted key l) as Hsorted.
  rewrite <- (take_drop n (sort_desc key l)) in Hsorted.
  apply (StronglySorted_app_1_elem_of _ _ _ _ _ Hsorted Hx Hdrop).
Qed.

Lemma take_all {A} (n : nat) (l : list A) : (length l ≤ n)%nat → take n l = l.
Proof. intros H. by apply take_ge. Qed.

Lemma group_by_product_rows productSales :
  group_by_product productSales
  = group_rows psl_productId
      (λ item, mkProductTotal (psl_name item) (truthy (psl_categoryName item)) 0 0)
      (λ item e, mkProductTotal (prt_name e) (prt_category e)
                   (prt_totalQuantity e + psl_quantity item)
                   (prt_totalSales e + psl_total item))
      productSales [].
Proof. reflexivity. Qed.

Lemma product_items_ids productSales :
  map pit_id (product_items productSales) = (group_by_product productSales).*1.
Proof. unfold product_items. rewrite map_map. apply map_ext. by intros [id data]. Qed.

(** X4.  The top-sellers report lists at most ten products, largest sales first,
    each product once, and no product left out sold more than a listed one.
    Its summary adds up the listed rows only: it equals the sales and the
    quantities of all fetched lines when at most ten products were sold. *)
Theorem top_products_listing productSales :
  let report := getTopSellingProducts productSales in
  (length (top_data report) ≤ 10)%nat
  ∧ top_totalProducts report = length (top_data report)
  ∧ StronglySorted (λ a b, (pit_totalSales b <= pit_totalSales a)%Q) (top_data report)
  ∧ NoDup (map pit_id (top_data report))
  ∧ (∀ x, x ∈ top_data report →
          ∃ item, item ∈ productSales ∧ psl_productId item = pit_id x)
  ∧ (∀ x y, x ∈ top_data report → y ∈ product_items productSales →
            y ∉ top_data report → (pit_totalSales y <= pit_totalSales x)%Q)
  ∧ ((length (product_items productSales) ≤ 10)%nat →
     (top_totalSales report == reduce_sum psl_total productSales)%Q
     ∧ top_totalQuantitySold report = reduce_count psl_quantity productSales).
Proof.
  unfold getTopSellingProducts. simpl.
  set (all := product_items productSales).
  split; [|split; [|split; [|split; [|split; [|split]]]]].
  - rewrite length_take. lia.
  - done.
  - pose proof (sort_desc_sorted pit_totalSales all) as Hsorted.
    rewrite <- (take_drop 10 (sort_desc pit_totalSales all)) in Hsorted.
    by apply StronglySorted_app_1_l in Hsorted.
  - assert (NoDup (map pit_id (sort_desc pit_totalSales all))) as Hnd.
    { rewrite (sort_desc_perm pit_totalSales all). unfold all.
      rewrite product_items_ids, group_by_product_rows.
      apply group_rows_NoDup. constructor. }
    rewrite <- (take_drop 10 (sort_desc pit_totalSales all)), map_app in Hnd.
    by apply NoDup_app in Hnd as [? _].
  - intros x Hx.
    assert (pit_id x ∈ (group_by_product productSales).*1) as Hin.
    { rewrite <- product_items_ids. apply list_elem_of_fmap. exists x. split; [done|].
      rewrite <- (sort_desc_perm pit_totalSales). by apply elem_of_take in Hx as (? & ? & ?);
        eapply list_elem_of_lookup_2. }
    rewrite group_by_product_rows, group_rows_keys in Hin. simpl in Hin.
    destruct Hin as [Hin|?]; [by apply elem_of_nil in Hin|done].
  - intros x y. apply take_sorted_best.
  - intros Hfew.
    rewrite take_all by (by rewrite (sort_desc_perm pit_totalSales all)).
    split.
    + rewrite reduce_sum_sort_desc. unfold all, product_items. rewrite reduce_sum_map.
      rewrite (reduce_sum_ext _ (λ e, prt_totalSales e.2)) by (by intros [id data]).
      rewrite group_by_product_rows.
      rewrite (group_rows_sum _ _ _ prt_totalSales psl_total); simpl.
      * unfold reduce_sum at 1. simpl. ring.
      * intros r v. reflexivity.
      * intros r. reflexivity.
    + rewrite (reduce_count_perm _ _ _ (sort_desc_perm _ _)).
      unfold all, product_items. rewrite reduce_count_map.
      rewrite (reduce_count_ext _ (λ e, prt_totalQuantity e.2)) by (by intros [id data]).
      rewrite group_by_product_rows.
      rewrite (group_rows_count _ _ _ prt_totalQuantity psl_quantity); simpl; [|done..].
      unfold reduce_count at 1. simpl. lia.
Qed.

Lemma group_by_customer_rows customerPurchases :
  group_by_customer customerPurchases
  = group_rows (λ r : string * CustomerInfo * Q, r.1.1)
      (λ r, mkCustomerTotal r.1.2 0 0)
      (λ r e, mkCustomerTotal (cut_info e) (cut_totalPurchases e + r.2)
                (cut_invoiceCount e + 1))
      (counted_purchases customerPurchases) [].
Proof.
  unfold group_by_customer, group_rows, counted_purchases. generalize (@nil (string * CustomerTotal)).
  induction customerPurchases as [|invoice rows IH]; intros m; simpl; [done|].
  rewrite IH. unfold customer_of.
  destruct (truthy (cp_customerId invoice)) as [cid|]; [|done].
  destruct (cp_customer invoice) as [c|]; done.
Qed.

Lemma customer_items_ids customerPurchases :
  map cit_id (customer_items customerPurchases) = (group_by_customer customerPurchases).*1.
Proof. unfold customer_items. rewrite map_map. apply map_ext. by intros [id data]. Qed.

(** X5.  The top-customers report lists at most ten customers, largest purchases
    first, each customer once and each with at least one invoice, and no
    customer left out bought more than a listed one.  Rows without a customer
    are not counted.  The summary adds up the listed rows only: it equals the
    amounts and the number of all counted invoices when at most ten customers
    bought. *)
Theorem top_customers_listing customerPurchases :
  let report := getTopCustomers customerPurchases in
  (length (topc_data report) ≤ 10)%nat
  ∧ topc_totalCustomers report = length (topc_data report)
  ∧ StronglySorted (λ a b, (cit_totalPurchases b <= cit_totalPurchases a)%Q)
      (topc_data report)
  ∧ NoDup (map cit_id (topc_data report))
  ∧ Forall (λ x, 1 ≤ cit_invoiceCount x) (topc_data report)
  ∧ (∀ x, x ∈ topc_data report →
          ∃ invoice customer,
            invoice ∈ customerPurchases
            ∧ truthy (cp_customerId invoice) = Some (cit_id x)
            ∧ cp_customer invoice = Some customer)
  ∧ (∀ x y, x ∈ topc_data report → y ∈ customer_items customerPurchases →
            y ∉ topc_data report → (cit_totalPurchases y <= cit_totalPurchases x)%Q)
  ∧ ((length (customer_items customerPurchases) ≤ 10)%nat →
     (topc_totalRevenue report
      == reduce_sum (λ r, r.2) (counted_purchases customerPurchases))%Q
     ∧ topc_totalInvoices report
       = Z.of_nat (length (counted_purchases customerPurchases))).
Proof.
  unfold getTopCustomers. simpl.
  set (all := customer_items customerPurchases).
  assert (∀ x, x ∈ take 10 (sort_desc cit_totalPurchases all) → x ∈ all) as Hsub.
  { intros x Hx. rewrite <- (sort_desc_perm cit_totalPurchases).
    rewrite <- (take_drop 10 (sort_desc cit_totalPurchases all)).
    apply elem_of_app. by left. }
  split; [|split; [|split; [|split; [|split; [|split; [|split]]]]]].
  - rewrite length_take. lia.
  - done.
  - pose proof (sort_desc_sorted cit_totalPurchases all) as Hsorted.
    rewrite <- (take_drop 10 (sort_desc cit_totalPurchases all)) in Hsorted.
    by apply StronglySorted_app_1_l in Hsorted.
  - assert (NoDup (map cit_id (sort_desc cit_totalPurchases all))) as Hnd.
    { rewrite (sort_desc_perm cit_totalPurchases all). unfold all.
      rewrite customer_items_ids, group_by_customer_rows.
      apply group_rows_NoDup. constructor. }
    rewrite <- (take_drop 10 (sort_desc cit_totalPurchases all)), map_app in Hnd.
    by apply NoDup_app in Hnd as [? _].
  - apply Forall_forall. intros x Hx. apply Hsub in Hx.
    assert (Forall (λ x, 1 ≤ cit_invoiceCount x) all) as Hall; cycle 1.
    { rewrite Forall_forall in Hall. by apply Hall. }
    unfold all, customer_items. apply Forall_fmap. rewrite group_by_customer_rows.
    eapply Forall_impl.
    + apply (group_rows_Forall _ _ _ (λ v, 1 ≤ cut_invoiceCount v)); simpl.
      * intros r v Hv. lia.
      * intros r. lia.
      * constructor.
    + by intros [id data].
  - intros x Hx. apply Hsub in Hx.
    assert (cit_id x ∈ (group_by_customer customerPurchases).*1) as Hin.
    { rewrite <- customer_items_ids. apply list_elem_of_fmap. by exists x. }
    rewrite group_by_customer_rows, group_rows_keys in Hin. simpl in Hin.
    destruct Hin as [Hin|([[cid c] amount] & Hr & Hkey)]; [by apply elem_of_nil in Hin|].
    simpl in Hkey. subst cid.
    unfold counted_purchases in Hr. apply list_elem_of_omap in Hr as (invoice & Hinv & Hsome).
    exists invoice, c. split; [done|]. unfold customer_of in Hsome.
    destruct (truthy (cp_customerId invoice)) as [cid|]; [|done].
    destruct (cp_customer invoice) as [c'|]; [|done]. simpl in Hsome.
    by injection Hsome as -> ->.
  - intros x y. apply take_sorted_best.
  - intros Hfew.
    rewrite take_all by (by rewrite (sort_desc_perm cit_totalPurchases all)).
    split.
    + rewrite reduce_sum_sort_desc. unfold all, customer_items. rewrite reduce_sum_map.
      rewrite (reduce_sum_ext _ (λ e, cut_totalPurchases e.2)) by (by intros [id data]).
      rewrite group_by_customer_rows.
      rewrite (group_rows_sum _ _ _ cut_totalPurchases (λ r, r.2)); simpl.
      * unfold reduce_sum at 1. simpl. ring.
      * intros r v. reflexivity.
      * intros r. reflexivity.
    + rewrite (reduce_count_perm _ _ _ (sort_desc_perm _ _)).
      unfold all, customer_items. rewrite reduce_count_map.
      rewrite (reduce_count_ext _ (λ e, cut_invoiceCount e.2)) by (by intros [id data]).
      rewrite group_by_customer_rows.
      rewrite (group_rows_count _ _ _ cut_invoiceCount (λ _, 1)); simpl; [|done..].
      rewrite reduce_count_ones. unfold reduce_count. simpl. lia.
Qed.

(** ** The other writing handlers, case by case *)

Lemma PUT_invoice_cases env invoiceId data s :
  (∃ user existingInvoice,
      authorized isAdmin (session env) = Some user ∧
      invoices s !! invoiceId = Some existingInvoice ∧
      ((user_id user ∈ users s ∧
        PUT_invoice env invoiceId data s
        = (json (JsonInvoice (with_update data existingInvoice)) 200,
           set_activityLog
             (λ l, l ++ [mkActivityLog (user_id user) "UPDATE_INVOICE"
                           [Str ("Updated invoice #"
                                   +:+ inv_invoiceNumber existingInvoice)]])
             (set_invoices <[invoiceId := with_update data existingInvoice]> s)))
       ∨ ((user_id user ∉ users s) ∧
          PUT_invoice env invoiceId data s
          = (json (JsonError "Internal Server Error") 500,
             set_invoices <[invoiceId := with_update data existingInvoice]> s))))
  ∨ (∃ msg code, PUT_invoice env invoiceId data s = (json (JsonError msg) code, s)
                 ∧ (400 ≤ code) ∧ (code ≠ 500)).
Proof.
  unfold PUT_invoice.
  destruct (authorized isAdmin (session env)) as [user|] eqn:Hauth; cycle 1.
  { right. exists "Not authorized", 403. done. }
  destruct (invoices s !! invoiceId) as [inv|] eqn:Hinv; cycle 1.
  { right. exists "Invoice not found", 404. done. }
  left. exists user, inv. split; [done|]. split; [done|].
  unfold call, transaction, prisma_invoice_update. rewrite Hinv.
  unfold tx_activityLog_create. store_simpl.
  destruct (decide (user_id user ∈ users s)) as [Hu|Hu].
  - left. split; [done|]. by rewrite bool_decide_eq_true_2.
  - right. split; [done|]. by rewrite bool_decide_eq_false_2.
Qed.

Lemma product_invoiced_false productId s :
  product_invoiced productId s = false ↔
  ∀ i inv, invoices s !! i = Some inv → productId ∉ map ii_productId (inv_items inv).
Proof.
  unfold product_invoiced. rewrite bool_decide_eq_false. split.
  - intros H i inv Hinv Hin. apply H. by exists i, inv.
  - intros H (i & inv & Hinv & Hin). by apply (H i inv).
Qed.

Lemma customer_invoiced_false customerId s :
  customer_invoiced customerId s = false ↔
  ∀ i inv, invoices s !! i = Some inv → inv_customerId inv ≠ Some customerId.
Proof.
  unfold customer_invoiced. rewrite bool_decide_eq_false. split.
  - intros H i inv Hinv Heq. apply H. by exists i, inv.
  - intros H (i & inv & Hinv & Heq). by apply (H i inv).
Qed.

Lemma DELETE_product_cases env productId s :
  (∃ user existingProduct,
      authorized isAdmin (session env) = Some user ∧
      products s !! productId = Some existingProduct ∧
      product_invoiced productId s = false ∧
      ((user_id user ∈ users s ∧
        DELETE_product env productId s
        = ((Deleted "Product deleted successfully", 200),
           set_activityLog
             (λ l, l ++ [mkActivityLog (user_id user) "DELETE_PRODUCT"
                           [Str ("Deleted product: " +:+ p_name existingProduct)]])
             (set_stockHistory (filter (λ e, sh_productId e ≠ productId))
                (set_products (delete productId) s))))
       ∨ ((user_id user ∉ users s) ∧
          DELETE_product env productId s
          = ((Refused "Internal Server Error" None, 500),
             set_stockHistory (filter (λ e, sh_productId e ≠ productId))
               (set_products (delete productId) s)))))
  ∨ (∃ msg suggestion code,
        DELETE_product env productId s = ((Refused msg suggestion, code), s)
        ∧ (400 ≤ code) ∧ (code ≠ 500)).
Proof.
  unfold DELETE_product.
  destruct (authorized isAdmin (session env)) as [user|] eqn:Hauth; cycle 1.
  { right. exists "Not authorized", None, 403. done. }
  destruct (products s !! productId) as [p|] eqn:Hp; cycle 1.
  { right. exists "Product not found", None, 404. done. }
  destruct (product_invoiced productId s) eqn:Hused.
  { right. eexists _, _, 400. done. }
  left. exists user, p. split; [done|]. split; [done|]. split; [done|].
  unfold call, transaction, prisma_product_delete. rewrite Hp, Hused.
  unfold tx_activityLog_create. store_simpl.
  destruct (decide (user_id user ∈ users s)) as [Hu|Hu].
  - left. split; [done|]. by rewrite bool_decide_eq_true_2.
  - right. split; [done|]. by rewrite bool_decide_eq_false_2.
Qed.

Lemma DELETE_customer_cases env customerId s :
  (∃ user existingCustomer,
      authorized isAdmin (session env) = Some user ∧
      customers s !! customerId = Some existingCustomer ∧
      customer_invoiced customerId s = false ∧
      ((user_id user ∈ users s ∧
        DELETE_customer env customerId s
        = ((Deleted "Customer deleted successfully", 200),
           set_activityLog
             (λ l, l ++ [mkActivityLog (user_id user) "DELETE_CUSTOMER"
                           [Str ("Deleted customer: " +:+ c_name existingCustomer)]])
             (set_loyaltyHistory (filter (λ e, lh_customerId e ≠ customerId))
                (set_customers (delete customerId) s))))
       ∨ ((user_id user ∉ users s) ∧
          DELETE_customer env customerId s
          = ((Refused "Internal Server Error" None, 500),
             set_loyaltyHistory (filter (λ e, lh_customerId e ≠ customerId))
               (set_customers (delete customerId) s)))))
  ∨ (∃ msg suggestion code,
        DELETE_customer env customerId s = ((Refused msg suggestion, code), s)
        ∧ (400 ≤ code) ∧ (code ≠ 500)).
Proof.
  unfold DELETE_customer.
  destruct (authorized isAdmin (session env)) as [user|] eqn:Hauth; cycle 1.
  { right. exists "Not authorized", None, 403. done. }
  destruct (customers s !! customerId) as [c|] eqn:Hc; cycle 1.
  { right. exists "Customer not found", None, 404. done. }
  destruct (customer_invoiced customerId s) eqn:Hused.
  { right. eexists _, _, 400. done. }
  left. exists user, c. split; [done|]. split; [done|]. split; [done|].
  unfold call, transaction, prisma_customer_delete. rewrite Hc, Hused.
  unfold tx_activityLog_create. store_simpl.
  destruct (decide (user_id user ∈ users s)) as [Hu|Hu].
  - left. split; [done|]. by rewrite bool_decide_eq_true_2.
  - right. split; [done|]. by rewrite bool_decide_eq_false_2.
Qed.

(** ** The references of the schema are kept *)

Lemma customer_ref_ok_customers cid s s' :
  (∀ k, is_Some (customers s !! k) → is_Some (customers s' !! k)) →
  customer_ref_ok cid s = true → customer_ref_ok cid s' = true.
Proof.
  intros H. unfold customer_ref_ok. destruct cid as [c|]; [|done].
  rewrite !bool_decide_eq_true. apply H.
Qed.

Lemma product_refs_ok_mono items s s' :
  (∀ k, is_Some (products s !! k) → is_Some (products s' !! k)) →
  product_refs_ok items s = true → product_refs_ok items s' = true.
Proof.
  intros H. unfold product_refs_ok. rewrite !forallb_forall.
  intros Hall it Hit. specialize (Hall it Hit).
  rewrite bool_decide_eq_true in Hall |- *. by apply H.
Qed.

Lemma product_refs_ok_Forall items s :
  product_refs_ok items s = true ↔
  ∀ it, it ∈ items → is_Some (products s !! ii_productId it).
Proof.
  unfold product_refs_ok. rewrite forallb_forall. split.
  - intros H it Hit. apply list_elem_of_In in Hit.
    specialize (H it Hit). by apply bool_decide_eq_true in H.
  - intros H it Hit. apply list_elem_of_In in Hit.
    apply bool_decide_eq_true. by apply H.
Qed.

Lemma truthy_Some x c : truthy x = Some c → x = Some c.
Proof.
  destruct x as [v|]; simpl; [|done].
  destruct (decide (v = EmptyString)); [done|]. by intros [= ->].
Qed.

(** A transition that deletes no product, customer or invoice, changes no
    invoice's id, number, lines or customer, adds at most one invoice (with
    its references in place and an unused number), and adds ledger rows only
    for rows that exist, keeps the store consistent. *)
Lemma consistent_frame s s' :
  consistent s →
  (∀ k, is_Some (products s !! k) → is_Some (products s' !! k)) →
  (∀ k, is_Some (customers s !! k) → is_Some (customers s' !! k)) →
  (∀ i, is_Some (invoices s !! i) → is_Some (invoices s' !! i)) →
  (∀ i inv', invoices s' !! i = Some inv' →
     (∃ inv, invoices s !! i = Some inv
             ∧ inv_id inv' = inv_id inv
             ∧ inv_invoiceNumber inv' = inv_invoiceNumber inv
             ∧ inv_items inv' = inv_items inv
             ∧ inv_customerId inv' = inv_customerId inv)
     ∨ (invoices s !! i = None
        ∧ inv_id inv' = i
        ∧ (∀ j inv, invoices s !! j = Some inv →
                    inv_invoiceNumber inv ≠ inv_invoiceNumber inv')
        ∧ product_refs_ok (inv_items inv') s = true
        ∧ customer_ref_ok (inv_customerId inv') s = true)) →
  (∀ i j, is_Some (invoices s' !! i) → is_Some (invoices s' !! j) →
          invoices s !! i = None → invoices s !! j = None → i = j) →
  (∀ r, r ∈ returnOrders s' →
        r ∈ returnOrders s ∨ is_Some (invoices s' !! ro_invoiceId r)) →
  (∀ e, e ∈ stockHistory s' →
        e ∈ stockHistory s ∨ is_Some (products s' !! sh_productId e)) →
  (∀ e, e ∈ loyaltyHistory s' →
        e ∈ loyaltyHistory s ∨ is_Some (customers s' !! lh_customerId e)) →
  consistent s'.
Proof.
  intros Hs Hprod Hcust Hinvs Hinv Hnew Hret Hstock Hloy.
  split.
  - intros i inv' Hi. destruct (Hinv i inv' Hi) as [(inv & Hold & Hid & _)|(_ & Hid & _)].
    + rewrite Hid. by apply (invoice_keyed s Hs).
    + done.
  - intros i j inv' inv'' Hi Hj Hnum.
    destruct (Hinv i inv' Hi) as [(inv1 & Hold1 & _ & Hn1 & _)|(Hnone1 & _ & Hfresh1 & _)];
      destruct (Hinv j inv'' Hj) as [(inv2 & Hold2 & _ & Hn2 & _)|(Hnone2 & _ & Hfresh2 & _)].
    + apply (invoice_numbers s Hs i j inv1 inv2); congruence.
    + destruct (Hfresh2 i inv1 Hold1). congruence.
    + destruct (Hfresh1 j inv2 Hold2). congruence.
    + apply Hnew; eauto.
  - intros i inv' Hi. destruct (Hinv i inv' Hi) as [(inv & Hold & _ & _ & Hitems & _)|(_ & _ & _ & Hp & _)].
    + rewrite Hitems. apply (product_refs_ok_mono _ s); [done|].
      by apply (invoice_products s Hs i).
    + by apply (product_refs_ok_mono _ s).
  - intros i inv' Hi. destruct (Hinv i inv' Hi) as [(inv & Hold & _ & _ & _ & Hc)|(_ & _ & _ & _ & Hc)].
    + rewrite Hc. apply (customer_ref_ok_customers _ s); [done|].
      by apply (invoice_customer s Hs i).
    + by apply (customer_ref_ok_customers _ s).
  - intros r Hr. destruct (Hret r Hr) as [Hold|?]; [|done].
    by apply Hinvs, (return_invoice s Hs).
  - intros e He. destruct (Hstock e He) as [Hold|?]; [|done].
    by apply Hprod, (stock_entry_product s Hs).
  - intros e He. destruct (Hloy e He) as [Hold|?]; [|done].
    by apply Hcust, (loyalty_entry_customer s Hs).
Qed.

Lemma reversed_is_Some customerId amount (m : gmap string Customer) k :
  is_Some (reversed customerId amount m !! k) ↔ is_Some (m !! k).
Proof.
  unfold reversed. destruct (truthy customerId) as [cid|]; [|done].
  destruct (bool_decide (0 < floor_div10 amount)); [|done].
  destruct (decide (cid = k)) as [->|Hne].
  - rewrite lookup_alter_eq. by rewrite fmap_is_Some.
  - by rewrite lookup_alter_ne.
Qed.

Lemma consistent_after_create env user invoiceNumber data s :
  consistent s →
  create_accepts (invoice_of_data env user invoiceNumber data) s = true →
  consistent (after_create env user invoiceNumber data s).
Proof.
  intros Hs Hacc. unfold create_accepts in Hacc.
  apply andb_true_iff in Hacc as [Hacc Hprod].
  apply andb_true_iff in Hacc as [Hacc Hcust].
  apply andb_true_iff in Hacc as [Hacc _].
  apply andb_true_iff in Hacc as [Hfresh Hnumber].
  apply negb_true_iff, bool_decide_eq_false in Hfresh.
  apply negb_true_iff, bool_decide_eq_false in Hnumber.
  simpl in Hfresh, Hnumber, Hprod, Hcust.
  apply eq_None_not_Some in Hfresh.
  apply (consistent_frame s); [done|..]; simpl.
  - intros k. by rewrite apply_lines_is_Some.
  - intros k. by rewrite credited_is_Some.
  - intros i [inv Hi]. destruct (decide (uuid env = i)) as [<-|Hne]; [congruence|].
    rewrite lookup_insert_ne by done. eauto.
  - intros i inv' Hi. destruct (decide (uuid env = i)) as [<-|Hne].
    + rewrite lookup_insert_eq in Hi. injection Hi as <-. right.
      split; [done|]. split; [done|]. split; [|done].
      intros j inv Hj Heq. apply Hnumber. by exists j, inv.
    + rewrite lookup_insert_ne in Hi by done. left. by exists inv'.
  - intros i j [? Hi] [? Hj] Hni Hnj.
    destruct (decide (uuid env = i)) as [<-|Hne];
      [|rewrite lookup_insert_ne in Hi by done; congruence].
    destruct (decide (uuid env = j)) as [<-|Hne];
      [done|rewrite lookup_insert_ne in Hj by done; congruence].
  - intros r Hr. by left.
  - intros e He. apply elem_of_app in He as [?|He]; [by left|]. right.
    apply list_elem_of_fmap in He as (item & -> & Hitem). simpl.
    apply apply_lines_is_Some.
    apply (proj1 (product_refs_ok_Forall _ _) Hprod (item_of_data item)).
    apply list_elem_of_fmap. eauto.
  - intros e He. apply elem_of_app in He as [?|He]; [by left|]. right.
    unfold points_entries in He. unfold customer_ref_ok in Hcust.
    destruct (truthy (d_customerId data)) as [cid|]; [|by apply elem_of_nil in He].
    destruct (bool_decide (0 < floor_div10 (d_totalAmount data)));
      [|by apply elem_of_nil in He].
    apply list_elem_of_singleton in He as ->. simpl.
    apply credited_is_Some. by apply bool_decide_eq_true in Hcust.
Qed.

Lemma consistent_after_void user invoiceId existingInvoice s :
  consistent s →
  invoices s !! invoiceId = Some existingInvoice →
  consistent (after_void user invoiceId existingInvoice s).
Proof.
  intros Hs Hinv.
  apply (consistent_frame s); [done|..]; simpl.
  - intros k. by rewrite apply_lines_is_Some.
  - intros k. by rewrite reversed_is_Some.
  - intros i [inv Hi]. destruct (decide (invoiceId = i)) as [<-|Hne].
    + rewrite lookup_alter_eq, Hi. simpl. eauto.
    + rewrite lookup_alter_ne by done. eauto.
  - intros i inv' Hi. left. destruct (decide (invoiceId = i)) as [<-|Hne].
    + rewrite lookup_alter_eq, Hinv in Hi. simpl in Hi. injection Hi as <-.
      by exists existingInvoice.
    + rewrite lookup_alter_ne in Hi by done. by exists inv'.
  - intros i j [? Hi] _ Hni _. exfalso.
    destruct (decide (invoiceId = i)) as [<-|Hne]; [congruence|].
    rewrite lookup_alter_ne in Hi by done. congruence.
  - intros r Hr. by left.
  - intros e He. apply elem_of_app in He as [?|He]; [by left|]. right.
    apply list_elem_of_fmap in He as (item & -> & Hitem). simpl.
    apply apply_lines_is_Some.
    by apply (proj1 (product_refs_ok_Forall _ _)
                (invoice_products s Hs invoiceId existingInvoice Hinv)).
  - intros e He. apply elem_of_app in He as [?|He]; [by left|]. right.
    unfold reversal_entries in He.
    destruct (truthy (inv_customerId existingInvoice)) as [cid|] eqn:Hcid;
      [|by apply elem_of_nil in He].
    destruct (bool_decide (0 < floor_div10 (inv_totalAmount existingInvoice)));
      [|by apply elem_of_nil in He].
    apply list_elem_of_singleton in He as ->. simpl.
    apply reversed_is_Some. apply truthy_Some in Hcid.
    pose proof (invoice_customer s Hs invoiceId existingInvoice Hinv) as Hc.
    rewrite Hcid in Hc. by apply bool_decide_eq_true in Hc.
Qed.

Lemma consistent_after_return env user invoiceId invoice data s :
  consistent s →
  invoices s !! invoiceId = Some invoice →
  return_accepts user invoiceId invoice data s = true →
  consistent (after_return env user invoiceId invoice data s).
Proof.
  intros Hs Hinv Hacc. unfold return_accepts in Hacc.
  apply andb_true_iff in Hacc as [Hacc _].
  apply andb_true_iff in Hacc as [_ Hcompleted].
  unfold after_return. destruct (completed data).
  - apply andb_true_iff in Hcompleted as [Hlines Hrev].
    apply (consistent_frame s); [done|..]; simpl.
    + intros k. by rewrite apply_lines_is_Some.
    + intros k. by rewrite reversed_is_Some.
    + intros i [inv Hi]. destruct (allItemsReturned invoice (rd_items data)); [|eauto].
      destruct (decide (invoiceId = i)) as [<-|Hne].
      * rewrite lookup_alter_eq, Hi. simpl. eauto.
      * rewrite lookup_alter_ne by done. eauto.
    + intros i inv' Hi. left.
      destruct (allItemsReturned invoice (rd_items data)); [|by exists inv'].
      destruct (decide (invoiceId = i)) as [<-|Hne].
      * rewrite lookup_alter_eq, Hinv in Hi. simpl in Hi. injection Hi as <-.
        by exists invoice.
      * rewrite lookup_alter_ne in Hi by done. by exists inv'.
    + intros i j [? Hi] _ Hni _. exfalso.
      destruct (allItemsReturned invoice (rd_items data)); [|congruence].
      destruct (decide (invoiceId = i)) as [<-|Hne]; [congruence|].
      rewrite lookup_alter_ne in Hi by done. congruence.
    + intros r Hr. apply elem_of_app in Hr as [?|Hr]; [by left|]. right.
      apply list_elem_of_singleton in Hr as ->. simpl.
      destruct (allItemsReturned invoice (rd_items data)); [|eauto].
      rewrite lookup_alter_eq, Hinv. simpl. eauto.
    + intros e He. apply elem_of_app in He as [?|He]; [by left|]. right.
      apply list_elem_of_fmap in He as (item & -> & Hitem). simpl.
      apply apply_lines_is_Some.
      apply lines_exist_Forall in Hlines. rewrite Forall_forall in Hlines.
      apply (Hlines (rit_productId item, rit_quantity item)).
      unfold return_lines. apply list_elem_of_fmap. eauto.
    + intros e He. apply elem_of_app in He as [?|He]; [by left|]. right.
      unfold reversal_entries in He. unfold reversal_accepts in Hrev.
      destruct (truthy (inv_customerId invoice)) as [cid|] eqn:Hcid;
        [|by apply elem_of_nil in He].
      destruct (bool_decide (0 < floor_div10 (rd_totalAmount data)));
        [|by apply elem_of_nil in He].
      apply list_elem_of_singleton in He as ->. simpl.
      apply reversed_is_Some. by apply bool_decide_eq_true in Hrev.
  - apply (consistent_frame s); [done|..]; simpl; try done.
    + intros i inv' Hi. left. by exists inv'.
    + intros i j [? Hi] _ Hni _. congruence.
    + intros r Hr. apply elem_of_app in Hr as [?|Hr]; [by left|]. right.
      apply list_elem_of_singleton in Hr as ->. simpl. eauto.
    + intros e He. by left.
    + intros e He. by left.
Qed.

Lemma consistent_set_activityLog f s : consistent s → consistent (set_activityLog f s).
Proof. intros [? ? ? ? ? ? ?]. by split. Qed.

Lemma consistent_invoice_update invoiceId data existingInvoice s :
  consistent s →
  invoices s !! invoiceId = Some existingInvoice →
  consistent (set_invoices <[invoiceId := with_update data existingInvoice]> s).
Proof.
  intros Hs Hinv. apply (consistent_frame s); [done|..]; simpl; try done.
  - intros i [inv Hi]. destruct (decide (invoiceId = i)) as [<-|Hne].
    + rewrite lookup_insert_eq. eauto.
    + rewrite lookup_insert_ne by done. eauto.
  - intros i inv' Hi. left. destruct (decide (invoiceId = i)) as [<-|Hne].
    + rewrite lookup_insert_eq in Hi. injection Hi as <-. by exists existingInvoice.
    + rewrite lookup_insert_ne in Hi by done. by exists inv'.
  - intros i j [? Hi] _ Hni _. exfalso.
    destruct (decide (invoiceId = i)) as [<-|Hne]; [congruence|].
    rewrite lookup_insert_ne in Hi by done. congruence.
  - intros r Hr. by left.
  - intros e He. by left.
  - intros e He. by left.
Qed.

Lemma consistent_product_delete productId s :
  consistent s →
  product_invoiced productId s = false →
  consistent (set_stockHistory (filter (λ e, sh_productId e ≠ productId))
                (set_products (delete productId) s)).
Proof.
  intros Hs Hfree. pose proof (proj1 (product_invoiced_false _ _) Hfree) as Hnot.
  split; simpl.
  - apply (invoice_keyed s Hs).
  - apply (invoice_numbers s Hs).
  - intros i inv Hi. apply product_refs_ok_Forall. intros it Hit. simpl.
    rewrite lookup_delete_ne.
    + by apply (proj1 (product_refs_ok_Forall _ _) (invoice_products s Hs i inv Hi)).
    + intros Heq. apply (Hnot i inv Hi). rewrite Heq. apply list_elem_of_fmap. eauto.
  - apply (invoice_customer s Hs).
  - apply (return_invoice s Hs).
  - intros e He. apply list_elem_of_filter in He as [Hne He].
    rewrite lookup_delete_ne by done. by apply (stock_entry_product s Hs).
  - apply (loyalty_entry_customer s Hs).
Qed.

Lemma consistent_customer_delete customerId s :
  consistent s →
  customer_invoiced customerId s = false →
  consistent (set_loyaltyHistory (filter (λ e, lh_customerId e ≠ customerId))
                (set_customers (delete customerId) s)).
Proof.
  intros Hs Hfree. pose proof (proj1 (customer_invoiced_false _ _) Hfree) as Hnot.
  split; simpl.
  - apply (invoice_keyed s Hs).
  - apply (invoice_numbers s Hs).
  - apply (invoice_products s Hs).
  - intros i inv Hi. pose proof (invoice_customer s Hs i inv Hi) as Hc.
    unfold customer_ref_ok in *. destruct (inv_customerId inv) as [c|] eqn:Hcid; [|done].
    apply bool_decide_eq_true in Hc. apply bool_decide_eq_true. simpl.
    rewrite lookup_delete_ne; [done|]. intros Heq. apply (Hnot i inv Hi). by rewrite Heq.
  - apply (return_invoice s Hs).
  - apply (stock_entry_product s Hs).
  - intros e He. apply list_elem_of_filter in He as [Hne He].
    rewrite lookup_delete_ne by done. by apply (loyalty_entry_customer s Hs).
Qed.

Lemma consistent_opening s : opening s → consistent s.
Proof.
  intros (Hinv & Hret & Hstock & Hloy). split.
  - intros i inv Hi. by rewrite Hinv in Hi.
  - intros i j inv inv' Hi. by rewrite Hinv in Hi.
  - intros i inv Hi. by rewrite Hinv in Hi.
  - intros i inv Hi. by rewrite Hinv in Hi.
  - intros r Hr. rewrite Hret in Hr. by apply elem_of_nil in Hr.
  - intros e He. rewrite Hstock in He. by apply elem_of_nil in He.
  - intros e He. rewrite Hloy in He. by apply elem_of_nil in He.
Qed.

Lemma step_keeps_consistent s s' : consistent s → step s s' → consistent s'.
Proof.
  intros Hs Hstep. destruct Hstep as [env data s|env id s|env data s|env id data s|env id s|env id s].
  - destruct (POST_invoices_cases env data s)
      as [(user & _ & _ & Hacc & ->)|(msg & code & -> & _)]; simpl; [|done].
    by apply consistent_after_create.
  - destruct (DELETE_invoice_cases env id s)
      as [(user & inv & _ & Hinv & _ & _ & _ & ->)|(msg & code & -> & _)]; simpl; [|done].
    by apply consistent_after_void.
  - destruct (POST_returns_cases env data s)
      as [(user & id & inv & _ & _ & _ & Hinv & _ & Hacc & ->)|(msg & code & -> & _)];
      simpl; [|done].
    by apply consistent_after_return.
  - destruct (PUT_invoice_cases env id data s)
      as [(user & inv & _ & Hinv & [[_ ->]|[_ ->]])|(msg & code & -> & _)]; simpl; [| |done].
    + by apply consistent_set_activityLog, consistent_invoice_update.
    + by apply consistent_invoice_update.
  - destruct (DELETE_product_cases env id s)
      as [(user & p & _ & _ & Hfree & [[_ ->]|[_ ->]])|(msg & sg & code & -> & _)];
      simpl; [| |done].
    + by apply consistent_set_activityLog, consistent_product_delete.
    + by apply consistent_product_delete.
  - destruct (DELETE_customer_cases env id s)
      as [(user & c & _ & _ & Hfree & [[_ ->]|[_ ->]])|(msg & sg & code & -> & _)];
      simpl; [| |done].
    + by apply consistent_set_activityLog, consistent_customer_delete.
    + by apply consistent_customer_delete.
Qed.

(** X11.  Every handler that writes keeps the references of the schema: rows stay
    under their id, invoice numbers stay unique, every invoice line has its
    product and every invoice its customer, every return its invoice, and
    every ledger row its product or customer.  A product or a customer is
    only deleted when no invoice refers to it. *)
Theorem step_consistent s s' : consistent s → step s s' → consistent s'.
Proof. apply step_keeps_consistent. Qed.

Lemma reaches_consistent s s' : consistent s → reaches s s' → consistent s'.
Proof.
  intros Hs Hreach. induction Hreach as [s|s s1 s2 Hstep _ IH]; [done|].
  apply IH. by apply (step_keeps_consistent s).
Qed.

Lemma reversal_accepts_consistent s i inv amount :
  consistent s → invoices s !! i = Some inv →
  reversal_accepts (inv_customerId inv) amount s = true.
Proof.
  intros Hs Hinv. unfold reversal_accepts.
  destruct (truthy (inv_customerId inv)) as [cid|] eqn:Hcid; [|done].
  destruct (bool_decide (0 < floor_div10 amount)); [|done].
  apply truthy_Some in Hcid.
  pose proof (invoice_customer s Hs i inv Hinv) as Hc. by rewrite Hcid in Hc.
Qed.

Lemma void_accepts_consistent s user invoiceId existingInvoice :
  consistent s →
  invoices s !! invoiceId = Some existingInvoice →
  user_id user ∈ users s →
  void_accepts user invoiceId existingInvoice s = true.
Proof.
  intros Hs Hinv Huser. unfold void_accepts. repeat (apply andb_true_iff; split).
  - rewrite lines_exist_invoice_lines. by apply (invoice_products s Hs invoiceId).
  - apply bool_decide_eq_true. eauto.
  - by apply (reversal_accepts_consistent s invoiceId).
  - by apply bool_decide_eq_true.
Qed.

Lemma return_accepts_consistent s user invoiceId invoice data :
  consistent s →
  invoices s !! invoiceId = Some invoice →
  check_return_items invoice (rd_items data) = None →
  user_id user ∈ users s →
  return_accepts user invoiceId invoice data s = true.
Proof.
  intros Hs Hinv Hcheck Huser. unfold return_accepts.
  repeat (apply andb_true_iff; split).
  - apply bool_decide_eq_true. eauto.
  - destruct (completed data); [|done]. apply andb_true_iff. split.
    + apply lines_exist_Forall, Forall_forall. intros [k q] Hl. simpl.
      apply elem_of_return_lines in Hl as (item & Hitem & <- & _).
      apply check_return_items_None in Hcheck. rewrite Forall_forall in Hcheck.
      destruct (Hcheck item Hitem) as (line & Hfind & _).
      apply find_invoice_item_Some in Hfind as [Hline <-].
      by apply (proj1 (product_refs_ok_Forall _ _)
                  (invoice_products s Hs invoiceId invoice Hinv)).
    + by apply (reversal_accepts_consistent s invoiceId).
  - by apply bool_decide_eq_true.
Qed.

(** X12.  From a store without invoices, whatever requests have been served since:
    an admin's void of an invoice that is there, is not VOIDED and has no
    return is answered 200, and a manager's return that passes the
    validation of its lines is answered 201.  Neither runs into a missing
    product, customer or invoice, because the handlers keep the references of
    the schema. *)
Theorem eligible_requests_served s0 s :
  opening s0 → reaches s0 s →
  (∀ env invoiceId user existingInvoice,
      authorized isAdmin (session env) = Some user →
      user_id user ∈ users s →
      invoices s !! invoiceId = Some existingInvoice →
      inv_status existingInvoice ≠ "VOIDED" →
      (∀ r, r ∈ returnOrders s → ro_invoiceId r ≠ invoiceId) →
      res_status (DELETE_invoice env invoiceId s).1 = 200)
  ∧ (∀ env data user invoiceId invoice,
      authorized isManager (session env) = Some user →
      user_id user ∈ users s →
      truthy (rd_invoiceId data) = Some invoiceId →
      rd_items data ≠ [] →
      invoices s !! invoiceId = Some invoice →
      check_return_items invoice (rd_items data) = None →
      res_status (POST_returns env data s).1 = 201).
Proof.
  intros Hopen Hreach.
  assert (consistent s) as Hs by (by eapply reaches_consistent, Hreach; apply consistent_opening).
  split.
  - intros env invoiceId user inv Hauth Huser Hinv Hst Hret.
    pose proof (proj2 (no_returns_iff _ _) Hret) as Hnone.
    by rewrite (DELETE_invoice_voided _ _ _ _ _ Hauth Hinv Hst Hnone
                  (void_accepts_consistent _ _ _ _ Hs Hinv Huser)).
  - intros env data user invoiceId invoice Hauth Huser Hid Hne Hinv Hcheck.
    by rewrite (POST_returns_created _ _ _ _ _ _ Hauth Hid Hne Hinv Hcheck
                  (return_accepts_consistent _ _ _ _ _ Hs Hinv Hcheck Huser)).
Qed.

Lemma step_consistent_witness : consistent shop_after_sale.
Proof.
  apply (step_consistent shop shop_after_sale).
  - apply consistent_opening. repeat split; reflexivity.
  - apply (step_POST_invoices (till "i1" "1234") small_sale shop).
Defined.

Lemma eligible_requests_served_witness :
  res_status (DELETE_invoice back_office "i1" shop_after_sale).1 = 200
  ∧ res_status (POST_returns back_office pen_back shop_after_sale).1 = 201.
Proof.
  assert (opening shop) as Hopen by (repeat split; reflexivity).
  assert (reaches shop shop_after_sale) as Hreach.
  { eapply rtc_l; [|apply rtc_refl].
    apply (step_POST_invoices (till "i1" "1234") small_sale shop). }
  destruct (eligible_requests_served shop shop_after_sale Hopen Hreach) as [Hvoid Hreturn].
  split.
  - apply (Hvoid back_office "i1" (mkSession "u2" "ADMIN")
             (invoice_of_data (till "i1" "1234") (mkSession "u1" "ADMIN")
                "INV-20240101-1234" small_sale)).
    + reflexivity.
    + vm_compute. repeat constructor.
    + reflexivity.
    + vm_compute. discriminate.
    + intros r Hr. vm_compute in Hr. by apply elem_of_nil in Hr.
  - apply (Hreturn back_office pen_back (mkSession "u2" "ADMIN") "i1"
             (invoice_of_data (till "i1" "1234") (mkSession "u1" "ADMIN")
                "INV-20240101-1234" small_sale)).
    + reflexivity.
    + vm_compute. repeat constructor.
    + reflexivity.
    + discriminate.
    + reflexivity.
    + reflexivity.
Defined.

(** ** The stock ledger *)

Lemma ledger_stock_app k l1 l2 :
  ledger_stock k (l1 ++ l2) = ledger_stock k l1 + ledger_stock k l2.
Proof.
  unfold ledger_stock. induction l1 as [|e l1 IH]; simpl; [done|].
  destruct (decide (sh_productId e = k)); lia.
Qed.

Lemma ledger_stock_sale k invoiceNumber invoice data :
  ledger_stock k (map (sale_entry invoiceNumber invoice) (d_items data))
  = moved k (sale_lines data).
Proof.
  unfold sale_lines, ledger_stock. induction (d_items data) as [|item items IH]; simpl; [done|].
  rewrite IH. unfold ledger_delta. simpl. by destruct (decide (it_productId item = k)).
Qed.

Lemma ledger_stock_restock k invoiceId existingInvoice :
  ledger_stock k (map (restock_entry invoiceId existingInvoice) (inv_items existingInvoice))
  = moved k (invoice_lines existingInvoice).
Proof.
  unfold invoice_lines, ledger_stock.
  induction (inv_items existingInvoice) as [|item items IH]; simpl; [done|].
  rewrite IH. unfold ledger_delta. simpl. by destruct (decide (ii_productId item = k)).
Qed.

Lemma ledger_stock_return k invoiceId invoice data :
  ledger_stock k (map (return_entry invoiceId invoice) (rd_items data))
  = moved k (return_lines data).
Proof.
  unfold return_lines, ledger_stock. induction (rd_items data) as [|item items IH]; simpl; [done|].
  rewrite IH. unfold ledger_delta. simpl. by destruct (decide (rit_productId item = k)).
Qed.

Lemma ledger_stock_filter k k' l :
  k ≠ k' →
  ledger_stock k (filter (λ e, sh_productId e ≠ k') l) = ledger_stock k l.
Proof.
  intros Hne. unfold ledger_stock. induction l as [|e l IH]; [done|].
  rewrite filter_cons. destruct (decide (sh_productId e ≠ k')) as [Hk|Hk]; simpl.
  - by rewrite IH.
  - rewrite IH. apply dec_stable in Hk.
    destruct (decide (sh_productId e = k)); [congruence|done].
Qed.

Lemma apply_lines_stock lines (m : gmap string Product) k p p' :
  m !! k = Some p → apply_lines lines m !! k = Some p' →
  p_stock p' = p_stock p + moved k lines.
Proof.
  intros Hp. rewrite apply_lines_lookup, Hp. simpl. by intros [= <-].
Qed.

Lemma step_stock_ledger s s' k p p' :
  step s s' → products s !! k = Some p → products s' !! k = Some p' →
  p_stock p' - ledger_stock k (stockHistory s')
  = p_stock p - ledger_stock k (stockHistory s).
Proof.
  intros Hstep Hp.
  destruct Hstep as [env data s|env id s|env data s|env id data s|env id s|env id s].
  - destruct (POST_invoices_cases env data s)
      as [(user & _ & _ & _ & ->)|(msg & code & -> & _)]; simpl;
      [|rewrite Hp; by intros [= <-]].
    intros Hp'. rewrite (apply_lines_stock _ _ _ _ _ Hp Hp').
    rewrite ledger_stock_app, ledger_stock_sale. lia.
  - destruct (DELETE_invoice_cases env id s)
      as [(user & inv & _ & _ & _ & _ & _ & ->)|(msg & code & -> & _)]; simpl;
      [|rewrite Hp; by intros [= <-]].
    intros Hp'. rewrite (apply_lines_stock _ _ _ _ _ Hp Hp').
    rewrite ledger_stock_app, ledger_stock_restock. lia.
  - destruct (POST_returns_cases env data s)
      as [(user & id & inv & _ & _ & _ & _ & _ & _ & ->)|(msg & code & -> & _)]; simpl;
      [|rewrite Hp; by intros [= <-]].
    unfold after_return. destruct (completed data); simpl.
    + intros Hp'. rewrite (apply_lines_stock _ _ _ _ _ Hp Hp').
      rewrite ledger_stock_app, ledger_stock_return. lia.
    + rewrite Hp. by intros [= <-].
  - destruct (PUT_invoice_cases env id data s)
      as [(user & inv & _ & _ & [[_ ->]|[_ ->]])|(msg & code & -> & _)]; store_simpl;
      rewrite Hp; by intros [= <-].
  - destruct (DELETE_product_cases env id s)
      as [(user & q & _ & _ & _ & [[_ ->]|[_ ->]])|(msg & sg & code & -> & _)]; store_simpl;
      [| |rewrite Hp; by intros [= <-]].
    + intros Hp'. apply lookup_delete_Some in Hp' as [Hne Hp'].
      rewrite Hp in Hp'. injection Hp' as <-. by rewrite ledger_stock_filter.
    + intros Hp'. apply lookup_delete_Some in Hp' as [Hne Hp'].
      rewrite Hp in Hp'. injection Hp' as <-. by rewrite ledger_stock_filter.
  - destruct (DELETE_customer_cases env id s)
      as [(user & c & _ & _ & _ & [[_ ->]|[_ ->]])|(msg & sg & code & -> & _)]; store_simpl;
      rewrite Hp; by intros [= <-].
Qed.

(** No handler of [step] adds a product. *)
Lemma step_product_origin s s' k :
  step s s' → is_Some (products s' !! k) → is_Some (products s !! k).
Proof.
  intros Hstep.
  destruct Hstep as [env data s|env id s|env data s|env id data s|env id s|env id s].
  - destruct (POST_invoices_cases env data s)
      as [(user & _ & _ & _ & ->)|(msg & code & -> & _)]; simpl; [|done].
    by rewrite apply_lines_is_Some.
  - destruct (DELETE_invoice_cases env id s)
      as [(user & inv & _ & _ & _ & _ & _ & ->)|(msg & code & -> & _)]; simpl; [|done].
    by rewrite apply_lines_is_Some.
  - destruct (POST_returns_cases env data s)
      as [(user & id & inv & _ & _ & _ & _ & _ & _ & ->)|(msg & code & -> & _)]; simpl;
      [|done].
    unfold after_return. destruct (completed data); simpl; [|done].
    by rewrite apply_lines_is_Some.
  - by destruct (PUT_invoice_cases env id data s)
      as [(user & inv & _ & _ & [[_ ->]|[_ ->]])|(msg & code & -> & _)]; store_simpl.
  - destruct (DELETE_product_cases env id s)
      as [(user & q & _ & _ & _ & [[_ ->]|[_ ->]])|(msg & sg & code & -> & _)]; store_simpl;
      [| |done].
    + intros [q' Hq]. apply lookup_delete_Some in Hq as [_ Hq]. eauto.
    + intros [q' Hq]. apply lookup_delete_Some in Hq as [_ Hq]. eauto.
  - by destruct (DELETE_customer_cases env id s)
      as [(user & c & _ & _ & _ & [[_ ->]|[_ ->]])|(msg & sg & code & -> & _)]; store_simpl.
Qed.

Lemma reaches_product_origin s s' k :
  reaches s s' → is_Some (products s' !! k) → is_Some (products s !! k).
Proof.
  intros Hreach. induction Hreach as [s|s s1 s2 Hstep _ IH]; [done|].
  intros H. by apply (step_product_origin s s1), IH.
Qed.

(** X13.  Whatever requests the writing handlers have served between two stores,
    the stock of a product that is still there has moved by exactly what the
    stock ledger has recorded for it since: sales are taken out, voids and
    completed returns are put back.  From a store with an empty ledger, the
    stock is the opening stock plus the ledger's sum. *)
Theorem stock_ledger_reconciles s0 s k p0 p :
  reaches s0 s →
  products s0 !! k = Some p0 →
  products s !! k = Some p →
  p_stock p - ledger_stock k (stockHistory s)
  = p_stock p0 - ledger_stock k (stockHistory s0).
Proof.
  intros Hreach. revert p0. induction Hreach as [s|s s1 s2 Hstep Hreach IH]; intros p0 Hp0 Hp.
  - rewrite Hp0 in Hp. by injection Hp as <-.
  - destruct (reaches_product_origin s1 s2 k Hreach) as [p1 Hp1]; [eauto|].
    rewrite (IH p1 Hp1 Hp). by apply (step_stock_ledger s s1).
Qed.

Lemma stock_ledger_reconciles_witness :
  1 - 1 - ledger_stock "p1" (stockHistory shop_after_sale)
  = 1 - ledger_stock "p1" (stockHistory shop).
Proof.
  apply (stock_ledger_reconciles shop shop_after_sale "p1"
           (mkProduct "Pen" 2 1 None) (mkProduct "Pen" 2 (1 - 1) None)).
  - eapply rtc_l; [|apply rtc_refl].
    apply (step_POST_invoices (till "i1" "1234") small_sale shop).
  - reflexivity.
  - reflexivity.
Defined.

(** ** The loyalty ledger *)

Lemma ledger_points_app k l1 l2 :
  ledger_points k (l1 ++ l2) = ledger_points k l1 + ledger_points k l2.
Proof.
  unfold ledger_points. induction l1 as [|e l1 IH]; simpl; [done|].
  destruct (decide (lh_customerId e = k)); lia.
Qed.

Lemma ledger_points_filter k k' l :
  k ≠ k' →
  ledger_points k (filter (λ e, lh_customerId e ≠ k') l) = ledger_points k l.
Proof.
  intros Hne. unfold ledger_points. induction l as [|e l IH]; [done|].
  rewrite filter_cons. destruct (decide (lh_customerId e ≠ k')) as [Hk|Hk]; simpl.
  - by rewrite IH.
  - rewrite IH. apply dec_stable in Hk.
    destruct (decide (lh_customerId e = k)); [congruence|done].
Qed.

Lemma floor_div10_nonneg x : (0 <= x)%Q → 0 ≤ floor_div10 x.
Proof.
  intros Hx. unfold floor_div10. change 0 with (Qfloor 0).
  apply Qfloor_resp_le. unfold Qdiv. by apply Qmult_le_0_compat.
Qed.

Lemma reversal_unledgered customerId amount description s k :
  (λ c, c_loyaltyPoints c
        - ledger_points k (loyaltyHistory s
                             ++ reversal_entries customerId amount description))
    <$> reversed customerId amount (customers s) !! k
  = unledgered_points s k.
Proof.
  unfold unledgered_points, reversed, reversal_entries.
  destruct (truthy customerId) as [cid|]; [|by rewrite app_nil_r].
  destruct (bool_decide (0 < floor_div10 amount)); [|by rewrite app_nil_r].
  destruct (decide (cid = k)) as [->|Hne].
  - rewrite lookup_alter_eq. destruct (customers s !! k) as [c|]; simpl; [|done].
    f_equal. rewrite ledger_points_app. unfold ledger_points at 2. simpl.
    rewrite decide_True by done. lia.
  - rewrite lookup_alter_ne by done. destruct (customers s !! k) as [c|]; simpl; [|done].
    f_equal. rewrite ledger_points_app. unfold ledger_points at 2. simpl.
    rewrite decide_False by done. lia.
Qed.

(** X14.  The loyalty points of a customer keep in step with the loyalty ledger:
    an invoice whose total is not negative, a void and a return each move the
    balance by what they add to the ledger, whether they succeed or not.  An
    invoice that is accepted with a total below zero takes points off its
    customer and writes no ledger row for them. *)
Theorem loyalty_ledger_reconciles s k :
  (∀ env data, (0 <= d_totalAmount data)%Q →
      unledgered_points (POST_invoices env data s).2 k = unledgered_points s k)
  ∧ (∀ env data,
      res_status (POST_invoices env data s).1 = 201 →
      truthy (d_customerId data) = Some k →
      floor_div10 (d_totalAmount data) < 0 →
      unledgered_points (POST_invoices env data s).2 k
      = (λ n, n + floor_div10 (d_totalAmount data)) <$> unledgered_points s k)
  ∧ (∀ env invoiceId,
      unledgered_points (DELETE_invoice env invoiceId s).2 k = unledgered_points s k)
  ∧ (∀ env data,
      unledgered_points (POST_returns env data s).2 k = unledgered_points s k).
Proof.
  split; [|split; [|split]].
  - intros env data Htotal. apply floor_div10_nonneg in Htotal.
    destruct (POST_invoices_cases env data s)
      as [(user & _ & _ & _ & ->)|(msg & code & -> & _)]; simpl; [|done].
    unfold unledgered_points, after_create, credited, points_entries. simpl.
    rewrite ledger_points_app.
    destruct (truthy (d_customerId data)) as [cid|]; [|by rewrite Z.add_0_r].
    destruct (decide (cid = k)) as [->|Hne].
    + rewrite lookup_alter_eq. destruct (customers s !! k) as [c|]; simpl; [|done].
      f_equal. case_bool_decide; unfold ledger_points at 2; simpl.
      * rewrite decide_True by done. lia.
      * lia.
    + rewrite lookup_alter_ne by done.
      case_bool_decide; unfold ledger_points at 2; simpl; [|by rewrite Z.add_0_r].
      rewrite decide_False by done. by rewrite Z.add_0_r.
  - intros env data H201 Hcid Hneg.
    destruct (POST_invoices_cases env data s)
      as [(user & _ & _ & _ & Heq)|(msg & code & Heq & Hcode)];
      rewrite Heq in H201 |- *; simpl in *; [|lia].
    unfold unledgered_points, after_create, credited, points_entries. simpl.
    rewrite Hcid, lookup_alter_eq. rewrite bool_decide_eq_false_2 by lia.
    rewrite app_nil_r. destruct (customers s !! k) as [c|]; simpl; [|done].
    f_equal. lia.
  - intros env invoiceId.
    destruct (DELETE_invoice_cases env invoiceId s)
      as [(user & inv & _ & _ & _ & _ & _ & ->)|(msg & code & -> & _)]; simpl; [|done].
    apply reversal_unledgered.
  - intros env data.
    destruct (POST_returns_cases env data s)
      as [(user & id & inv & _ & _ & _ & _ & _ & _ & ->)|(msg & code & -> & _)]; simpl;
      [|done].
    unfold after_return. destruct (completed data); [|done].
    apply reversal_unledgered.
Qed.

Lemma loyalty_ledger_reconciles_witness :
  unledgered_points (POST_invoices (till "i1" "1234") small_sale shop).2 "c1"
  = unledgered_points shop "c1"
  ∧ unledgered_points (POST_invoices (till "i1" "1234") negative_sale shop).2 "c1"
    = (λ n, n + floor_div10 (d_totalAmount negative_sale)) <$> unledgered_points shop "c1".
Proof.
  destruct (loyalty_ledger_reconciles shop "c1") as (Hsale & Hnegative & _).
  split.
  - apply Hsale. vm_compute. discriminate.
  - apply Hnegative; reflexivity.
Defined.

(** ** What a request leaves as it is *)

Lemma step_invoice_kept s s' i inv :
  step s s' → invoices s !! i = Some inv →
  ∃ inv', invoices s' !! i = Some inv' ∧ sale_of inv' = sale_of inv.
Proof.
  intros Hstep Hi.
  destruct Hstep as [env data s|env id s|env data s|env id data s|env id s|env id s].
  - destruct (POST_invoices_cases env data s)
      as [(user & _ & _ & Hacc & ->)|(msg & code & -> & _)]; simpl; [|eauto].
    unfold create_accepts in Hacc. repeat (apply andb_true_iff in Hacc as [Hacc ?]).
    apply negb_true_iff, bool_decide_eq_false in Hacc. simpl in Hacc.
    exists inv. split; [|done]. rewrite lookup_insert_ne; [done|].
    intros Heq. apply Hacc. rewrite Heq. eauto.
  - destruct (DELETE_invoice_cases env id s)
      as [(user & inv0 & _ & _ & _ & _ & _ & ->)|(msg & code & -> & _)]; simpl; [|eauto].
    destruct (decide (id = i)) as [->|Hne].
    + exists (with_status "VOIDED" inv). by rewrite lookup_alter_eq, Hi.
    + exists inv. by rewrite lookup_alter_ne.
  - destruct (POST_returns_cases env data s)
      as [(user & id & inv0 & _ & _ & _ & _ & _ & _ & ->)|(msg & code & -> & _)]; simpl;
      [|eauto].
    unfold after_return. destruct (completed data); simpl; [|eauto].
    destruct (allItemsReturned inv0 (rd_items data)); [|eauto].
    destruct (decide (id = i)) as [->|Hne].
    + exists (with_status "REFUNDED" inv). by rewrite lookup_alter_eq, Hi.
    + exists inv. by rewrite lookup_alter_ne.
  - destruct (PUT_invoice_cases env id data s)
      as [(user & inv0 & _ & Hinv0 & [[_ ->]|[_ ->]])|(msg & code & -> & _)]; store_simpl;
      [| |eauto].
    + destruct (decide (id = i)) as [->|Hne].
      * rewrite Hi in Hinv0. injection Hinv0 as <-.
        exists (with_update data inv). by rewrite lookup_insert_eq.
      * exists inv. by rewrite lookup_insert_ne.
    + destruct (decide (id = i)) as [->|Hne].
      * rewrite Hi in Hinv0. injection Hinv0 as <-.
        exists (with_update data inv). by rewrite lookup_insert_eq.
      * exists inv. by rewrite lookup_insert_ne.
  - destruct (DELETE_product_cases env id s)
      as [(user & q & _ & _ & _ & [[_ ->]|[_ ->]])|(msg & sg & code & -> & _)]; store_simpl;
      eauto.
  - destruct (DELETE_customer_cases env id s)
      as [(user & c & _ & _ & _ & [[_ ->]|[_ ->]])|(msg & sg & code & -> & _)]; store_simpl;
      eauto.
Qed.

Lemma invoices_kept_along s s' i inv :
  reaches s s' →
  invoices s !! i = Some inv →
  ∃ inv', invoices s' !! i = Some inv' ∧ sale_of inv' = sale_of inv.
Proof.
  intros Hreach. revert inv. induction Hreach as [s|s s1 s2 Hstep _ IH]; intros inv Hi.
  - eauto.
  - destruct (step_invoice_kept s s1 i inv Hstep Hi) as (inv1 & Hi1 & Hsale1).
    destruct (IH inv1 Hi1) as (inv2 & Hi2 & Hsale2).
    exists inv2. split; [done|]. by rewrite Hsale2.
Qed.

(** X15.  An invoice is never deleted, and what it records of the sale never
    changes: whatever requests the writing handlers serve afterwards, its
    number, its customer, its lines and its amounts stay as they were
    stored.  Only the status and the payment details can change. *)
Theorem invoices_keep_their_sale s s' i inv :
  reaches s s' →
  invoices s !! i = Some inv →
  ∃ inv', invoices s' !! i = Some inv' ∧ sale_of inv' = sale_of inv.
Proof. apply invoices_kept_along. Qed.

Lemma invoices_keep_their_sale_witness :
  ∃ inv', invoices (DELETE_invoice back_office "i1" shop_after_sale).2 !! "i1" = Some inv'
          ∧ sale_of inv'
            = sale_of (invoice_of_data (till "i1" "1234") (mkSession "u1" "ADMIN")
                         "INV-20240101-1234" small_sale).
Proof.
  apply (invoices_keep_their_sale shop_after_sale).
  - eapply rtc_l; [|apply rtc_refl].
    apply (step_DELETE_invoice back_office "i1" shop_after_sale).
  - reflexivity.
Defined.

Lemma filter_all {A} (P : A → Prop) `{∀ x, Decision (P x)} (l : list A) :
  (∀ x, x ∈ l → P x) → filter P l = l.
Proof.
  induction l as [|x l IH]; intros Hall; [done|].
  rewrite filter_cons, decide_True by (apply Hall; left).
  f_equal. apply IH. intros y Hy. apply Hall. by right.
Qed.

Lemma filter_same {A} (P Q : A → Prop) `{∀ x, Decision (P x)} `{∀ x, Decision (Q x)}
    (l : list A) :
  (∀ x, x ∈ l → P x ↔ Q x) → filter P l = filter Q l.
Proof.
  induction l as [|x l IH]; intros Hall; [done|].
  rewrite !filter_cons. rewrite IH by (intros y Hy; apply Hall; by right).
  destruct (decide (P x)) as [HP|HP], (decide (Q x)) as [HQ|HQ]; try done.
  - exfalso. apply HQ, (Hall x); [left|done].
  - exfalso. apply HP, (Hall x); [left|done].
Qed.

Ltac grows := first [reflexivity | apply prefix_app_r; reflexivity].
Ltac all_grow := split; [|split; [|split]]; grows.

(** X16.  The ledgers only grow.  A request served from a store whose references
    are intact leaves the activity log and the return orders it found as a
    prefix of the new ones; the same holds for the stock ledger and the
    loyalty ledger, apart from the rows of a product or a customer that the
    request deleted, which go with it. *)
Theorem ledgers_append_only s s' :
  consistent s → step s s' →
  activityLog s `prefix_of` activityLog s'
  ∧ returnOrders s `prefix_of` returnOrders s'
  ∧ filter (λ e, is_Some (products s' !! sh_productId e)) (stockHistory s)
      `prefix_of` stockHistory s'
  ∧ filter (λ e, is_Some (customers s' !! lh_customerId e)) (loyaltyHistory s)
      `prefix_of` loyaltyHistory s'.
Proof.
  intros Hs Hstep.
  pose proof (stock_entry_product s Hs) as Hstock.
  pose proof (loyalty_entry_customer s Hs) as Hloyal.
  assert (∀ m : gmap string Product,
            (∀ k, is_Some (products s !! k) → is_Some (m !! k)) →
            filter (λ e, is_Some (m !! sh_productId e)) (stockHistory s)
            = stockHistory s) as Hkeep_stock.
  { intros s1 H. apply filter_all. intros e He. by apply H, Hstock. }
  assert (∀ m : gmap string Customer,
            (∀ k, is_Some (customers s !! k) → is_Some (m !! k)) →
            filter (λ e, is_Some (m !! lh_customerId e)) (loyaltyHistory s)
            = loyaltyHistory s) as Hkeep_loyal.
  { intros s1 H. apply filter_all. intros e He. by apply H, Hloyal. }
  destruct Hstep as [env data s|env id s|env data s|env id s data|env id s|env id s].
  - destruct (POST_invoices_cases env data s)
      as [(user & _ & _ & _ & ->)|(msg & code & -> & _)]; simpl.
    + rewrite Hkeep_stock by (intros k; simpl; by rewrite apply_lines_is_Some).
      rewrite Hkeep_loyal by (intros k; simpl; by rewrite credited_is_Some).
      simpl. all_grow.
    + rewrite Hkeep_stock, Hkeep_loyal by done. all_grow.
  - destruct (DELETE_invoice_cases env id s)
      as [(user & inv & _ & _ & _ & _ & _ & ->)|(msg & code & -> & _)]; simpl.
    + rewrite Hkeep_stock by (intros k; simpl; by rewrite apply_lines_is_Some).
      rewrite Hkeep_loyal by (intros k; simpl; by rewrite reversed_is_Some).
      simpl. all_grow.
    + rewrite Hkeep_stock, Hkeep_loyal by done. all_grow.
  - destruct (POST_returns_cases env data s)
      as [(user & id & inv & _ & _ & _ & _ & _ & _ & ->)|(msg & code & -> & _)]; simpl.
    + unfold after_return. destruct (completed data); simpl.
      * rewrite Hkeep_stock by (intros k; simpl; by rewrite apply_lines_is_Some).
        rewrite Hkeep_loyal by (intros k; simpl; by rewrite reversed_is_Some).
        simpl. all_grow.
      * rewrite Hkeep_stock, Hkeep_loyal by done.
        simpl. all_grow.
    + rewrite Hkeep_stock, Hkeep_loyal by done. all_grow.
  - destruct (PUT_invoice_cases env id s data)
      as [(user & inv & _ & _ & [[_ ->]|[_ ->]])|(msg & code & -> & _)];
      store_simpl; rewrite Hkeep_stock, Hkeep_loyal by done;
      all_grow.
  - assert (filter (λ e, is_Some (delete id (products s) !! sh_productId e)) (stockHistory s)
            = filter (λ e, sh_productId e ≠ id) (stockHistory s)) as Hgone.
    { apply filter_same. intros e He. split.
      - intros [q Hq]. by apply lookup_delete_Some in Hq as [? _].
      - intros Hne. destruct (Hstock e He) as [q Hq]. exists q.
        by apply lookup_delete_Some. }
    destruct (DELETE_product_cases env id s)
      as [(user & q & _ & _ & _ & [[_ ->]|[_ ->]])|(msg & sg & code & -> & _)];
      [| |simpl; rewrite Hkeep_stock, Hkeep_loyal by done; all_grow];
      store_simpl; rewrite Hkeep_loyal by done; rewrite Hgone;
      all_grow.
  - assert (filter (λ e, is_Some (delete id (customers s) !! lh_customerId e))
              (loyaltyHistory s)
            = filter (λ e, lh_customerId e ≠ id) (loyaltyHistory s)) as Hgone.
    { apply filter_same. intros e He. split.
      - intros [q Hq]. by apply lookup_delete_Some in Hq as [? _].
      - intros Hne. destruct (Hloyal e He) as [q Hq]. exists q.
        by apply lookup_delete_Some. }
    destruct (DELETE_customer_cases env id s)
      as [(user & q & _ & _ & _ & [[_ ->]|[_ ->]])|(msg & sg & code & -> & _)];
      [| |simpl; rewrite Hkeep_stock, Hkeep_loyal by done; all_grow];
      store_simpl; rewrite Hkeep_stock by done; rewrite Hgone;
      all_grow.
Qed.

Lemma ledgers_append_only_witness :
  activityLog shop `prefix_of` activityLog shop_after_sale
  ∧ returnOrders shop `prefix_of` returnOrders shop_after_sale
  ∧ filter (λ e, is_Some (products shop_after_sale !! sh_productId e)) (stockHistory shop)
      `prefix_of` stockHistory shop_after_sale
  ∧ filter (λ e, is_Some (customers shop_after_sale !! lh_customerId e))
      (loyaltyHistory shop)
      `prefix_of` loyaltyHistory shop_after_sale.
Proof.
  apply (ledgers_append_only shop shop_after_sale).
  - apply consistent_opening. repeat split; reflexivity.
  - apply (step_POST_invoices (till "i1" "1234") small_sale shop).
Defined.

(** ** Requests one after the other *)

Lemma check_return_items_lines inv inv' items :
  inv_items inv' = inv_items inv →
  check_return_items inv' items = check_return_items inv items.
Proof.
  intros Heq. induction items as [|item rest IH]; simpl; [done|].
  by rewrite Heq, IH.
Qed.

Lemma reversal_accepts_customers customerId amount s s' :
  (∀ k, is_Some (customers s !! k) → is_Some (customers s' !! k)) →
  reversal_accepts customerId amount s = true →
  reversal_accepts customerId amount s' = true.
Proof.
  intros Hsub. unfold reversal_accepts.
  destruct (truthy customerId) as [cid|]; [|done].
  destruct (bool_decide (0 < floor_div10 amount)); [|done].
  intros H. apply bool_decide_eq_true in H. apply bool_decide_eq_true. by apply Hsub.
Qed.

Lemma after_return_invoice env user invoiceId invoice data s :
  invoices s !! invoiceId = Some invoice →
  ∃ invoice',
    invoices (after_return env user invoiceId invoice data s) !! invoiceId = Some invoice'
    ∧ sale_of invoice' = sale_of invoice.
Proof.
  intros Hinv. unfold after_return.
  destruct (completed data); simpl; [|eauto].
  destruct (allItemsReturned invoice (rd_items data)); [|eauto].
  exists (with_status "REFUNDED" invoice). by rewrite lookup_alter_eq, Hinv.
Qed.

Lemma after_return_products env user invoiceId invoice data s k :
  is_Some (products (after_return env user invoiceId invoice data s) !! k)
  ↔ is_Some (products s !! k).
Proof.
  unfold after_return. destruct (completed data); simpl; [|done].
  apply apply_lines_is_Some.
Qed.

Lemma after_return_customers env user invoiceId invoice data s k :
  is_Some (customers (after_return env user invoiceId invoice data s) !! k)
  ↔ is_Some (customers s !! k).
Proof.
  unfold after_return. destruct (completed data); simpl; [|done].
  apply reversed_is_Some.
Qed.

Lemma after_return_users env user invoiceId invoice data s :
  users (after_return env user invoiceId invoice data s) = users s.
Proof. unfold after_return. by destruct (completed data). Qed.

Lemma after_return_stock env user invoiceId invoice data s k :
  completed data = true →
  stock_of (after_return env user invoiceId invoice data s) k
  = (λ n, n + moved k (return_lines data)) <$> stock_of s k.
Proof.
  intros Hdone. unfold after_return, stock_of. rewrite Hdone. simpl.
  rewrite apply_lines_lookup. by destruct (products s !! k).
Qed.

(** X18.  A return that was accepted is accepted again: the lines of a return are
    compared with the lines of the invoice, not with what earlier returns
    took back.  A second request with the same body is answered 201 as the
    first was, and when the return is completed the stock of every product
    has then gone up by twice the returned quantity. *)
Theorem return_accepted_again env env' data s user' :
  res_status (POST_returns env data s).1 = 201 →
  authorized isManager (session env') = Some user' →
  user_id user' ∈ users s →
  uuid env' ≠ uuid env →
  let s1 := (POST_returns env data s).2 in
  res_status (POST_returns env' data s1).1 = 201
  ∧ (completed data = true →
     ∀ k, stock_of (POST_returns env' data s1).2 k
          = (λ n, n + 2 * moved k (return_lines data)) <$> stock_of s k).
Proof.
  intros H201 Hauth Huser _.
  destruct (POST_returns_cases env data s)
    as [(user & id & inv & _ & Hid & Hne & Hinv & Hcheck & Hacc & Heq)
       |(msg & code & Heq & Hcode)];
    rewrite Heq in H201 |- *; simpl in *; [|lia].
  destruct (after_return_invoice env user id inv data s Hinv) as (inv1 & Hinv1 & Hsale).
  assert (inv_items inv1 = inv_items inv) as Hitems by (by injection Hsale).
  assert (inv_customerId inv1 = inv_customerId inv) as Hcust by (by injection Hsale).
  assert (return_accepts user' id inv1 data (after_return env user id inv data s) = true)
    as Hacc1.
  { unfold return_accepts in Hacc |- *.
    apply andb_true_iff in Hacc as [Hacc _]. apply andb_true_iff in Hacc as [_ Hacc].
    repeat (apply andb_true_iff; split).
    - apply bool_decide_eq_true. eauto.
    - destruct (completed data); [|done].
      apply andb_true_iff in Hacc as [Hlines Hrev]. apply andb_true_iff. split.
      + by rewrite (lines_exist_products _ s) by (intros k; apply after_return_products).
      + rewrite Hcust. apply (reversal_accepts_customers _ _ s); [|done].
        intros k. by rewrite after_return_customers.
    - apply bool_decide_eq_true. by rewrite after_return_users. }
  rewrite <- (check_return_items_lines inv inv1) in Hcheck by done.
  rewrite (POST_returns_created _ _ _ _ _ _ Hauth Hid Hne Hinv1 Hcheck Hacc1). simpl.
  split; [done|]. intros Hdone k. rewrite !after_return_stock by done.
  destruct (stock_of s k) as [n|]; simpl; [|done]. f_equal. lia.
Qed.

Lemma return_accepted_again_witness :
  res_status
    (POST_returns (mkEnv (Some (mkSession "u2" "ADMIN")) 2 "20240103" "0000" "r2") pen_back
       (POST_returns back_office pen_back shop_after_sale).2).1 = 201
  ∧ stock_of
      (POST_returns (mkEnv (Some (mkSession "u2" "ADMIN")) 2 "20240103" "0000" "r2") pen_back
         (POST_returns back_office pen_back shop_after_sale).2).2 "p1"
    = Some 2.
Proof.
  destruct (return_accepted_again back_office
              (mkEnv (Some (mkSession "u2" "ADMIN")) 2 "20240103" "0000" "r2")
              pen_back shop_after_sale (mkSession "u2" "ADMIN")) as [Hagain Hstock].
  - reflexivity.
  - reflexivity.
  - vm_compute. repeat constructor.
  - discriminate.
  - split; [exact Hagain|]. by rewrite Hstock.
Defined.

(** X19.  A return against a voided invoice is accepted: the return handler does
    not look at the status of the invoice.  After a void has put the stock
    of an invoice back, a completed return of its lines is answered 201 and
    puts the returned quantities back a second time. *)
Theorem return_after_void env env' invoiceId data s inv user' :
  consistent s →
  invoices s !! invoiceId = Some inv →
  res_status (DELETE_invoice env invoiceId s).1 = 200 →
  authorized isManager (session env') = Some user' →
  user_id user' ∈ users s →
  truthy (rd_invoiceId data) = Some invoiceId →
  rd_items data ≠ [] →
  check_return_items inv (rd_items data) = None →
  completed data = true →
  let s1 := (DELETE_invoice env invoiceId s).2 in
  status_of s1 invoiceId = Some "VOIDED"
  ∧ res_status (POST_returns env' data s1).1 = 201
  ∧ ∀ k, stock_of (POST_returns env' data s1).2 k
         = (λ n, n + moved k (invoice_lines inv) + moved k (return_lines data))
             <$> stock_of s k.
Proof.
  intros Hs Hinv H200 Hauth Huser Hid Hne Hcheck Hdone.
  destruct (DELETE_invoice_cases env invoiceId s)
    as [(user & inv0 & _ & Hinv0 & _ & _ & _ & Heq)|(msg & code & Heq & Hcode)];
    rewrite Heq in H200 |- *; simpl in *; [|lia].
  rewrite Hinv in Hinv0. injection Hinv0 as <-.
  pose proof (consistent_after_void user invoiceId inv s Hs Hinv) as Hs1.
  assert (invoices (after_void user invoiceId inv s) !! invoiceId
          = Some (with_status "VOIDED" inv)) as Hinv1.
  { simpl. by rewrite lookup_alter_eq, Hinv. }
  assert (check_return_items (with_status "VOIDED" inv) (rd_items data) = None) as Hcheck1.
  { by rewrite (check_return_items_lines inv). }
  rewrite (POST_returns_created _ _ _ _ _ _ Hauth Hid Hne Hinv1 Hcheck1
             (return_accepts_consistent _ _ _ _ _ Hs1 Hinv1 Hcheck1 Huser)).
  simpl. split; [|split; [done|]].
  - apply after_void_status. eauto.
  - intros k. rewrite after_return_stock by done. rewrite after_void_stock.
    destruct (stock_of s k) as [n|]; simpl; [|done]. f_equal.
Qed.

Lemma return_after_void_witness :
  status_of (DELETE_invoice back_office "i1" shop_after_sale).2 "i1" = Some "VOIDED"
  ∧ res_status
      (POST_returns back_office pen_back
         (DELETE_invoice back_office "i1" shop_after_sale).2).1 = 201
  ∧ stock_of
      (POST_returns back_office pen_back
         (DELETE_invoice back_office "i1" shop_after_sale).2).2 "p1"
    = Some 2.
Proof.
  destruct (return_after_void back_office back_office "i1" pen_back shop_after_sale
              (invoice_of_data (till "i1" "1234") (mkSession "u1" "ADMIN")
                 "INV-20240101-1234" small_sale)
              (mkSession "u2" "ADMIN")) as (Hvoided & Hreturn & Hstock).
  - apply (step_keeps_consistent shop).
    + apply consistent_opening. repeat split; reflexivity.
    + apply (step_POST_invoices (till "i1" "1234") small_sale shop).
  - reflexivity.
  - reflexivity.
  - reflexivity.
  - vm_compute. repeat constructor.
  - reflexivity.
  - discriminate.
  - reflexivity.
  - reflexivity.
  - split; [exact Hvoided|]. split; [exact Hreturn|]. by rewrite Hstock.
Defined.

(** X21.  An update that sets the status of an invoice to VOIDED is not a void:
    the stock, the customers and the two ledgers stay as they are, and the
    void handler then refuses the invoice as already voided, so its stock is
    not put back by a later void either. *)
Theorem status_update_is_no_void env env' invoiceId data s user' :
  res_status (PUT_invoice env invoiceId data s).1 = 200 →
  up_status data = Some "VOIDED" →
  authorized isAdmin (session env') = Some user' →
  let s1 := (PUT_invoice env invoiceId data s).2 in
  products s1 = products s
  ∧ customers s1 = customers s
  ∧ stockHistory s1 = stockHistory s
  ∧ loyaltyHistory s1 = loyaltyHistory s
  ∧ status_of s1 invoiceId = Some "VOIDED"
  ∧ DELETE_invoice env' invoiceId s1 = (json (JsonError "Invoice is already voided") 400, s1).
Proof.
  intros H200 Hstatus Hauth.
  destruct (PUT_invoice_cases env invoiceId data s)
    as [(user & inv & _ & Hinv & [[_ Heq]|[_ Heq]])|(msg & code & Heq & Hcode & _)];
    rewrite Heq in H200 |- *; simpl in H200; [|lia|lia].
  cbv zeta. simpl.
  set (s1 := set_activityLog _ _).
  assert (invoices s1 !! invoiceId = Some (with_update data inv)) as Hinv1.
  { unfold s1. store_simpl. by rewrite lookup_insert_eq. }
  assert (inv_status (with_update data inv) = "VOIDED") as Hvoided.
  { simpl. by rewrite Hstatus. }
  repeat split.
  - unfold status_of. by rewrite Hinv1, <- Hvoided.
  - by apply (DELETE_invoice_already_voided _ _ _ user' (with_update data inv)).
Qed.

Lemma status_update_is_no_void_witness :
  stock_of (PUT_invoice back_office "i1" (status_only "VOIDED") shop_after_sale).2 "p1"
  = Some 0
  ∧ res_status
      (DELETE_invoice back_office "i1"
         (PUT_invoice back_office "i1" (status_only "VOIDED") shop_after_sale).2).1 = 400.
Proof.
  destruct (status_update_is_no_void back_office back_office "i1" (status_only "VOIDED")
              shop_after_sale (mkSession "u2" "ADMIN"))
    as (Hproducts & _ & _ & _ & _ & Hrefused).
  - reflexivity.
  - reflexivity.
  - reflexivity.
  - split.
    + unfold stock_of. by rewrite Hproducts.
    + by rewrite Hrefused.
Defined.

(** X22.  The update and the two delete handlers write outside a transaction: when
    the activity-log row cannot be written, because the user of the session
    is not in the user table, the request is answered 500 and the write made
    before it stays. *)
Theorem standalone_writes_stay env id s user :
  authorized isAdmin (session env) = Some user →
  user_id user ∉ users s →
  (∀ data inv, invoices s !! id = Some inv →
      res_status (PUT_invoice env id data s).1 = 500
      ∧ invoices (PUT_invoice env id data s).2 !! id = Some (with_update data inv))
  ∧ (∀ p, products s !! id = Some p → product_invoiced id s = false →
      (DELETE_product env id s).1.2 = 500
      ∧ products (DELETE_product env id s).2 !! id = None)
  ∧ (∀ c, customers s !! id = Some c → customer_invoiced id s = false →
      (DELETE_customer env id s).1.2 = 500
      ∧ customers (DELETE_customer env id s).2 !! id = None).
Proof.
  intros Hauth Huser. split; [|split].
  - intros data inv Hinv.
    destruct (PUT_invoice_cases env id data s)
      as [(user0 & inv0 & Hauth0 & Hinv0 & [[Hin Heq]|[_ Heq]])
         |(msg & code & Heq & Hcode & Hne)].
    + rewrite Hauth in Hauth0. injection Hauth0 as <-. done.
    + rewrite Hinv in Hinv0. injection Hinv0 as <-. rewrite Heq. store_simpl.
      by rewrite lookup_insert_eq.
    + exfalso. unfold PUT_invoice in Heq. rewrite Hauth, Hinv in Heq.
      unfold call, transaction, prisma_invoice_update in Heq. rewrite Hinv in Heq.
      unfold tx_activityLog_create in Heq. store_simpl.
      rewrite bool_decide_eq_false_2 in Heq by done. injection Heq as _ Hcode500 _. lia.
  - intros p Hp Hfree.
    destruct (DELETE_product_cases env id s)
      as [(user0 & p0 & Hauth0 & Hp0 & _ & [[Hin Heq]|[_ Heq]])
         |(msg & sg & code & Heq & Hcode & Hne)].
    + rewrite Hauth in Hauth0. injection Hauth0 as <-. done.
    + rewrite Heq. store_simpl. by rewrite lookup_delete_eq.
    + exfalso. unfold DELETE_product in Heq. rewrite Hauth, Hp, Hfree in Heq.
      unfold call, transaction, prisma_product_delete in Heq. rewrite Hp, Hfree in Heq.
      unfold tx_activityLog_create in Heq. store_simpl.
      rewrite bool_decide_eq_false_2 in Heq by done. injection Heq as _ _ Hcode500 _. lia.
  - intros c Hc Hfree.
    destruct (DELETE_customer_cases env id s)
      as [(user0 & c0 & Hauth0 & Hc0 & _ & [[Hin Heq]|[_ Heq]])
         |(msg & sg & code & Heq & Hcode & Hne)].
    + rewrite Hauth in Hauth0. injection Hauth0 as <-. done.
    + rewrite Heq. store_simpl. by rewrite lookup_delete_eq.
    + exfalso. unfold DELETE_customer in Heq. rewrite Hauth, Hc, Hfree in Heq.
      unfold call, transaction, prisma_customer_delete in Heq. rewrite Hc, Hfree in Heq.
      unfold tx_activityLog_create in Heq. store_simpl.
      rewrite bool_decide_eq_false_2 in Heq by done. injection Heq as _ _ Hcode500 _. lia.
Qed.

Lemma standalone_writes_stay_witness :
  res_status (PUT_invoice stale_session "i1" (status_only "DRAFT") shop_after_sale).1 = 500
  ∧ status_of (PUT_invoice stale_session "i1" (status_only "DRAFT") shop_after_sale).2 "i1"
    = Some "DRAFT".
Proof.
  destruct (standalone_writes_stay stale_session "i1" shop_after_sale (mkSession "u7" "ADMIN"))
    as (Hupdate & _).
  - reflexivity.
  - vm_compute. discriminate.
  - destruct (Hupdate (status_only "DRAFT")
                (invoice_of_data (till "i1" "1234") (mkSession "u1" "ADMIN")
                   "INV-20240101-1234" small_sale)) as [H500 Hrow]; [reflexivity|].
    split; [exact H500|]. unfold status_of. by rewrite Hrow.
Defined.

(** X23.  Two invoices drawing the same number: when an invoice has been created,
    a request of the same day that draws the same random part is answered
    500 and writes nothing, whatever it orders. *)
Theorem invoice_number_collision env env' data data' s user' :
  res_status (POST_invoices env data s).1 = 201 →
  dateStr env' = dateStr env →
  randomPart env' = randomPart env →
  authorized isCashier (session env') = Some user' →
  d_items data' ≠ [] →
  let s1 := (POST_invoices env data s).2 in
  POST_invoices env' data' s1 = (json (JsonError "Internal Server Error") 500, s1).
Proof.
  intros H201 Hdate Hrandom Hauth Hne.
  destruct (POST_invoices_cases env data s)
    as [(user & _ & _ & _ & Heq)|(msg & code & Heq & Hcode)];
    rewrite Heq in H201 |- *; simpl in *; [|lia].
  apply (POST_invoices_refused _ _ _ user'); [done..|].
  assert (invoiceNumber_of env' = invoiceNumber_of env) as Hnumber.
  { unfold invoiceNumber_of. by rewrite Hdate, Hrandom. }
  assert (invoiceNumber_taken (invoiceNumber_of env')
            (after_create env user (invoiceNumber_of env) data s) = true) as Htaken.
  { apply bool_decide_eq_true. exists (uuid env), (invoice_of_data env user (invoiceNumber_of env) data).
    split; [|by rewrite Hnumber]. simpl. by rewrite lookup_insert_eq. }
  unfold create_accepts. simpl inv_invoiceNumber. rewrite Htaken. simpl.
  by rewrite andb_false_r.
Qed.

Lemma invoice_number_collision_witness :
  POST_invoices (till "i2" "1234") one_pen shop_after_sale
  = (json (JsonError "Internal Server Error") 500, shop_after_sale).
Proof.
  apply (invoice_number_collision (till "i1" "1234") (till "i2" "1234") small_sale one_pen
           shop (mkSession "u1" "ADMIN")).
  - reflexivity.
  - reflexivity.
  - reflexivity.
  - reflexivity.
  - discriminate.
Defined.

(** ** Listings *)

Lemma StronglySorted_weaken {A} (R R' : A → A → Prop) (l : list A) :
  (∀ x y, R x y → R' x y) → StronglySorted R l → StronglySorted R' l.
Proof.
  intros Hsub. induction 1 as [|x l _ IH Hall]; constructor; [done|].
  eapply Forall_impl; [exact Hall|]. intros y. apply Hsub.
Qed.

Lemma newest_first {A} (key : A → Z) (l : list A) :
  StronglySorted (λ a b, key b ≤ key a) (sort_desc (λ x, inject_Z (key x)) l).
Proof.
  eapply StronglySorted_weaken; [|apply sort_desc_sorted].
  intros x y Hxy. simpl in Hxy. by rewrite Zle_Qle.
Qed.

Lemma in_range_spec startDate endDate t :
  in_range startDate endDate t = true ↔
  (∀ a, startDate = Some a → a ≤ t) ∧ (∀ b, endDate = Some b → t ≤ b).
Proof.
  unfold in_range. rewrite andb_true_iff.
  destruct startDate as [a|], endDate as [b|]; rewrite ?bool_decide_eq_true; split.
  - intros [??]. split; by intros ? [= <-].
  - intros [Ha Hb]. split; [by apply Ha|by apply Hb].
  - intros [? _]. split; [by intros ? [= <-]|done].
  - intros [Ha _]. split; [by apply Ha|done].
  - intros [_ ?]. split; [done|by intros ? [= <-]].
  - intros [_ Hb]. split; [done|by apply Hb].
  - done.
  - done.
Qed.

Lemma matches_spec param value :
  matches param (Some value) = true ↔ ∀ v, truthy param = Some v → value = v.
Proof.
  unfold matches. destruct (truthy param) as [v|].
  - rewrite bool_decide_eq_true. split.
    + intros [= ->] ? [= <-]. done.
    + intros H. f_equal. by apply H.
  - done.
Qed.

(** X25.  The list of invoices: a cashier is answered 200 with at most [limit]
    rows (50 when no limit is given), newest first; every row is an invoice
    of the store that passes the filters, no invoice that passes them and is
    left out is newer than a listed one, and none is left out when the
    store holds no more invoices than the limit.  Anyone else is answered
    403. *)
Theorem GET_invoices_listing env q s :
  let limit := default 50 (q_limit q) in
  (authorized isCashier (session env) = None →
   GET_invoices env q s = (ListError "Not authorized", 403))
  ∧ (∀ user, authorized isCashier (session env) = Some user → 0 ≤ limit →
       ∃ rows,
         GET_invoices env q s = (ListInvoices rows, 200)
         ∧ (length rows ≤ Z.to_nat limit)%nat
         ∧ StronglySorted (λ a b, inv_createdAt b ≤ inv_createdAt a) rows
         ∧ (∀ inv, inv ∈ rows →
               (∃ i, invoices s !! i = Some inv)
               ∧ (∀ a, q_startDate q = Some a → a ≤ inv_createdAt inv)
               ∧ (∀ b, q_endDate q = Some b → inv_createdAt inv ≤ b)
               ∧ (∀ c, truthy (q_customerId q) = Some c → inv_customerId inv = Some c)
               ∧ (∀ st, truthy (q_status q) = Some st → inv_status inv = st))
         ∧ (∀ x i y, x ∈ rows → invoices s !! i = Some y → invoice_where q y = true →
               y ∉ rows → inv_createdAt y ≤ inv_createdAt x)
         ∧ ((size (invoices s) ≤ Z.to_nat limit)%nat →
            ∀ i inv, invoices s !! i = Some inv → invoice_where q inv = true → inv ∈ rows)).
Proof.
  intros limit. unfold GET_invoices. split; [by intros ->|].
  intros user -> Hlimit. eexists. split; [reflexivity|].
  unfold invoice_findMany. fold limit. unfold take_rows.
  rewrite bool_decide_eq_true_2 by done.
  set (key := λ inv, inject_Z (inv_createdAt inv)).
  set (found := filter (λ inv, invoice_where q inv = true) (map_to_list (invoices s)).*2).
  assert (∀ inv, inv ∈ found ↔
                 (∃ i, invoices s !! i = Some inv) ∧ invoice_where q inv = true) as Hfound.
  { intros inv. unfold found. rewrite list_elem_of_filter, list_elem_of_fmap. split.
    - intros [Hq ([i inv'] & -> & Hin)]. apply elem_of_map_to_list in Hin. eauto.
    - intros [[i Hi] Hq]. split; [done|]. exists (i, inv). split; [done|].
      by apply elem_of_map_to_list. }
  assert (∀ x, x ∈ take (Z.to_nat limit) (sort_desc key found) → x ∈ found) as Hsub.
  { intros x Hx. rewrite <- (sort_desc_perm key).
    rewrite <- (take_drop (Z.to_nat limit) (sort_desc key found)).
    apply elem_of_app. by left. }
  split; [|split; [|split; [|split]]].
  - rewrite length_take. lia.
  - pose proof (newest_first inv_createdAt found) as Hsorted. fold key in Hsorted.
    rewrite <- (take_drop (Z.to_nat limit) (sort_desc key found)) in Hsorted.
    by apply StronglySorted_app_1_l in Hsorted.
  - intros inv Hinv. apply Hsub, Hfound in Hinv as [Hi Hq]. split; [done|].
    unfold invoice_where in Hq. apply andb_true_iff in Hq as [Hq Hstatus].
    apply andb_true_iff in Hq as [Hrange Hcustomer].
    apply in_range_spec in Hrange as [Hstart Hend].
    split; [done|]. split; [done|]. split.
    + intros c Hc. unfold matches in Hcustomer. rewrite Hc in Hcustomer.
      by apply bool_decide_eq_true in Hcustomer.
    + by apply matches_spec.
  - intros x i y Hx Hy Hq Hout.
    rewrite Zle_Qle. apply (take_sorted_best key (Z.to_nat limit) found x y); [done| |done].
    apply Hfound. eauto.
  - intros Hsize i inv Hi Hq.
    rewrite take_all.
    + rewrite (sort_desc_perm key). apply Hfound. eauto.
    + rewrite (sort_desc_perm key found). unfold found.
      etrans; [apply length_filter|]. by rewrite length_fmap, length_map_to_list.
Qed.

Lemma GET_invoices_listing_witness :
  ∃ rows,
    GET_invoices back_office (mkInvoiceQuery None None (Some "c1") None None) shop_after_sale
    = (ListInvoices rows, 200)
    ∧ ∀ inv, inv ∈ rows → inv_customerId inv = Some "c1".
Proof.
  destruct (GET_invoices_listing back_office (mkInvoiceQuery None None (Some "c1") None None)
              shop_after_sale) as [_ Hlist].
  destruct (Hlist (mkSession "u2" "ADMIN")) as (rows & Heq & _ & _ & Hrows & _).
  - reflexivity.
  - simpl. lia.
  - exists rows. split; [exact Heq|]. intros inv Hinv.
    destruct (Hrows inv Hinv) as (_ & _ & _ & Hcustomer & _). by apply Hcustomer.
Defined.

(** X26.  The list of returns: a cashier is answered 200 with the return orders
    that pass the filters, newest first and each as often as it is stored;
    anyone else is answered 403. *)
Theorem GET_returns_listing env q s :
  (authorized isCashier (session env) = None →
   GET_returns env q s = (ListError "Not authorized", 403))
  ∧ (∀ user, authorized isCashier (session env) = Some user →
       ∃ rows,
         GET_returns env q s = (ListReturns rows, 200)
         ∧ StronglySorted (λ a b, ro_returnDate b ≤ ro_returnDate a) rows
         ∧ rows ≡ₚ filter (λ r, return_where q r = true) (returnOrders s)
         ∧ (∀ r, r ∈ rows ↔
                 r ∈ returnOrders s
                 ∧ (∀ a, rq_startDate q = Some a → a ≤ ro_returnDate r)
                 ∧ (∀ b, rq_endDate q = Some b → ro_returnDate r ≤ b)
                 ∧ (∀ st, truthy (rq_status q) = Some st → ro_status r = st)
                 ∧ (∀ i, truthy (rq_invoiceId q) = Some i → ro_invoiceId r = i))).
Proof.
  unfold GET_returns. split; [by intros ->|].
  intros user ->. eexists. split; [reflexivity|].
  unfold returnOrder_findMany. split; [apply newest_first|].
  split; [apply sort_desc_perm|].
  intros r. rewrite sort_desc_perm, list_elem_of_filter.
  unfold return_where. rewrite !andb_true_iff, in_range_spec, !matches_spec. tauto.
Qed.

Lemma GET_returns_listing_witness :
  ∃ rows,
    GET_returns back_office (mkReturnQuery None None None (Some "i1"))
      (POST_returns back_office pen_back shop_after_sale).2
    = (ListReturns rows, 200)
    ∧ ∀ r, r ∈ rows → ro_invoiceId r = "i1".
Proof.
  destruct (GET_returns_listing back_office (mkReturnQuery None None None (Some "i1"))
              (POST_returns back_office pen_back shop_after_sale).2) as [_ Hlist].
  destruct (Hlist (mkSession "u2" "ADMIN")) as (rows & Heq & _ & _ & Hrows).
  - reflexivity.
  - exists rows. split; [exact Heq|]. intros r Hr.
    apply Hrows in Hr as (_ & _ & _ & _ & Hinvoice). by apply Hinvoice.
Defined.

(** X20.  A return that has been created is in the list of the returns of its
    invoice, and from then on the invoice cannot be voided: an admin's void
    is answered 400 and writes nothing, whether the return is completed or
    still pending. *)
Theorem created_return_listed_and_blocks_void env data s invoiceId :
  res_status (POST_returns env data s).1 = 201 →
  truthy (rd_invoiceId data) = Some invoiceId →
  let s1 := (POST_returns env data s).2 in
  (∀ env' user', authorized isCashier (session env') = Some user' →
     ∃ rows, GET_returns env' (mkReturnQuery None None None (Some invoiceId)) s1
             = (ListReturns rows, 200)
             ∧ return_of_data env invoiceId data ∈ rows)
  ∧ (∀ env' user', authorized isAdmin (session env') = Some user' →
     ∃ msg, DELETE_invoice env' invoiceId s1 = (json (JsonError msg) 400, s1)).
Proof.
  intros H201 Hid.
  destruct (POST_returns_cases env data s)
    as [(user & id & inv & _ & Hid' & _ & Hinv & _ & _ & Heq)|(msg & code & Heq & Hcode)];
    rewrite Heq in H201 |- *; simpl in *; [|lia].
  rewrite Hid in Hid'. injection Hid' as <-.
  set (s1 := after_return env user invoiceId inv data s).
  assert (return_of_data env invoiceId data ∈ returnOrders s1) as Hstored.
  { unfold s1, after_return. destruct (completed data); simpl;
      apply elem_of_app; right; apply list_elem_of_singleton; done. }
  split.
  - intros env' user' Hauth. unfold GET_returns. rewrite Hauth.
    eexists. split; [reflexivity|].
    unfold returnOrder_findMany. rewrite sort_desc_perm. apply list_elem_of_filter.
    split; [|done]. unfold return_where, in_range, matches. simpl rq_status.
    simpl rq_invoiceId. simpl truthy at 1.
    assert (truthy (Some invoiceId) = Some invoiceId) as ->
      by (rewrite <- Hid; apply truthy_idemp).
    by rewrite bool_decide_eq_true_2.
  - intros env' user' Hauth.
    destruct (after_return_invoice env user invoiceId inv data s Hinv) as (inv1 & Hinv1 & _).
    fold s1 in Hinv1.
    destruct (decide (inv_status inv1 = "VOIDED")) as [Hvoided|Hvoided].
    + eexists. by apply (DELETE_invoice_already_voided _ _ _ user' inv1).
    + destruct (returnOrder_findFirst invoiceId s1) as [r|] eqn:Hfirst.
      * eexists. by apply (DELETE_invoice_has_returns _ _ _ user' inv1 r).
      * exfalso. pose proof (proj1 (no_returns_iff _ _) Hfirst _ Hstored) as Hno.
        by apply Hno.
Qed.

Lemma created_return_listed_and_blocks_void_witness :
  ∃ msg, DELETE_invoice back_office "i1" (POST_returns back_office pending_return shop_after_sale).2
         = (json (JsonError msg) 400, (POST_returns back_office pending_return shop_after_sale).2).
Proof.
  destruct (created_return_listed_and_blocks_void back_office pending_return shop_after_sale "i1")
    as [_ Hblocked].
  - reflexivity.
  - reflexivity.
  - apply (Hblocked back_office (mkSession "u2" "ADMIN")). reflexivity.
Defined.

(** ** The overview *)

Lemma rows_lookup (m : gmap string Invoice) i x :
  m !! i = Some x → (map_to_list m).*2 ≡ₚ x :: (map_to_list (delete i m)).*2.
Proof. intros H. by rewrite <- (map_to_list_delete m i x H). Qed.

Lemma rows_insert (m : gmap string Invoice) i x :
  m !! i = None → (map_to_list (<[i:=x]> m)).*2 ≡ₚ x :: (map_to_list m).*2.
Proof. intros H. by rewrite (map_to_list_insert m i x H). Qed.

Lemma rows_alter (m : gmap string Invoice) i x f :
  m !! i = Some x →
  (map_to_list (alter f i m)).*2 ≡ₚ f x :: (map_to_list (delete i m)).*2.
Proof.
  intros H.
  assert (alter f i m = <[i := f x]> (delete i m)) as ->.
  { apply map_eq. intros j. destruct (decide (i = j)) as [<-|Hne].
    - by rewrite lookup_alter_eq, lookup_insert_eq, H.
    - by rewrite lookup_alter_ne, lookup_insert_ne, lookup_delete_ne. }
  apply rows_insert. by rewrite lookup_delete_eq.
Qed.

(** X7.  The figures of the overview hang together: the average sale times the
    number of invoices is the total, the growth is 0 when the previous
    period sold nothing (or less), and otherwise the previous total grown by
    it is the current total.  The previous period ends at the instant the
    current one starts, both ends included, so an invoice created at that
    instant is counted in both.  At most five top products are shown, the
    first of the top-sellers report. *)
Theorem overview_figures startDate endDate newCustomers lowStockItems productSales s :
  let report := getOverview startDate endDate newCustomers lowStockItems productSales s in
  let previous :=
    getOverview (startDate - (endDate - startDate)) startDate
      newCustomers lowStockItems productSales s in
  let stats := ov_salesStats report in
  let before := ss_totalSales (ov_salesStats previous) in
  (ss_averageSale stats * inject_Z (ss_invoiceCount stats) == ss_totalSales stats)%Q
  ∧ ((before <= 0)%Q → ss_salesGrowth stats = 0%Q)
  ∧ ((0 < before)%Q →
     (before * (100 + ss_salesGrowth stats) == 100 * ss_totalSales stats)%Q)
  ∧ (startDate ≤ endDate →
     ∀ i inv, invoices s !! i = Some inv → inv_createdAt inv = startDate →
              inv_status inv ≠ "VOIDED" →
              inv ∈ sales_in startDate endDate s
              ∧ inv ∈ sales_in (startDate - (endDate - startDate)) startDate s)
  ∧ (length (ov_topProducts report) ≤ 5)%nat
  ∧ ov_topProducts report `prefix_of` top_data (getTopSellingProducts productSales).
Proof.
  simpl. split; [|split; [|split; [|split; [|split]]]].
  - set (rows := sales_in startDate endDate s). destruct rows as [|r rows]; simpl.
    + unfold reduce_sum. simpl. ring.
    + field.
      intros H. unfold Qeq in H. simpl in H. lia.
  - intros Hle. destruct (Qltb 0 _) eqn:Hlt; [|done].
    apply Qltb_true in Hlt. exfalso. by apply (Qlt_not_le _ _ Hlt).
  - intros Hlt. destruct (Qltb 0 _) eqn:Hb.
    + field. intros H. rewrite H in Hlt. by apply Qlt_irrefl in Hlt.
    + apply Qltb_false in Hb. exfalso. by apply (Qlt_not_le _ _ Hlt).
  - intros Hle i inv Hi Hat Hst.
    assert (inv ∈ (map_to_list (invoices s)).*2) as Hin.
    { apply list_elem_of_fmap. exists (i, inv). split; [done|]. by apply elem_of_map_to_list. }
    split; apply list_elem_of_filter; (split; [|done]); unfold counted_sale, in_range;
      rewrite Hat; rewrite !bool_decide_eq_true_2 by lia;
      by rewrite bool_decide_eq_false_2.
  - rewrite length_take. lia.
  - apply prefix_take.
Qed.

Lemma overview_figures_witness :
  invoice_of_data (till "i1" "1234") (mkSession "u1" "ADMIN") "INV-20240101-1234" small_sale
    ∈ sales_in 0 10 shop_after_sale
  ∧ invoice_of_data (till "i1" "1234") (mkSession "u1" "ADMIN") "INV-20240101-1234" small_sale
    ∈ sales_in (0 - (10 - 0)) 0 shop_after_sale.
Proof.
  destruct (overview_figures 0 10 0 0 day_by_product shop_after_sale)
    as (_ & _ & _ & Hboundary & _).
  apply (Hboundary ltac:(lia) "i1"); [reflexivity|reflexivity|discriminate].
Defined.

Lemma counted_rows_lookup (m : gmap string Invoice) a b i x :
  m !! i = Some x →
  filter (λ inv, counted_sale a b inv = true) (map_to_list m).*2
  ≡ₚ (if counted_sale a b x then [x] else [])
     ++ filter (λ inv, counted_sale a b inv = true) (map_to_list (delete i m)).*2.
Proof.
  intros H. rewrite (rows_lookup m i x H), filter_cons.
  destruct (decide (counted_sale a b x = true)) as [->|Hno]; [done|].
  apply not_true_is_false in Hno. by rewrite Hno.
Qed.

Lemma counted_rows_alter (m : gmap string Invoice) a b i x f :
  m !! i = Some x →
  filter (λ inv, counted_sale a b inv = true) (map_to_list (alter f i m)).*2
  ≡ₚ (if counted_sale a b (f x) then [f x] else [])
     ++ filter (λ inv, counted_sale a b inv = true) (map_to_list (delete i m)).*2.
Proof.
  intros H. rewrite (rows_alter m i x f H), filter_cons.
  destruct (decide (counted_sale a b (f x) = true)) as [->|Hno]; [done|].
  apply not_true_is_false in Hno. by rewrite Hno.
Qed.

Lemma counted_sale_spec a b inv :
  counted_sale a b inv = true ↔ a ≤ inv_createdAt inv ≤ b ∧ inv_status inv ≠ "VOIDED".
Proof.
  unfold counted_sale, in_range.
  rewrite !andb_true_iff, negb_true_iff, !bool_decide_eq_true, bool_decide_eq_false.
  tauto.
Qed.

(** X8.  The overview after a void and after a return.  A void of an invoice of
    the period takes its total out of the sales and its invoice out of the
    count.  A return leaves the sales and the count as they are, a refunded
    invoice is still a sale, and adds its amount to the returns of the
    period it is made in.  When the invoice had been voided, a completed
    return of all its lines makes it a refunded invoice, and its total is
    back in the sales. *)
Theorem overview_after_requests startDate endDate newCustomers lowStockItems productSales s :
  let overview := getOverview startDate endDate newCustomers lowStockItems productSales in
  let sales s' := ov_salesStats (overview s') in
  (∀ env invoiceId inv,
      res_status (DELETE_invoice env invoiceId s).1 = 200 →
      invoices s !! invoiceId = Some inv →
      startDate ≤ inv_createdAt inv ≤ endDate →
      let s' := (DELETE_invoice env invoiceId s).2 in
      (ss_totalSales (sales s') == ss_totalSales (sales s) - inv_totalAmount inv)%Q
      ∧ ss_invoiceCount (sales s') = ss_invoiceCount (sales s) - 1)
  ∧ (∀ env data invoiceId inv,
      res_status (POST_returns env data s).1 = 201 →
      truthy (rd_invoiceId data) = Some invoiceId →
      invoices s !! invoiceId = Some inv →
      let s' := (POST_returns env data s).2 in
      (inv_status inv ≠ "VOIDED" →
       (ss_totalSales (sales s') == ss_totalSales (sales s))%Q
       ∧ ss_invoiceCount (sales s') = ss_invoiceCount (sales s))
      ∧ (startDate ≤ now env ≤ endDate →
         (ov_totalReturned (overview s') == ov_totalReturned (overview s) + rd_totalAmount data)%Q
         ∧ ov_returnCount (overview s') = ov_returnCount (overview s) + 1)
      ∧ (inv_status inv = "VOIDED" →
         completed data = true →
         allItemsReturned inv (rd_items data) = true →
         startDate ≤ inv_createdAt inv ≤ endDate →
         (ss_totalSales (sales s') == ss_totalSales (sales s) + inv_totalAmount inv)%Q
         ∧ ss_invoiceCount (sales s') = ss_invoiceCount (sales s) + 1)).
Proof.
  simpl. split.
  - intros env id inv H200 Hinv Hrange.
    destruct (DELETE_invoice_cases env id s)
      as [(user & inv0 & _ & Hinv0 & Hst & _ & _ & Heq)|(msg & code & Heq & Hcode)];
      rewrite Heq in H200 |- *; simpl in *; [|lia].
    rewrite Hinv in Hinv0. injection Hinv0 as <-.
    unfold sales_in. simpl.
    rewrite (reduce_sum_perm _ _ _ (counted_rows_alter _ startDate endDate id inv _ Hinv)).
    rewrite (reduce_sum_perm _ _ _ (counted_rows_lookup _ startDate endDate id inv Hinv)).
    rewrite (Permutation_length (counted_rows_alter _ startDate endDate id inv _ Hinv)).
    rewrite (Permutation_length (counted_rows_lookup _ startDate endDate id inv Hinv)).
    assert (counted_sale startDate endDate (with_status "VOIDED" inv) = false) as ->.
    { apply not_true_iff_false. rewrite counted_sale_spec. simpl. tauto. }
    assert (counted_sale startDate endDate inv = true) as ->
      by (by apply counted_sale_spec).
    simpl. rewrite reduce_sum_cons. split; [ring|lia].
  - intros env data id inv H201 Hid Hinv.
    destruct (POST_returns_cases env data s)
      as [(user & id0 & inv0 & _ & Hid0 & _ & Hinv0 & _ & _ & Heq)|(msg & code & Heq & Hcode)];
      rewrite Heq in H201 |- *; simpl in *; [|lia].
    rewrite Hid in Hid0. injection Hid0 as <-.
    rewrite Hinv in Hinv0. injection Hinv0 as <-.
    split; [|split].
    + intros Hst. unfold after_return, sales_in.
      destruct (completed data); simpl; [|done].
      destruct (allItemsReturned inv (rd_items data)); [|done].
      rewrite (reduce_sum_perm _ _ _ (counted_rows_alter _ startDate endDate id inv _ Hinv)).
      rewrite (reduce_sum_perm _ _ _ (counted_rows_lookup _ startDate endDate id inv Hinv)).
      rewrite (Permutation_length (counted_rows_alter _ startDate endDate id inv _ Hinv)).
      rewrite (Permutation_length (counted_rows_lookup _ startDate endDate id inv Hinv)).
      assert (counted_sale startDate endDate (with_status "REFUNDED" inv)
              = counted_sale startDate endDate inv) as ->.
      { unfold counted_sale. simpl. by rewrite (bool_decide_eq_false_2 _ Hst). }
      destruct (counted_sale startDate endDate inv); simpl; [|done].
      by rewrite !reduce_sum_cons.
    + intros Hrange. unfold returns_in.
      assert (returnOrders (after_return env user id inv data s)
              = returnOrders s ++ [return_of_data env id data]) as ->.
      { unfold after_return. by destruct (completed data). }
      rewrite filter_app, filter_cons, filter_nil. simpl.
      rewrite decide_True.
      * rewrite reduce_sum_app, length_app, reduce_sum_cons. simpl.
        split; [unfold reduce_sum; simpl; ring|lia].
      * unfold in_range. by rewrite !bool_decide_eq_true_2 by lia.
    + intros Hst Hdone Hall Hrange. unfold after_return, sales_in.
      rewrite Hdone, Hall. simpl.
      rewrite (reduce_sum_perm _ _ _ (counted_rows_alter _ startDate endDate id inv _ Hinv)).
      rewrite (reduce_sum_perm _ _ _ (counted_rows_lookup _ startDate endDate id inv Hinv)).
      rewrite (Permutation_length (counted_rows_alter _ startDate endDate id inv _ Hinv)).
      rewrite (Permutation_length (counted_rows_lookup _ startDate endDate id inv Hinv)).
      assert (counted_sale startDate endDate (with_status "REFUNDED" inv) = true) as ->.
      { apply counted_sale_spec. simpl. split; [done|discriminate]. }
      assert (counted_sale startDate endDate inv = false) as ->.
      { apply not_true_iff_false. rewrite counted_sale_spec. tauto. }
      simpl. rewrite reduce_sum_cons. simpl. split; [ring|lia].
Qed.

Lemma overview_after_requests_witness :
  (ss_totalSales
     (ov_salesStats
        (getOverview 0 10 0 0 day_by_product
           (DELETE_invoice back_office "i1" shop_after_sale).2))
   == ss_totalSales (ov_salesStats (getOverview 0 10 0 0 day_by_product shop_after_sale))
      - 5)%Q
  ∧ ov_returnCount
      (getOverview 0 10 0 0 day_by_product
         (POST_returns back_office pen_back shop_after_sale).2)
    = ov_returnCount (getOverview 0 10 0 0 day_by_product shop_after_sale) + 1.
Proof.
  destruct (overview_after_requests 0 10 0 0 day_by_product shop_after_sale)
    as [Hvoid Hreturn].
  split.
  - apply (Hvoid back_office "i1"
             (invoice_of_data (till "i1" "1234") (mkSession "u1" "ADMIN")
                "INV-20240101-1234" small_sale)).
    + reflexivity.
    + reflexivity.
    + simpl. lia.
  - destruct (Hreturn back_office pen_back "i1"
                (invoice_of_data (till "i1" "1234") (mkSession "u1" "ADMIN")
                   "INV-20240101-1234" small_sale)) as (_ & Hcount & _).
    + reflexivity.
    + reflexivity.
    + reflexivity.
    + apply Hcount. simpl. lia.
Defined.

(** ** Period keys *)

Lemma string_length_app (s t : string) :
  String.length (s +:+ t) = (String.length s + String.length t)%nat.
Proof. induction s as [|a s IH]; simpl; [done|]. by rewrite IH. Qed.

Lemma string_app_inj_suffix (s1 s2 t1 t2 : string) :
  String.length t1 = String.length t2 →
  s1 +:+ t1 = s2 +:+ t2 → s1 = s2 ∧ t1 = t2.
Proof.
  intros Hlen. revert s2. induction s1 as [|a s1 IH]; intros [|b s2] Heq; simpl in Heq.
  - done.
  - exfalso. apply (f_equal String.length) in Heq.
    rewrite ?string_length_app in Heq. simpl in Heq.
    rewrite ?string_length_app in Heq. lia.
  - exfalso. apply (f_equal String.length) in Heq.
    rewrite ?string_length_app in Heq. simpl in Heq.
    rewrite ?string_length_app in Heq. lia.
  - injection Heq as -> Heq. destruct (IH s2 Heq) as [-> ->]. done.
Qed.

Lemma two_digits_padStart n :
  0 ≤ n < 100 → two_digits (padStart0 2 (toString n)) = Some n.
Proof.
  intros Hn.
  assert (∃ k, n = Z.of_nat k ∧ (k < 100)%nat) as (k & -> & Hk)
    by (exists (Z.to_nat n); lia).
  clear Hn. do 100 (destruct k as [|k]; [by vm_compute|]). lia.
Qed.

Lemma padStart_two_inj a b :
  0 ≤ a < 100 → 0 ≤ b < 100 →
  padStart0 2 (toString a) = padStart0 2 (toString b) → a = b.
Proof.
  intros Ha Hb Heq. apply (f_equal two_digits) in Heq.
  rewrite !two_digits_padStart in Heq by done. by injection Heq.
Qed.

Lemma padStart_two_length n :
  0 ≤ n < 100 → String.length (padStart0 2 (toString n)) = 2%nat.
Proof.
  intros Hn. pose proof (two_digits_padStart n Hn) as H.
  destruct (padStart0 2 (toString n)) as [|a [|b [|c s]]]; simpl in H; done.
Qed.

Lemma year_month_inj d1 d2 :
  0 ≤ getMonth d1 ≤ 11 → 0 ≤ getMonth d2 ≤ 11 →
  year_month d1 = year_month d2 →
  getFullYear d1 = getFullYear d2 ∧ getMonth d1 = getMonth d2.
Proof.
  intros H1 H2 Heq. unfold year_month in Heq.
  apply string_app_inj_suffix in Heq as [Hyear Hmonth].
  - split; [by apply (inj pretty)|].
    injection Hmonth as Hmonth. apply padStart_two_inj in Hmonth; lia.
  - rewrite !string_length_app, !padStart_two_length by lia. done.
Qed.

(** X6.  The keys the sales are grouped under tell calendar periods apart: two
    dates get the same day key exactly when they are the same day of the
    same month and year, the same month key exactly when they lie in the
    same month of the same year, and the same year key exactly when they lie
    in the same year.  A week key is the day key of the date the runtime
    gives for the Sunday of the week, and a period that is none of the four
    is taken as a day. *)
Theorem period_keys setDate d1 d2 :
  calendar d1 → calendar d2 →
  (formatDateByPeriod setDate d1 "day" = formatDateByPeriod setDate d2 "day"
   ↔ getFullYear d1 = getFullYear d2 ∧ getMonth d1 = getMonth d2
     ∧ getDate d1 = getDate d2)
  ∧ (formatDateByPeriod setDate d1 "month" = formatDateByPeriod setDate d2 "month"
     ↔ getFullYear d1 = getFullYear d2 ∧ getMonth d1 = getMonth d2)
  ∧ (formatDateByPeriod setDate d1 "year" = formatDateByPeriod setDate d2 "year"
     ↔ getFullYear d1 = getFullYear d2)
  ∧ formatDateByPeriod setDate d1 "week"
    = formatDateByPeriod setDate (setDate d1 (getDate d1 - getDay d1)) "day"
  ∧ (∀ period, period ≠ "month" → period ≠ "year" → period ≠ "week" →
       formatDateByPeriod setDate d1 period = formatDateByPeriod setDate d1 "day").
Proof.
  intros [Hm1 Hd1] [Hm2 Hd2]. split; [|split; [|split; [|split]]].
  - unfold formatDateByPeriod. simpl. split.
    + intros Heq. unfold year_month_day in Heq.
      apply string_app_inj_suffix in Heq as [Hym Hday].
      * apply year_month_inj in Hym as [? ?]; [|done..].
        injection Hday as Hday. apply padStart_two_inj in Hday; [done|lia..].
      * rewrite !string_length_app, !padStart_two_length by lia. done.
    + intros (Hy & Hm & Hd). unfold year_month_day, year_month. by rewrite Hy, Hm, Hd.
  - unfold formatDateByPeriod. simpl. split.
    + by apply year_month_inj.
    + intros (Hy & Hm). unfold year_month. by rewrite Hy, Hm.
  - unfold formatDateByPeriod. simpl. split.
    + apply (inj pretty).
    + by intros ->.
  - reflexivity.
  - intros period H1 H2 H3. unfold formatDateByPeriod.
    by rewrite !decide_False by done.
Qed.

Lemma period_keys_witness :
  formatDateByPeriod same_month (mkJsDate 2024 0 5 5) "month"
  = formatDateByPeriod same_month (mkJsDate 2024 0 17 3) "month"
  ∧ formatDateByPeriod same_month (mkJsDate 2024 0 5 5) "hour"
    = formatDateByPeriod same_month (mkJsDate 2024 0 5 5) "day".
Proof.
  destruct (period_keys same_month (mkJsDate 2024 0 5 5) (mkJsDate 2024 0 17 3))
    as (_ & Hmonth & _ & _ & Hother).
  - unfold calendar. simpl. lia.
  - unfold calendar. simpl. lia.
  - split.
    + apply Hmonth. split; reflexivity.
    + apply Hother; discriminate.
Defined.

(** ** Reports at work *)

Lemma category_breakdown_accounts_witness :
  "cat-a" ∈ map (λ row, ci_id (cr_item row)) (cat_data (getSalesByCategory day_by_category)).
Proof.
  destruct (category_breakdown_accounts day_by_category) as (_ & _ & _ & Hids & _).
  apply Hids. right. exists (mkCategorySale 30 (Some "cat-a") (Some "Stationery")).
  split; [|reflexivity]. left.
Defined.


Lemma sales_by_period_accounts_witness :
  time_data (getSalesByTimePeriod same_month "day" []) = []
  ∧ time_averageSale (getSalesByTimePeriod same_month "day" []) = 0%Q.
Proof.
  destruct (sales_by_period_accounts same_month "day" []) as (_ & _ & _ & _ & _ & _ & Hnone).
  apply Hnone. reflexivity.
Defined.

Lemma top_products_listing_witness :
  (top_totalSales (getTopSellingProducts day_by_product)
   == reduce_sum psl_total day_by_product)%Q
  ∧ top_totalQuantitySold (getTopSellingProducts day_by_product)
    = reduce_count psl_quantity day_by_product.
Proof.
  destruct (top_products_listing day_by_product) as (_ & _ & _ & _ & _ & _ & Htotals).
  apply Htotals. simpl. lia.
Defined.

Lemma top_customers_listing_witness :
  (topc_totalRevenue (getTopCustomers day_by_customer)
   == reduce_sum (λ r, r.2) (counted_purchases day_by_customer))%Q
  ∧ topc_totalInvoices (getTopCustomers day_by_customer)
    = Z.of_nat (length (counted_purchases day_by_customer)).
Proof.
  destruct (top_customers_listing day_by_customer) as (_ & _ & _ & _ & _ & _ & _ & Htotals).
  apply Htotals. simpl. lia.
Defined.

(** X24.  An invoice that was created can be fetched from then on, whatever the
    writing handlers are asked in between: a cashier gets it under the id
    of its creation, with the number it was given and with the customer, the
    lines and the amounts as they were submitted. *)
Theorem created_invoice_fetched env data s s' env' user' :
  res_status (POST_invoices env data s).1 = 201 →
  reaches (POST_invoices env data s).2 s' →
  authorized isCashier (session env') = Some user' →
  ∃ inv,
    GET_invoice env' (uuid env) s' = json (JsonInvoice inv) 200
    ∧ inv_invoiceNumber inv = invoiceNumber_of env
    ∧ inv_customerId inv = truthy (d_customerId data)
    ∧ inv_items inv = map item_of_data (d_items data)
    ∧ inv_subtotal inv = d_subtotal data
    ∧ inv_taxAmount inv = d_taxAmount data
    ∧ inv_discountAmount inv = or_zero (d_discountAmount data)
    ∧ inv_totalAmount inv = d_totalAmount data.
Proof.
  intros H201 Hreach Hauth.
  destruct (POST_invoices_cases env data s)
    as [(user & _ & _ & _ & Heq)|(msg & code & Heq & Hcode)];
    rewrite Heq in H201, Hreach; simpl in *; [|lia].
  destruct (invoices_kept_along _ s' (uuid env)
              (invoice_of_data env user (invoiceNumber_of env) data) Hreach)
    as (inv & Hinv & Hsale).
  { simpl. by rewrite lookup_insert_eq. }
  exists inv. unfold GET_invoice. rewrite Hauth, Hinv. split; [done|].
  injection Hsale as _ Hnumber Hcustomer _ Hitems Hsubtotal Htax Hdiscount Htotal _.
  simpl in *. done.
Qed.

Lemma created_invoice_fetched_witness :
  ∃ inv,
    GET_invoice back_office "i1" (DELETE_invoice back_office "i1" shop_after_sale).2
    = json (JsonInvoice inv) 200
    ∧ inv_totalAmount inv = 5%Q.
Proof.
  destruct (created_invoice_fetched (till "i1" "1234") small_sale shop
              (DELETE_invoice back_office "i1" shop_after_sale).2
              back_office (mkSession "u2" "ADMIN"))
    as (inv & Hget & _ & _ & _ & _ & _ & _ & Htotal).
  - reflexivity.
  - eapply rtc_l; [|apply rtc_refl].
    apply (step_DELETE_invoice back_office "i1" shop_after_sale).
  - reflexivity.
  - exists inv. split; [exact Hget|exact Htotal].
Defined.

(** ** Categories *)

Lemma log_activity_Some e c c' :
  log_activity e c = Some c' →
  c' = mkCatalog (set_activityLog (λ l, l ++ [e]) (base c)) (categories c).
Proof.
  unfold log_activity, call, transaction, tx_activityLog_create.
  destruct (bool_decide (al_userId e ∈ users (base c))); [|done]. by intros [= <-].
Qed.

Lemma log_activity_user e c :
  al_userId e ∈ users (base c) →
  log_activity e c
  = Some (mkCatalog (set_activityLog (λ l, l ++ [e]) (base c)) (categories c)).
Proof.
  intros H. unfold log_activity, call, transaction, tx_activityLog_create.
  by rewrite bool_decide_eq_true_2.
Qed.

Lemma catalog_ok_logged e c c' :
  catalog_ok c → log_activity e c = Some c' → catalog_ok c'.
Proof.
  intros [H1 H2 H3] Hlog. apply log_activity_Some in Hlog as ->.
  by constructor.
Qed.

Lemma uncategorized_category id p cid :
  p_categoryId (uncategorized id p) = Some cid →
  uncategorized id p = p ∧ cid ≠ id.
Proof.
  unfold uncategorized. destruct (decide (p_categoryId p = Some id)) as [Hin|Hout]; [done|].
  intros H. split; [done|]. intros ->. by apply Hout.
Qed.

Lemma uncategorized_idemp id p :
  uncategorized id (uncategorized id p) = uncategorized id p.
Proof.
  unfold uncategorized. destruct (decide (p_categoryId p = Some id)) as [Hin|Hout]; simpl.
  - done.
  - by rewrite decide_False.
Qed.

Lemma catalog_ok_uncategorize id c :
  catalog_ok c → catalog_ok (prisma_product_uncategorize id c).
Proof.
  intros [H1 H2 H3]. constructor; [done..|].
  intros k p' cid. unfold prisma_product_uncategorize. store_simpl.
  rewrite lookup_fmap. destruct (products (base c) !! k) as [p|] eqn:Hp; [|done].
  simpl. intros [= <-] Hcat. pose proof Hcat as Hcat'.
  apply uncategorized_category in Hcat as [Heq _]. rewrite Heq in Hcat'. eauto.
Qed.

Lemma catalog_ok_delete id c c' :
  catalog_ok c → prisma_category_delete id c = Some c' → catalog_ok c'.
Proof.
  intros [H1 H2 H3]. unfold prisma_category_delete.
  destruct (categories c !! id) as [cat|]; [|done]. intros [= <-].
  constructor; simpl.
  - intros i a Hi. apply lookup_delete_Some in Hi as [_ Hi]. eauto.
  - intros i j a b Hi Hj. apply lookup_delete_Some in Hi as [_ Hi].
    apply lookup_delete_Some in Hj as [_ Hj]. eauto.
  - intros k p' cid. store_simpl.
    rewrite lookup_fmap. destruct (products (base c) !! k) as [p|] eqn:Hp; [|done].
    simpl. intros [= <-] Hcat. pose proof Hcat as Hcat'.
    apply uncategorized_category in Hcat as [Heq Hne]. rewrite Heq in Hcat'.
    destruct (H3 k p cid Hp Hcat') as [x Hx]. exists x. by apply lookup_delete_Some.
Qed.

Lemma category_named_false name c :
  category_named name c = false ↔
  ∀ i cat, categories c !! i = Some cat → cg_name cat ≠ name.
Proof.
  unfold category_named. rewrite bool_decide_eq_false. split.
  - intros Hno i cat Hi Hname. apply Hno. by exists i, cat.
  - intros Hall (i & cat & Hi & Hname). by apply (Hall i cat).
Qed.

Lemma catalog_ok_create cat c c' :
  catalog_ok c → prisma_category_create cat c = Some c' → catalog_ok c'.
Proof.
  intros [H1 H2 H3]. unfold prisma_category_create.
  case_bool_decide as Hnew; [done|].
  destruct (category_named (cg_name cat) c) eqn:Hname; [done|]. intros [= <-].
  pose proof (proj1 (category_named_false _ _) Hname) as Hfree.
  constructor; simpl.
  - intros i a Hi. apply lookup_insert_Some in Hi as [[<- <-]|[_ Hi]]; eauto.
  - intros i j a b Hi Hj Hab.
    apply lookup_insert_Some in Hi as [[<- <-]|[? Hi]];
      apply lookup_insert_Some in Hj as [[<- <-]|[? Hj]].
    + done.
    + exfalso. by apply (Hfree j b Hj).
    + exfalso. by apply (Hfree i a Hi).
    + eauto.
  - intros k p cid Hp Hcat. destruct (H3 k p cid Hp Hcat) as [x Hx].
    destruct (decide (cg_id cat = cid)) as [<-|Hne].
    + rewrite lookup_insert_eq. eauto.
    + rewrite lookup_insert_ne by done. eauto.
Qed.

(** No handler of [step] adds a product or changes the category of one. *)
Lemma step_product_category s s' k p' :
  step s s' → products s' !! k = Some p' →
  ∃ p, products s !! k = Some p ∧ p_categoryId p' = p_categoryId p.
Proof.
  intros Hstep.
  assert (∀ lines, apply_lines lines (products s) !! k = Some p' →
                   ∃ p, products s !! k = Some p ∧ p_categoryId p' = p_categoryId p)
    as Hlines.
  { intros lines. rewrite apply_lines_lookup.
    destruct (products s !! k) as [p|]; [|done]. simpl. intros [= <-]. eauto. }
  destruct Hstep as [env data s|env id s|env data s|env id data s|env id s|env id s].
  - destruct (POST_invoices_cases env data s)
      as [(user & _ & _ & _ & ->)|(msg & code & -> & _)]; simpl; [|eauto].
    apply Hlines.
  - destruct (DELETE_invoice_cases env id s)
      as [(user & inv & _ & _ & _ & _ & _ & ->)|(msg & code & -> & _)]; simpl; [|eauto].
    apply Hlines.
  - destruct (POST_returns_cases env data s)
      as [(user & id & inv & _ & _ & _ & _ & _ & _ & ->)|(msg & code & -> & _)]; simpl;
      [|eauto].
    unfold after_return. destruct (completed data); simpl; [|eauto].
    apply Hlines.
  - destruct (PUT_invoice_cases env id data s)
      as [(user & inv & _ & _ & [[_ ->]|[_ ->]])|(msg & code & -> & _)]; store_simpl;
      eauto.
  - destruct (DELETE_product_cases env id s)
      as [(user & q & _ & _ & _ & [[_ ->]|[_ ->]])|(msg & sg & code & -> & _)]; store_simpl;
      [| |eauto].
    + intros Hq. apply lookup_delete_Some in Hq as [_ Hq]. eauto.
    + intros Hq. apply lookup_delete_Some in Hq as [_ Hq]. eauto.
  - destruct (DELETE_customer_cases env id s)
      as [(user & c & _ & _ & _ & [[_ ->]|[_ ->]])|(msg & sg & code & -> & _)]; store_simpl;
      eauto.
Qed.

(** X27.  The category handlers keep the category table in order: rows stay under
    their id, names stay unique, and no product is left with a category that
    is not in the table, whether a request succeeds, is refused or fails
    half-way.  The handlers of the invoice, return, product and customer
    routes modelled here keep it so as well. *)
Theorem categories_consistent c :
  catalog_ok c →
  (∀ env data, catalog_ok (POST_categories env data c).2)
  ∧ (∀ env id force, catalog_ok (DELETE_categories env id force c).2)
  ∧ (∀ s', step (base c) s' → catalog_ok (mkCatalog s' (categories c))).
Proof.
  intros Hc. split; [|split].
  - intros env data. unfold POST_categories.
    destruct (authorized isManager (session env)) as [user|]; [|done].
    destruct (truthy (cd_name data)) as [name|]; [|done].
    destruct (category_named name c); [done|].
    destruct (prisma_category_create _ c) as [c1|] eqn:Hcreate; [|done].
    pose proof (catalog_ok_create _ _ _ Hc Hcreate) as Hc1.
    destruct (log_activity _ c1) as [c2|] eqn:Hlog; [|done].
    simpl. by eapply (catalog_ok_logged _ c1).
  - intros env id force. unfold DELETE_categories.
    destruct (authorized isAdmin (session env)) as [user|]; [|done].
    destruct (truthy id) as [id'|]; [|done].
    destruct (categories c !! id') as [category|]; [|done].
    cbv zeta.
    assert (∀ c1, catalog_ok c1 →
              catalog_ok
                (match prisma_category_delete id' c1 with
                 | Some c2 =>
                     match log_activity
                             (mkActivityLog (user_id user) "DELETE_CATEGORY"
                                [Str ("Deleted category: " +:+ cg_name category
                                        +:+ (if bool_decide (force = Some "true")
                                             then " (forced)" else EmptyString))]) c2 with
                     | Some c3 => ((CategoryMessage "Category deleted successfully", 200), c3)
                     | None => ((CategoryError "Internal Server Error", 500), c2)
                     end
                 | None => ((CategoryError "Internal Server Error", 500), c1)
                 end).2) as Hrest.
    { intros c1 Hc1.
      destruct (prisma_category_delete id' c1) as [c2|] eqn:Hdelete; [|done].
      pose proof (catalog_ok_delete _ _ _ Hc1 Hdelete) as Hc2.
      destruct (log_activity _ c2) as [c3|] eqn:Hlog; [|done].
      simpl. by eapply (catalog_ok_logged _ c2). }
    destruct (bool_decide (0 < product_count id' c)%nat),
      (bool_decide (force = Some "true")) eqn:Hforce; simpl; try done.
    + apply (Hrest (prisma_product_uncategorize id' c)). by apply catalog_ok_uncategorize.
    + by apply (Hrest c).
    + by apply (Hrest c).
  - intros s' Hstep. destruct Hc as [H1 H2 H3]. constructor; simpl; [done..|].
    intros k p' cid Hp' Hcat.
    destruct (step_product_category _ _ _ _ Hstep Hp') as (p & Hp & Heq).
    rewrite Heq in Hcat. eauto.
Qed.

Lemma catalog_ok_stationer : catalog_ok stationer.
Proof.
  constructor.
  - intros i cat Hi. simpl in Hi. apply lookup_singleton_Some in Hi as [<- <-]. done.
  - intros i j a b Hi Hj _. simpl in Hi, Hj. apply lookup_singleton_Some in Hi as [<- _].
    by apply lookup_singleton_Some in Hj as [<- _].
  - intros k p cid Hp Hcat. simpl in Hp.
    apply lookup_insert_Some in Hp as [[<- <-]|[_ Hp]].
    + injection Hcat as <-. by eexists.
    + apply lookup_singleton_Some in Hp as [<- <-]. done.
Qed.

Lemma categories_consistent_witness :
  catalog_ok (DELETE_categories back_office (Some "g1") (Some "true") stationer).2.
Proof.
  destruct (categories_consistent stationer) as (_ & Hdelete & _).
  - apply catalog_ok_stationer.
  - apply Hdelete.
Defined.

(** X28.  Deleting a category.  A category that has products is not deleted
    unless the request forces it: the answer is 400 with the number of its
    products, and nothing is written.  A forced delete, or the delete of a
    category without products, is answered 200; the category is gone, its
    products are left without a category, and all else of a product, and
    the other products, stay as they are. *)
Theorem category_delete env id force c user category :
  authorized isAdmin (session env) = Some user →
  user_id user ∈ users (base c) →
  id ≠ EmptyString →
  categories c !! id = Some category →
  let answer := DELETE_categories env (Some id) force c in
  ((0 < product_count id c)%nat → force ≠ Some "true" →
   answer
   = ((CategoryInUse "Category has products associated with it" (product_count id c)
         "Set force=true to remove anyway - products will be uncategorized", 400), c))
  ∧ (product_count id c = 0%nat ∨ force = Some "true" →
     answer.1 = (CategoryMessage "Category deleted successfully", 200)
     ∧ categories answer.2 = delete id (categories c)
     ∧ ∀ k, products (base answer.2) !! k = uncategorized id <$> products (base c) !! k).
Proof.
  intros Hauth Huser Hid Hcat. unfold DELETE_categories. rewrite Hauth.
  assert (truthy (Some id) = Some id) as ->.
  { simpl. by rewrite decide_False. }
  rewrite Hcat. cbv zeta. split.
  - intros Hcount Hforce.
    rewrite (bool_decide_eq_true_2 _ Hcount), (bool_decide_eq_false_2 _ Hforce). done.
  - intros Hok.
    assert (bool_decide (0 < product_count id c)%nat && negb (bool_decide (force = Some "true"))
            = false) as ->.
    { destruct Hok as [Hzero|Hforce].
      - rewrite bool_decide_eq_false_2 by lia. done.
      - rewrite (bool_decide_eq_true_2 _ Hforce). apply andb_false_r. }
    assert (∃ c1, (if bool_decide (0 < product_count id c)%nat
                      && bool_decide (force = Some "true")
                   then prisma_product_uncategorize id c else c) = c1
                  ∧ categories c1 = categories c
                  ∧ users (base c1) = users (base c)
                  ∧ ∀ k, uncategorized id <$> products (base c1) !! k
                         = uncategorized id <$> products (base c) !! k)
      as (c1 & -> & Hcats & Husers & Hproducts).
    { eexists. split; [reflexivity|]. destruct (_ && _); [|done].
      split; [done|]. split; [done|]. intros k.
      unfold prisma_product_uncategorize. store_simpl. rewrite lookup_fmap.
      destruct (products (base c) !! k) as [p|]; simpl; [|done].
      by rewrite uncategorized_idemp. }
    unfold prisma_category_delete. rewrite Hcats, Hcat.
    rewrite log_activity_user by (store_simpl; by rewrite Husers).
    simpl. split; [done|]. split; [done|].
    intros k. store_simpl. rewrite lookup_fmap. apply Hproducts.
Qed.

Lemma category_delete_witness :
  (DELETE_categories back_office (Some "g1") None stationer).1.2 = 400
  ∧ (DELETE_categories back_office (Some "g1") (Some "true") stationer).1.2 = 200.
Proof.
  split.
  - destruct (category_delete back_office "g1" None stationer (mkSession "u2" "ADMIN")
                (mkCategory "g1" "Stationery" None)) as [Hrefused _].
    + reflexivity.
    + vm_compute. repeat constructor.
    + discriminate.
    + reflexivity.
    + rewrite Hrefused; [reflexivity|vm_compute; lia|discriminate].
  - destruct (category_delete back_office "g1" (Some "true") stationer
                (mkSession "u2" "ADMIN") (mkCategory "g1" "Stationery" None))
      as [_ Hdeleted].
    + reflexivity.
    + vm_compute. repeat constructor.
    + discriminate.
    + reflexivity.
    + destruct Hdeleted as [Hanswer _]; [by right|]. by rewrite Hanswer.
Defined.

(** ** CSV records *)

Lemma string_app_cons c (s t : string) : String c s +:+ t = String c (s +:+ t).
Proof. reflexivity. Qed.

Lemma string_app_nil_l (t : string) : EmptyString +:+ t = t.
Proof. reflexivity. Qed.

Ltac string_simpl := rewrite ?string_app_cons, ?string_app_nil_l; simpl.

Lemma string_app_nil_r (s : string) : s +:+ EmptyString = s.
Proof. induction s as [|c s IH]; string_simpl; [done|]. by rewrite IH. Qed.

Lemma string_app_assoc (s t u : string) : (s +:+ t) +:+ u = s +:+ (t +:+ u).
Proof. induction s as [|c s IH]; string_simpl; [done|]. by rewrite IH. Qed.

Lemma prepend_push c v fields : push c (prepend v fields) = prepend (String c v) fields.
Proof. by destruct fields. Qed.

Lemma prepend_empty fields : prepend EmptyString fields = fields.
Proof. by destruct fields. Qed.

Lemma read_field_end state rest :
  field_end rest → state ≠ Quoted → read_record state rest = read_record Unquoted rest.
Proof.
  intros [->|[more ->]] Hstate; destruct state; simpl; try done.
Qed.

Lemma read_comma state rest :
  state ≠ Quoted →
  read_record state (String comma rest) = cons EmptyString <$> read_record FieldStart rest.
Proof. intros Hstate. by destruct state. Qed.

Lemma read_unquoted v rest :
  needs_quotes v = false →
  read_record Unquoted (v +:+ rest) = prepend v <$> read_record Unquoted rest.
Proof.
  induction v as [|c v IH]; intros Hclean; string_simpl.
  - destruct (read_record Unquoted rest) as [fields|]; simpl; [|done].
    by rewrite prepend_empty.
  - simpl in Hclean. apply orb_false_iff in Hclean as [Hc Hclean].
    apply orb_false_iff in Hc as [Hc _]. apply orb_false_iff in Hc as [Hq Hcomma].
    apply bool_decide_eq_false in Hq, Hcomma.
    rewrite !decide_False by done. rewrite IH by done.
    destruct (read_record Unquoted rest) as [fields|]; simpl; [|done].
    by rewrite prepend_push.
Qed.

Lemma read_plain v rest :
  needs_quotes v = false → field_end rest →
  read_record FieldStart (v +:+ rest) = prepend v <$> read_record Unquoted rest.
Proof.
  intros Hclean Hend. destruct v as [|c v].
  - string_simpl. rewrite (read_field_end FieldStart) by done.
    destruct (read_record Unquoted rest) as [fields|]; simpl; [|done].
    by rewrite prepend_empty.
  - pose proof (read_unquoted (String c v) rest Hclean) as Hread.
    simpl in Hclean. apply orb_false_iff in Hclean as [Hc Hclean].
    apply orb_false_iff in Hc as [Hc _]. apply orb_false_iff in Hc as [Hq Hcomma].
    apply bool_decide_eq_false in Hq, Hcomma.
    rewrite string_app_cons in Hread |- *. simpl in Hread |- *.
    by rewrite !decide_False in Hread |- * by done.
Qed.

Lemma read_quoted v rest :
  read_record Quoted (double_quotes v +:+ String dquote rest)
  = prepend v <$> read_record Closing rest.
Proof.
  induction v as [|c v IH]; string_simpl.
  - destruct (read_record Closing rest) as [fields|]; simpl; [|done].
    by rewrite prepend_empty.
  - destruct (decide (c = dquote)) as [->|Hc]; string_simpl.
    + rewrite IH.
      destruct (read_record Closing rest) as [fields|]; simpl; [|done].
      by rewrite prepend_push.
    + rewrite decide_False by done. rewrite IH.
      destruct (read_record Closing rest) as [fields|]; simpl; [|done].
      by rewrite prepend_push.
Qed.

Lemma read_wrapped v rest :
  field_end rest →
  read_record FieldStart (quoted (double_quotes v) +:+ rest)
  = prepend v <$> read_record Unquoted rest.
Proof.
  intros Hend. unfold quoted. string_simpl.
  rewrite string_app_assoc. string_simpl. rewrite read_quoted.
  by rewrite (read_field_end Closing).
Qed.

Lemma double_quotes_clean v : needs_quotes v = false → double_quotes v = v.
Proof.
  induction v as [|c v IH]; simpl; [done|]. intros Hclean.
  apply orb_false_iff in Hclean as [Hc Hclean].
  apply orb_false_iff in Hc as [Hc _]. apply orb_false_iff in Hc as [Hq _].
  apply bool_decide_eq_false in Hq. rewrite decide_False by done. by rewrite IH.
Qed.

Lemma read_field value rest :
  plain_cell value → field_end rest →
  read_record FieldStart (csv_field value +:+ rest)
  = prepend (cell_text value) <$> read_record Unquoted rest.
Proof.
  intros Hplain Hend. destruct value as [[|v|iso|text|text]|]; simpl in *.
  - by apply (read_plain EmptyString).
  - destruct (needs_quotes v) eqn:Hv.
    + by apply read_wrapped.
    + rewrite double_quotes_clean by done. by apply read_plain.
  - by apply read_plain.
  - by apply read_wrapped.
  - by apply read_plain.
  - by apply (read_plain EmptyString).
Qed.

Lemma read_fields (values : list (option CsvValue)) :
  values ≠ [] → Forall plain_cell values →
  read_record FieldStart (join (String comma EmptyString) (map csv_field values))
  = Some (map cell_text values).
Proof.
  induction values as [|value values IH]; [done|]. intros _ Hplain.
  apply Forall_cons in Hplain as [Hvalue Hplain].
  destruct values as [|value' values].
  - simpl. rewrite <- (string_app_nil_r (csv_field value)).
    rewrite read_field by (done || by left). simpl. by rewrite string_app_nil_r.
  - change (join (String comma EmptyString) (map csv_field (value :: value' :: values)))
      with (csv_field value
              +:+ String comma EmptyString
              +:+ join (String comma EmptyString) (map csv_field (value' :: values))).
    rewrite read_field by (done || right; by eexists).
    rewrite string_app_cons, string_app_nil_l, read_comma by done.
    rewrite IH by done. simpl. by rewrite string_app_nil_r.
Qed.

(** X10.  The export writes the header row and one line for each row, with a cell
    for each header taken from the first row; an empty report gives the
    empty text.  Reading a line back as a comma-separated record gives the
    cells of the row as they were: a cell with a comma, a quote or a line
    feed in it is wrapped in quotes with its quotes doubled, and comes back
    as it was; a missing cell comes back empty. *)
Theorem csv_record_round_trip first data :
  let rows := first :: data in
  let headers := map fst first in
  convertToCSV [] = EmptyString
  ∧ convertToCSV rows
    = join (String linefeed EmptyString)
        (join (String comma EmptyString) headers :: map (csv_line headers) rows)
  ∧ (∀ row, row ∈ rows → headers ≠ [] →
       Forall (λ header, plain_cell (row_get row header)) headers →
       read_record FieldStart (csv_line headers row)
       = Some (map (λ header, cell_text (row_get row header)) headers)).
Proof.
  simpl. split; [done|]. split; [done|].
  intros row _ Hheaders Hplain. unfold csv_line.
  rewrite <- (map_map (row_get row) csv_field), <- (map_map (row_get row) cell_text).
  apply read_fields.
  - by destruct (map fst first).
  - by apply Forall_map.
Qed.

Lemma csv_record_round_trip_witness :
  read_record FieldStart (csv_line (map fst sales_row) sales_row)
  = Some ["INV-20240101-1234"; "Ann, Lee"; "5"; "PAID"].
Proof.
  destruct (csv_record_round_trip sales_row []) as (_ & _ & Hread).
  apply (Hread sales_row).
  - left.
  - discriminate.
  - repeat constructor.
Defined.

(** ** The products report *)

Lemma entry_get_upsert {V} k (init : V) f (m : list (string * V)) k' :
  entry_get (upsert k init f m) k'
  = if decide (k = k') then Some (f (default init (entry_get m k))) else entry_get m k'.
Proof.
  unfold entry_get. induction m as [|[j v] m IH]; simpl.
  - destruct (decide (k = k')) as [->|Hne].
    + by rewrite bool_decide_eq_true_2.
    + by rewrite bool_decide_eq_false_2.
  - destruct (decide (j = k)) as [->|Hjk]; simpl.
    + destruct (decide (k = k')) as [->|Hne].
      * by rewrite !bool_decide_eq_true_2.
      * by rewrite !bool_decide_eq_false_2.
    + destruct (decide (j = k')) as [->|Hjk'].
      * rewrite !bool_decide_eq_true_2 by done. simpl.
        by rewrite decide_False by (intros ->; done).
      * rewrite !bool_decide_eq_false_2 by done. rewrite IH.
        by destruct (decide (k = k')).
Qed.

Lemma entry_get_with_average m k :
  entry_get (with_average m) k
  = (λ sales, mkProductSales (sl_quantity sales) (sl_revenue sales)
                (if bool_decide (0 < sl_quantity sales)
                 then (sl_revenue sales / inject_Z (sl_quantity sales))%Q else 0%Q))
      <$> entry_get m k.
Proof.
  unfold entry_get, with_average. induction m as [|[j v] m IH]; simpl; [done|].
  destruct (decide (j = k)) as [->|Hne].
  - by rewrite !(bool_decide_eq_true_2 (k = k)) by done.
  - by rewrite !(bool_decide_eq_false_2 (j = k)) by done.
Qed.

Lemma sold_by_product_lines invoiceItems (m : list (string * ProductSales)) k :
  let sales items m :=
    default (mkProductSales 0 0 0)
      (entry_get
         (fold_left
            (λ salesByProduct item,
               upsert (si_productId item) (mkProductSales 0 0 0)
                 (λ e, mkProductSales (sl_quantity e + si_quantity item)
                         (sl_revenue e + si_total item) (sl_averagePrice e))
                 salesByProduct)
            items m) k) in
  sl_quantity (sales invoiceItems m)
  = sl_quantity (sales [] m) + reduce_count si_quantity (lines_of k invoiceItems)
  ∧ (sl_revenue (sales invoiceItems m)
     == sl_revenue (sales [] m) + reduce_sum si_total (lines_of k invoiceItems))%Q.
Proof.
  simpl. revert m. induction invoiceItems as [|item items IH]; intros m; simpl.
  - unfold reduce_count, reduce_sum. simpl. split; [lia|ring].
  - destruct (IH (upsert (si_productId item) (mkProductSales 0 0 0)
                    (λ e, mkProductSales (sl_quantity e + si_quantity item)
                            (sl_revenue e + si_total item) (sl_averagePrice e)) m))
      as [Hq Hr].
    rewrite Hq, Hr. clear Hq Hr IH. rewrite entry_get_upsert.
    unfold lines_of. rewrite filter_cons.
    destruct (decide (si_productId item = k)) as [->|Hne]; simpl.
    + rewrite reduce_count_cons, reduce_sum_cons. split; [lia|ring].
    + done.
Qed.

Lemma Forall2_map_self {A B} (P : A → B → Prop) (f : A → B) (l : list A) :
  (∀ x, x ∈ l → P x (f x)) → Forall2 P l (map f l).
Proof.
  induction l as [|x l IH]; intros H; simpl; constructor.
  - apply H. left.
  - apply IH. intros y Hy. apply H. by right.
Qed.

(** X9.  The products report has one row for each product, in the order of the
    products.  A row shows the quantity and the revenue of the lines of its
    own product, zero when it has none; what it cost to buy the sold
    quantity at the current cost, and the difference as the profit.  The
    margin and the average selling price are 0 when there is no revenue or
    no quantity to divide by. *)
Theorem products_report_accounts products invoiceItems :
  Forall2
    (λ product row,
       prr_name row = rp_name product
       ∧ prr_quantitySold row
         = reduce_count si_quantity (lines_of (rp_id product) invoiceItems)
       ∧ (prr_revenue row
          == reduce_sum si_total (lines_of (rp_id product) invoiceItems))%Q
       ∧ (prr_costOfSold row == rp_cost product * inject_Z (prr_quantitySold row))%Q
       ∧ (prr_profit row == prr_revenue row - prr_costOfSold row)%Q
       ∧ ((0 < prr_revenue row)%Q →
          (prr_profitMargin row * prr_revenue row == 100 * prr_profit row)%Q)
       ∧ ((prr_revenue row <= 0)%Q → prr_profitMargin row = 0%Q)
       ∧ (0 < prr_quantitySold row →
          (prr_averageSellPrice row * inject_Z (prr_quantitySold row)
           == prr_revenue row)%Q)
       ∧ (prr_quantitySold row ≤ 0 → prr_averageSellPrice row = 0%Q))
    products (getProductsReportData products invoiceItems).
Proof.
  unfold getProductsReportData. apply Forall2_map_self. intros product _. simpl.
  rewrite entry_get_with_average.
  destruct (sold_by_product_lines invoiceItems [] (rp_id product)) as [Hq Hr].
  simpl in Hq, Hr. fold (sold_by_product invoiceItems) in Hq, Hr.
  set (found := entry_get (sold_by_product invoiceItems) (rp_id product)) in *.
  assert (sl_quantity (default (mkProductSales 0 0 0) found)
          = reduce_count si_quantity (lines_of (rp_id product) invoiceItems)) as Hq'
    by (rewrite Hq; lia).
  assert (sl_revenue (default (mkProductSales 0 0 0) found)
          == reduce_sum si_total (lines_of (rp_id product) invoiceItems))%Q as Hr'
    by (rewrite Hr; ring).
  clear Hq Hr.
  assert (∀ sales : ProductSales,
            let row_sales :=
              mkProductSales (sl_quantity sales) (sl_revenue sales)
                (if bool_decide (0 < sl_quantity sales)
                 then (sl_revenue sales / inject_Z (sl_quantity sales))%Q else 0%Q) in
            (0 < sl_quantity row_sales →
             (sl_averagePrice row_sales * inject_Z (sl_quantity row_sales)
              == sl_revenue row_sales)%Q)
            ∧ (sl_quantity row_sales ≤ 0 → sl_averagePrice row_sales = 0%Q)) as Haverage.
  { intros sales. simpl. split.
    - intros Hpos. rewrite bool_decide_eq_true_2 by done. field.
      intros H. unfold Qeq in H. simpl in H. lia.
    - intros Hnone. by rewrite bool_decide_eq_false_2 by lia. }
  assert (∀ revenue profit : Q,
            ((0 < revenue)%Q →
             ((if Qltb 0 revenue then profit / revenue * 100 else 0) * revenue
              == 100 * profit)%Q)
            ∧ ((revenue <= 0)%Q →
               (if Qltb 0 revenue then profit / revenue * 100 else 0)%Q = 0%Q)) as Hmargin.
  { intros revenue profit. split.
    - intros Hpos. rewrite (proj2 (Qltb_true 0 revenue) Hpos). field.
      intros H. rewrite H in Hpos. by apply Qlt_irrefl in Hpos.
    - intros Hle. by rewrite (proj2 (Qltb_false 0 revenue) Hle). }
  destruct found as [sales|]; simpl in *.
  - split; [done|]. split; [done|]. split; [done|]. split; [reflexivity|].
    split; [reflexivity|]. split; [apply Hmargin|]. split; [apply Hmargin|].
    apply (Haverage sales).
  - split; [done|]. split; [done|]. split; [done|]. split; [reflexivity|].
    split; [reflexivity|]. split; [intros H; by apply Qlt_irrefl in H|].
    split; [done|]. split; [lia|done].
Qed.

Lemma products_report_accounts_witness :
  Forall2
    (λ product row,
       prr_quantitySold row
       = reduce_count si_quantity (lines_of (rp_id product) period_lines))
    stock_list (getProductsReportData stock_list period_lines).
Proof.
  eapply Forall2_impl; [apply (products_report_accounts stock_list period_lines)|].
  intros product row (_ & Hquantity & _). exact Hquantity.
Defined.

(** ** The item list *)

(** X29.  Adding an item and deleting it again gives the list back, when no item
    had its id before.  A delete takes out every item with the id and no
    other item, is answered 200 whether there was one or not, and leaves the
    list as it is when the id is not a number.  An item is added whatever
    its id: the list grows by one, also when the id is taken. *)
Theorem item_list_round_trip parseInt now newItem id n items :
  parseInt id = Some n →
  id ≠ EmptyString →
  let added := (items_POST now newItem items).2 in
  let deleted := (items_DELETE parseInt (Some id) added).2 in
  length added = S (length items)
  ∧ (items_DELETE parseInt (Some id) added).1 = (Some deleted, 200)
  ∧ (∀ item, item ∈ deleted ↔ item ∈ added ∧ dm_id item ≠ n)
  ∧ (dm_id (item_of_body now newItem) = n →
     (∀ item, item ∈ items → dm_id item ≠ n) → deleted = items)
  ∧ (∀ text, text ≠ EmptyString → parseInt text = None →
       (items_DELETE parseInt (Some text) added).2 = added).
Proof.
  intros Hparse Hid. unfold items_POST, items_DELETE.
  remember (item_of_body now newItem) as new eqn:Hitem. clear Hitem. simpl.
  rewrite decide_False by done. simpl. rewrite Hparse.
  split; [rewrite length_app; simpl; lia|]. split; [done|]. split; [|split].
  - intros item. rewrite list_elem_of_filter. split.
    + intros [Hne Hin]. split; [done|]. intros Heq. apply Hne. by rewrite Heq.
    + intros [Hin Hne]. split; [|done]. intros [= Heq]. by apply Hne.
  - intros Hnew Hfresh. rewrite filter_app, filter_cons, filter_nil.
    rewrite decide_False by (intros H; apply H; by rewrite Hnew).
    rewrite app_nil_r. apply filter_all. intros item Hin [= Heq].
    by apply (Hfresh item).
  - intros text Htext Hnan. rewrite decide_False by done. simpl. rewrite Hnan.
    by apply filter_all.
Qed.

Lemma item_list_round_trip_witness :
  (items_DELETE parse_seven (Some "7")
     (items_POST 99 (mkNewItem (Some 7) "Item 7" 5 1) first_items).2).2
  = first_items.
Proof.
  destruct (item_list_round_trip parse_seven 99 (mkNewItem (Some 7) "Item 7" 5 1) "7" 7
              first_items) as (_ & _ & _ & Hback & _).
  - reflexivity.
  - discriminate.
  - apply Hback; [reflexivity|].
    intros item Hin. repeat (apply elem_of_cons in Hin as [->|Hin]; [discriminate|]).
    by apply elem_of_nil in Hin.
Defined.

(** ** Rows an invoice refers to *)

Lemma step_invoiced_kept s s' i inv :
  step s s' → invoices s !! i = Some inv →
  (∀ k, k ∈ map ii_productId (inv_items inv) →
        is_Some (products s !! k) → is_Some (products s' !! k))
  ∧ (∀ c, inv_customerId inv = Some c →
          is_Some (customers s !! c) → is_Some (customers s' !! c)).
Proof.
  intros Hstep Hi.
  destruct Hstep as [env data s|env id s|env data s|env id data s|env id s|env id s].
  - destruct (POST_invoices_cases env data s)
      as [(user & _ & _ & _ & ->)|(msg & code & -> & _)]; simpl; [|done].
    split; intros k _.
    + by rewrite apply_lines_is_Some.
    + by rewrite credited_is_Some.
  - destruct (DELETE_invoice_cases env id s)
      as [(user & inv0 & _ & _ & _ & _ & _ & ->)|(msg & code & -> & _)]; simpl; [|done].
    split; intros k _.
    + by rewrite apply_lines_is_Some.
    + by rewrite reversed_is_Some.
  - destruct (POST_returns_cases env data s)
      as [(user & id & inv0 & _ & _ & _ & _ & _ & _ & ->)|(msg & code & -> & _)]; simpl;
      [|done].
    split; intros k _.
    + by rewrite after_return_products.
    + by rewrite after_return_customers.
  - by destruct (PUT_invoice_cases env id data s)
      as [(user & inv0 & _ & _ & [[_ ->]|[_ ->]])|(msg & code & -> & _)]; store_simpl.
  - destruct (DELETE_product_cases env id s)
      as [(user & q & _ & _ & Hfree & [[_ ->]|[_ ->]])|(msg & sg & code & -> & _)];
      store_simpl; [| |done].
    + split; [|done]. intros k Hk [x Hx]. exists x. apply lookup_delete_Some.
      split; [|done]. intros ->.
      by apply (proj1 (product_invoiced_false _ _) Hfree i inv Hi).
    + split; [|done]. intros k Hk [x Hx]. exists x. apply lookup_delete_Some.
      split; [|done]. intros ->.
      by apply (proj1 (product_invoiced_false _ _) Hfree i inv Hi).
  - destruct (DELETE_customer_cases env id s)
      as [(user & q & _ & _ & Hfree & [[_ ->]|[_ ->]])|(msg & sg & code & -> & _)];
      store_simpl; [| |done].
    + split; [done|]. intros c Hc [x Hx]. exists x. apply lookup_delete_Some.
      split; [|done]. intros ->.
      by apply (proj1 (customer_invoiced_false _ _) Hfree i inv Hi).
    + split; [done|]. intros c Hc [x Hx]. exists x. apply lookup_delete_Some.
      split; [|done]. intros ->.
      by apply (proj1 (customer_invoiced_false _ _) Hfree i inv Hi).
Qed.

Lemma reaches_invoiced_kept s s' i inv :
  reaches s s' → invoices s !! i = Some inv →
  ∃ inv', invoices s' !! i = Some inv' ∧ sale_of inv' = sale_of inv
    ∧ (∀ k, k ∈ map ii_productId (inv_items inv) →
            is_Some (products s !! k) → is_Some (products s' !! k))
    ∧ (∀ c, inv_customerId inv = Some c →
            is_Some (customers s !! c) → is_Some (customers s' !! c)).
Proof.
  intros Hreach. revert inv. induction Hreach as [s|s s1 s2 Hstep _ IH]; intros inv Hi.
  - eauto.
  - destruct (step_invoice_kept s s1 i inv Hstep Hi) as (inv1 & Hi1 & Hsale1).
    destruct (step_invoiced_kept s s1 i inv Hstep Hi) as [Hp1 Hc1].
    destruct (IH inv1 Hi1) as (inv2 & Hi2 & Hsale2 & Hp2 & Hc2).
    assert (inv_items inv1 = inv_items inv) as Hitems by (by injection Hsale1).
    assert (inv_customerId inv1 = inv_customerId inv) as Hcust by (by injection Hsale1).
    exists inv2. split; [done|]. split; [by rewrite Hsale2|]. split.
    + intros k Hk Hs. apply Hp2; [by rewrite Hitems|]. by apply Hp1.
    + intros c Hc Hs. apply Hc2; [by rewrite Hcust|]. by apply Hc1.
Qed.

(** X17.  A product that is on an invoice, and the customer of an invoice, cannot
    be deleted, then or later: whatever requests the writing handlers serve,
    the row stays, and an admin's delete of it is answered 400 with the
    advice to set the stock to 0, or to anonymize the customer, and writes
    nothing. *)
Theorem invoiced_rows_stay s s' i inv :
  reaches s s' →
  invoices s !! i = Some inv →
  (∀ k env user,
      k ∈ map ii_productId (inv_items inv) →
      is_Some (products s !! k) →
      authorized isAdmin (session env) = Some user →
      is_Some (products s' !! k)
      ∧ DELETE_product env k s'
        = ((Refused "Cannot delete product that has been used in invoices"
              (Some "Consider setting stock to 0 instead"), 400), s'))
  ∧ (∀ c env user,
      inv_customerId inv = Some c →
      is_Some (customers s !! c) →
      authorized isAdmin (session env) = Some user →
      is_Some (customers s' !! c)
      ∧ DELETE_customer env c s'
        = ((Refused "Cannot delete customer with purchase history"
              (Some "Consider anonymizing their personal data instead"), 400), s')).
Proof.
  intros Hreach Hi.
  destruct (reaches_invoiced_kept s s' i inv Hreach Hi) as (inv' & Hi' & Hsale & Hp & Hc).
  assert (inv_items inv' = inv_items inv) as Hitems by (by injection Hsale).
  assert (inv_customerId inv' = inv_customerId inv) as Hcust by (by injection Hsale).
  split.
  - intros k env user Hk Hs Hauth. destruct (Hp k Hk Hs) as [p Hk'].
    split; [eauto|]. unfold DELETE_product. rewrite Hauth, Hk'.
    assert (product_invoiced k s' = true) as ->; [|done].
    apply bool_decide_eq_true. exists i, inv'. split; [done|]. by rewrite Hitems.
  - intros c env user Hcid Hs Hauth. destruct (Hc c Hcid Hs) as [x Hc'].
    split; [eauto|]. unfold DELETE_customer. rewrite Hauth, Hc'.
    assert (customer_invoiced c s' = true) as ->; [|done].
    apply bool_decide_eq_true. exists i, inv'. split; [done|]. by rewrite Hcust.
Qed.

Lemma invoiced_rows_stay_witness :
  DELETE_product back_office "p1" (DELETE_invoice back_office "i1" shop_after_sale).2
  = ((Refused "Cannot delete product that has been used in invoices"
        (Some "Consider setting stock to 0 instead"), 400),
     (DELETE_invoice back_office "i1" shop_after_sale).2).
Proof.
  destruct (invoiced_rows_stay shop_after_sale
              (DELETE_invoice back_office "i1" shop_after_sale).2 "i1"
              (invoice_of_data (till "i1" "1234") (mkSession "u1" "ADMIN")
                 "INV-20240101-1234" small_sale)) as [Hproduct _].
  - eapply rtc_l; [|apply rtc_refl].
    apply (step_DELETE_invoice back_office "i1" shop_after_sale).
  - reflexivity.
  - apply (Hproduct "p1" back_office (mkSession "u2" "ADMIN")).
    + left.
    + by eexists.
    + reflexivity.
Defined.
